(** * MetricTensor: a shallow embedding of [include/MetricTensor.h]

    The header defines the class template [MetricTensor<real_t>]: a
    [d*d] row-major buffer [_metric] with its dimension [_dimension], and
    the operations [set], [set_metric], [positive_definiteness],
    [positive_definiteness_iso], [constrain], [scale], the three length
    queries, [eigen_decomp] and [eigen_undecomp].

    The arithmetic is the floating-point type [real_t].  It is embedded as
    the real numbers extended with the IEEE special values: finite
    arithmetic is exact (no rounding, no overflow), and the values
    [+inf], [-inf] and [NaN] arise and propagate as IEEE 754 prescribes
    (division by zero, square root of a negative number, [0 * inf], ...).
    There is one zero, which behaves as [+0].

    The dense linear algebra comes from the Eigen library, which is not
    part of the repository.  Products, transposes, the closed-form inverse
    and the diagonal products are written out; two things are kept as
    parameters of the development:
    - the eigensolver ([Eigen::EigenSolver]), of which only the real parts
      of the eigenvalues and eigenvectors are used;
    - the storage order that the linear index [M[i]] of a dense matrix
      follows (column-major is Eigen's default, row-major is a build
      option). *)

From Stdlib Require Import Reals Psatz List ZArith Bool.
Import ListNotations.

Set Implicit Arguments.

Open Scope R_scope.

(* ================================================================== *)
(** ** The element type [real_t] *)
(* ================================================================== *)

Inductive real_t : Type :=
| Fin (r : R)
| PInf
| NInf
| NaN.

Definition Rltb (a b : R) : bool := if Rlt_dec a b then true else false.
Definition Reqb0 (a : R) : bool := if Req_dec_T a 0 then true else false.

Module Real.

(** [isnan] of <cmath>. *)
Definition isnan (x : real_t) : bool :=
  match x with NaN => true | _ => false end.

Definition is_finite (x : real_t) : bool :=
  match x with Fin _ => true | _ => false end.

Definition neg (x : real_t) : real_t :=
  match x with
  | Fin a => Fin (- a)
  | PInf => NInf
  | NInf => PInf
  | NaN => NaN
  end.

Definition add (x y : real_t) : real_t :=
  match x, y with
  | NaN, _ | _, NaN => NaN
  | Fin a, Fin b => Fin (a + b)
  | PInf, NInf | NInf, PInf => NaN
  | PInf, _ | _, PInf => PInf
  | NInf, _ | _, NInf => NInf
  end.

Definition sub (x y : real_t) : real_t := add x (neg y).

(** The infinity of the sign of [a], and NaN for [a = 0]. *)
Definition signed_inf (a : R) (pos : real_t) (neg : real_t) : real_t :=
  if Rltb 0 a then pos else if Rltb a 0 then neg else NaN.

Definition mul (x y : real_t) : real_t :=
  match x, y with
  | NaN, _ | _, NaN => NaN
  | Fin a, Fin b => Fin (a * b)
  | Fin a, PInf | PInf, Fin a => signed_inf a PInf NInf
  | Fin a, NInf | NInf, Fin a => signed_inf a NInf PInf
  | PInf, PInf | NInf, NInf => PInf
  | PInf, NInf | NInf, PInf => NInf
  end.

Definition div (x y : real_t) : real_t :=
  match x, y with
  | NaN, _ | _, NaN => NaN
  | Fin a, Fin b =>
      if Reqb0 b then signed_inf a PInf NInf else Fin (a / b)
  | Fin _, PInf | Fin _, NInf => Fin 0
  | PInf, Fin b => if Rltb b 0 then NInf else PInf
  | NInf, Fin b => if Rltb b 0 then PInf else NInf
  | _, _ => NaN
  end.

(** [sqrt] of <cmath> and Eigen's [cwise().sqrt()]. *)
Definition sqrt (x : real_t) : real_t :=
  match x with
  | Fin a => if Rltb a 0 then NaN else Fin (R_sqrt.sqrt a)
  | PInf => PInf
  | NInf | NaN => NaN
  end.

(** [fabs] and Eigen's [cwise().abs()]. *)
Definition abs (x : real_t) : real_t :=
  match x with
  | Fin a => Fin (Rabs a)
  | PInf | NInf => PInf
  | NaN => NaN
  end.

(** [operator<]: false as soon as one side is NaN. *)
Definition ltb (x y : real_t) : bool :=
  match x, y with
  | NaN, _ | _, NaN => false
  | Fin a, Fin b => Rltb a b
  | NInf, Fin _ | NInf, PInf | Fin _, PInf => true
  | _, _ => false
  end.

(** [operator>]. *)
Definition gtb (x y : real_t) : bool := ltb y x.

(** [std::min(a, b)] is [(b < a) ? b : a]. *)
Definition std_min (a b : real_t) : real_t := if ltb b a then b else a.

(** [std::max(a, b)] is [(a < b) ? b : a]. *)
Definition std_max (a b : real_t) : real_t := if ltb a b then b else a.

Definition is_zero (x : real_t) : bool :=
  match x with Fin a => Reqb0 a | _ => false end.

End Real.

(** The scalar operations the dense kernels are written over; they are
    instantiated at [real_t] (the code) and at [R] (the algebra used to
    reason about finite values). *)
Class Scalar (T : Type) : Type := {
  s0 : T;
  s1 : T;
  sadd : T -> T -> T;
  ssub : T -> T -> T;
  smul : T -> T -> T;
  sdiv : T -> T -> T;
  sneg : T -> T
}.

#[export] Instance real_t_scalar : Scalar real_t := {|
  s0 := Fin 0;
  s1 := Fin 1;
  sadd := Real.add;
  ssub := Real.sub;
  smul := Real.mul;
  sdiv := Real.div;
  sneg := Real.neg
|}.

#[export] Instance R_scalar : Scalar R := {|
  s0 := 0;
  s1 := 1;
  sadd := Rplus;
  ssub := Rminus;
  smul := Rmult;
  sdiv := Rdiv;
  sneg := Ropp
|}.

(* ================================================================== *)
(** ** Dense fixed-size matrices *)
(* ================================================================== *)

(** A dense [n x n] matrix is the list of its coefficients, row after
    row; a vector is the list of its entries. *)

Section Dense.
Context {T : Type} `{Scalar T}.

Definition coeff (n : nat) (A : list T) (i j : nat) : T :=
  nth (i * n + j) A s0.

Definition tabulate (n : nat) (f : nat -> nat -> T) : list T :=
  flat_map (fun i => map (f i) (seq 0 n)) (seq 0 n).

(** [f 0 + f 1 + ... + f (n-1)], accumulated from the left. *)
Definition sum_n (n : nat) (f : nat -> T) : T :=
  match n with
  | O => s0
  | S m => fold_left (fun acc k => sadd acc (f k)) (seq 1 m) (f O)
  end.

(** [A * B]. *)
Definition mmul (n : nat) (A B : list T) : list T :=
  tabulate n (fun i j =>
    sum_n n (fun k => smul (coeff n A i k) (coeff n B k j))).

(** [A.transpose()]. *)
Definition transpose (n : nat) (A : list T) : list T :=
  tabulate n (fun i j => coeff n A j i).

(** [v.asDiagonal() * A]: row [i] of [A] scaled by [v[i]]. *)
Definition diag_mul_l (n : nat) (v A : list T) : list T :=
  tabulate n (fun i j => smul (nth i v s0) (coeff n A i j)).

(** [A * v.asDiagonal()]: column [j] of [A] scaled by [v[j]]. *)
Definition diag_mul_r (n : nat) (A v : list T) : list T :=
  tabulate n (fun i j => smul (coeff n A i j) (nth j v s0)).

Definition identity (n : nat) : list T :=
  tabulate n (fun i j => if Nat.eqb i j then s1 else s0).

(** [A * v]. *)
Definition mat_vec (n : nat) (A v : list T) : list T :=
  map (fun i => sum_n n (fun j => smul (coeff n A i j) (nth j v s0)))
      (seq 0 n).

Definition dot (n : nat) (u v : list T) : T :=
  sum_n n (fun i => smul (nth i u s0) (nth i v s0)).

(** The quadratic form [v^T * A * v]. *)
Definition qform (n : nat) (A v : list T) : T := dot n v (mat_vec n A v).

Definition det2 (a b c d : T) : T := ssub (smul a d) (smul b c).

Definition determinant (n : nat) (A : list T) : T :=
  match n, A with
  | 2%nat, [a; b; c; d] => det2 a b c d
  | 3%nat, [a; b; c; d; e; f; g; h; i] =>
      sadd (ssub (smul (det2 e f h i) a) (smul (det2 b c h i) d))
           (smul (det2 b c e f) g)
  | _, _ => s0
  end.

(** [A.inverse()] for the fixed sizes 2 and 3: the cofactors times the
    reciprocal of the determinant, the closed form the dense library
    uses for these sizes. *)
Definition inverse (n : nat) (A : list T) : list T :=
  match n, A with
  | 2%nat, [a; b; c; d] =>
      let invdet := sdiv s1 (det2 a b c d) in
      [ smul d invdet;        smul (sneg b) invdet;
        smul (sneg c) invdet; smul a invdet ]
  | 3%nat, [a; b; c; d; e; f; g; h; i] =>
      let m00 := det2 e f h i in
      let m10 := det2 b c h i in
      let m20 := det2 b c e f in
      let invdet :=
        sdiv s1 (sadd (ssub (smul m00 a) (smul m10 d)) (smul m20 g)) in
      [ smul m00 invdet;
        smul (sneg m10) invdet;
        smul m20 invdet;
        smul (sneg (det2 d f g i)) invdet;
        smul (det2 a c g i) invdet;
        smul (sneg (det2 a c d f)) invdet;
        smul (det2 d e g h) invdet;
        smul (sneg (det2 a b g h)) invdet;
        smul (det2 a b d e) invdet ]
  | _, _ => A
  end.

End Dense.

(** Modelled from the spec: the dense library's [isZero()] predicate, which
    is not part of the repository; the spec describes it as an exact
    equality-to-zero test on every coefficient, not an epsilon test. *)
Definition isZero (M : list real_t) : bool := forallb Real.is_zero M.

(** The order in which the linear index [M[i]] walks a dense matrix. *)
Inductive StorageOrder : Type := RowMajor | ColMajor.

(** The coefficients of [A] in linear-index order: [M[0], M[1], ...].  The
    same function turns a buffer written through the linear index into the
    matrix it denotes. *)
Definition to_storage {T} `{Scalar T} (order : StorageOrder) (n : nat)
  (A : list T) : list T :=
  match order with
  | RowMajor => A
  | ColMajor => transpose n A
  end.

(* ================================================================== *)
(** ** Outcomes of a call *)
(* ================================================================== *)

(** What the code writes to [std::cerr]:
    - [MetricTensorResized] is the line ["ERROR: MetricTensor resized"];
    - [UnsupportedDimension d] is
      ["ERROR: unsupported dimension: d (must be 2 or 3)"]. *)
Inductive diagnostic : Type :=
| MetricTensorResized
| UnsupportedDimension (d : Z).

(** A call returns a value, or ends the process with [exit(status)], or
    runs into undefined behaviour (an access outside a buffer, a null
    buffer).  The first two carry what was written to [std::cerr]. *)
Inductive outcome (A : Type) : Type :=
| Returns (a : A) (cerr : list diagnostic)
| Exits (status : Z) (cerr : list diagnostic)
| Undefined.

Arguments Exits {A} status cerr.
Arguments Undefined {A}.

Definition bind {A B} (c : outcome A) (k : A -> outcome B) : outcome B :=
  match c with
  | Returns a log =>
      match k a with
      | Returns b log' => Returns b (log ++ log')
      | Exits s log' => Exits s (log ++ log')
      | Undefined => Undefined
      end
  | Exits s log => Exits s log
  | Undefined => Undefined
  end.

Notation "x <- c ;; k" := (bind c (fun x => k))
  (at level 61, c at next level, right associativity).
Notation "' p <- c ;; k" := (bind c (fun x => let p := x in k))
  (at level 61, p pattern, c at next level, right associativity).

Definition ret {A} (a : A) : outcome A := Returns a [].

(** Reading [k] elements through a pointer. *)
Definition read_prefix {T} (k : nat) (buf : list T) : outcome (list T) :=
  if (length buf <? k)%nat then Undefined else ret (firstn k buf).

(** Writing the elements of [src] over the start of [buf]. *)
Definition write_prefix {T} (src buf : list T) : outcome (list T) :=
  if (length buf <? length src)%nat then Undefined
  else ret (src ++ skipn (length src) buf).

(** Reading [buf[i]]. *)
Definition read_at {T} (i : nat) (buf : list T) : outcome T :=
  match nth_error buf i with
  | Some x => ret x
  | None => Undefined
  end.

(* ================================================================== *)
(** ** Integer conversions *)
(* ================================================================== *)

Definition size_t_modulus : Z := 18446744073709551616.

(** [(size_t) dimension] for an [int]. *)
Definition size_t_of_int (z : Z) : Z := (z mod size_t_modulus)%Z.

(** The [int] a [size_t] converts to (32-bit two's complement). *)
Definition int_of_size_t (z : Z) : Z :=
  ((z + 2147483648) mod 4294967296 - 2147483648)%Z.

(** [_dimension * _dimension] in [size_t], as an element count. *)
Definition square_count (d : Z) : nat :=
  Z.to_nat ((d * d) mod size_t_modulus)%Z.

(* ================================================================== *)
(** ** The class [MetricTensor] *)
(* ================================================================== *)

(** The two private members.  [_metric = None] is the NULL pointer of a
    default-constructed object; [_dimension] is a [size_t]. *)
Record MetricTensor : Type := {
  _metric : option (list real_t);
  _dimension : Z
}.

(** [MetricTensor()]. *)
Definition default_MetricTensor : MetricTensor :=
  {| _metric := None; _dimension := 0 |}.

(** The buffer behind [_metric]; dereferencing NULL is undefined. *)
Definition buffer (self : MetricTensor) : outcome (list real_t) :=
  match _metric self with
  | Some buf => ret buf
  | None => Undefined
  end.

(** [((real_t) 1.0 max/min evalues[i])] over the whole vector. *)
Definition clamp (perserved_small_edges : bool) (evalues : list real_t)
  : list real_t :=
  if perserved_small_edges
  then map (fun e => Real.std_max (Fin 1) e) evalues
  else map (fun e => Real.std_min (Fin 1) e) evalues.

(** [min(evalues)/max(evalues)] as [constrain] writes it for 2 and for 3
    eigenvalues. *)
Definition aspect2 (evalues : list real_t) : real_t :=
  let e0 := nth 0 evalues (Fin 0) in
  let e1 := nth 1 evalues (Fin 0) in
  Real.div (Real.std_min e0 e1) (Real.std_max e0 e1).

Definition aspect3 (evalues : list real_t) : real_t :=
  let e0 := nth 0 evalues (Fin 0) in
  let e1 := nth 1 evalues (Fin 0) in
  let e2 := nth 2 evalues (Fin 0) in
  Real.div (Real.std_min (Real.std_min e0 e1) e2)
           (Real.std_max (Real.std_max e0 e1) e2).

(** The indices [i*d+j], [i <= j < d], in the order the NaN scan of
    [constrain] visits them. *)
Definition upper_indices (d : nat) : list nat :=
  flat_map (fun i => map (fun j => i * d + j)%nat (seq i (d - i))) (seq 0 d).

(** The scan itself: [true] when it meets a NaN. *)
Fixpoint nan_scan (idx : list nat) (M : list real_t) : outcome bool :=
  match idx with
  | [] => ret false
  | i :: rest =>
      x <- read_at i M ;;
      if Real.isnan x then ret true else nan_scan rest M
  end.

Section Code.

(** The order of the linear index of dense matrices. *)
Variable order : StorageOrder.

(** [EigenSolver n M] stands for [Eigen::EigenSolver] run on the [n x n]
    matrix [M]: the pair of [eigenvalues().real()] and
    [eigenvectors().real()]. *)
Variable EigenSolver : nat -> list real_t -> list real_t * list real_t.

(** [evectors * evalues.asDiagonal() * evectors.transpose()]. *)
Definition recompose (n : nat) (evectors evalues : list real_t)
  : list real_t :=
  mmul n (diag_mul_r n evectors evalues) (transpose n evectors).

(** [set(dimension, metric)], also the body of the two-argument
    constructor.  Both members of [self] are overwritten without being
    read: the buffer is always a new allocation. *)
Definition set (self : MetricTensor) (dimension : Z)
  (metric : list real_t) : outcome MetricTensor :=
  let d := size_t_of_int dimension in
  m <- read_prefix (square_count d) metric ;;
  ret {| _metric := Some m; _dimension := d |}.

(** [operator=]. *)
Definition assign (self metric : MetricTensor) : outcome MetricTensor :=
  let d := _dimension metric in
  let mine :=
    match _metric self with
    | Some buf => buf
    | None => repeat (Fin 0) (square_count d)
    end in
  src <- (if (square_count d =? 0)%nat then ret [] else
            b <- buffer metric ;; read_prefix (square_count d) b) ;;
  m <- write_prefix src mine ;;
  ret {| _metric := Some m; _dimension := d |}.

(** [get_metric(real_t *metric)]: the copy written to the caller's
    buffer. *)
Definition get_metric (self : MetricTensor) (out : list real_t)
  : outcome (list real_t) :=
  let n := square_count (_dimension self) in
  src <- (if (n =? 0)%nat then ret [] else
            b <- buffer self ;; read_prefix n b) ;;
  write_prefix src out.

(** [positive_definiteness(dimension, metric)]: the buffer after the
    call. *)
Definition positive_definiteness (dimension : Z) (metric : list real_t)
  : outcome (list real_t) :=
  if (dimension =? 2)%Z then
    match metric with
    | m0 :: m1 :: m2 :: m3 :: rest =>
        let M := [m0; m1; m2; m3] in
        if isZero M then ret metric
        else
          let solver := EigenSolver 2 M in
          let evalues := map Real.abs (fst solver) in
          let evectors := snd solver in
          let Mp := recompose 2 evectors evalues in
          ret (to_storage order 2 Mp ++ rest)
    | _ => Undefined
    end
  else
    match metric with
    | m0 :: m1 :: m2 :: m3 :: m4 :: m5 :: m6 :: m7 :: m8 :: rest =>
        let M := [m0; m1; m2; m3; m4; m5; m6; m7; m8] in
        if isZero M then ret metric
        else
          let solver := EigenSolver 3 M in
          let evalues := map Real.abs (fst solver) in
          let evectors := snd solver in
          let Mp := recompose 3 evectors evalues in
          ret (to_storage order 3 Mp ++ rest)
    | _ => Undefined
    end.

(** [positive_definiteness_iso(dimension, metric)]. *)
Definition positive_definiteness_iso (dimension : Z)
  (metric : list real_t) : outcome (list real_t) :=
  if (dimension =? 2)%Z then
    match metric with
    | m0 :: m1 :: m2 :: m3 :: rest =>
        let M := [m0; m1; m2; m3] in
        if isZero M then ret metric
        else
          let solver := EigenSolver 2 M in
          let evalues := map Real.abs (fst solver) in
          let e0 := Real.std_min (nth 0 evalues (Fin 0))
                                 (nth 1 evalues (Fin 0)) in
          let evalues := [e0; e0] in
          let evectors := snd solver in
          let Mp := recompose 2 evectors evalues in
          ret (to_storage order 2 Mp ++ rest)
    | _ => Undefined
    end
  else
    match metric with
    | m0 :: m1 :: m2 :: m3 :: m4 :: m5 :: m6 :: m7 :: m8 :: rest =>
        let M := [m0; m1; m2; m3; m4; m5; m6; m7; m8] in
        if isZero M then ret metric
        else
          let solver := EigenSolver 3 M in
          let evalues := map Real.abs (fst solver) in
          let evectors := snd solver in
          let Mp := recompose 3 evectors evalues in
          ret (to_storage order 3 Mp ++ rest)
    | _ => Undefined
    end.

(** [set_metric(dimension, metric)]. *)
Definition set_metric (self : MetricTensor) (dimension : Z)
  (metric : list real_t) : outcome MetricTensor :=
  '(d, mine) <-
    match _metric self with
    | None =>
        let d := size_t_of_int dimension in
        ret (d, repeat (Fin 0) (square_count d))
    | Some buf =>
        if negb (_dimension self =? size_t_of_int dimension)%Z
        then Exits (-1) [MetricTensorResized]
        else ret (_dimension self, buf)
    end ;;
  src <- read_prefix (square_count d) metric ;;
  m <- write_prefix src mine ;;
  m' <- positive_definiteness (int_of_size_t d) m ;;
  ret {| _metric := Some m'; _dimension := d |}.

(** [scale(scale_factor)]. *)
Definition scale (self : MetricTensor) (scale_factor : real_t)
  : outcome MetricTensor :=
  let n := square_count (_dimension self) in
  if (n =? 0)%nat then ret self else
  mine <- buffer self ;;
  src <- read_prefix n mine ;;
  m <- write_prefix (map (fun x => Real.mul x scale_factor) src) mine ;;
  ret {| _metric := Some m; _dimension := _dimension self |}.

(** [eigen_decomp(eigenvalues, eigenvectors)]: the two vectors after the
    call. *)
Definition eigen_decomp (self : MetricTensor)
  (eigenvalues eigenvectors : list real_t)
  : outcome (list real_t * list real_t) :=
  if (_dimension self =? 2)%Z then
    mine <- buffer self ;;
    M <- read_prefix 4 mine ;;
    if isZero M then
      D <- write_prefix (repeat (Fin 0) 2) eigenvalues ;;
      V <- write_prefix (repeat (Fin 0) 4) eigenvectors ;;
      ret (D, V)
    else
      let solver := EigenSolver 2 M in
      let evalues := map Real.abs (fst solver) in
      let evectors := snd solver in
      D <- write_prefix (firstn 2 evalues) eigenvalues ;;
      let Mp := transpose 2 evectors in
      V <- write_prefix (to_storage order 2 Mp) eigenvectors ;;
      ret (D, V)
  else if (_dimension self =? 3)%Z then
    mine <- buffer self ;;
    M <- read_prefix 9 mine ;;
    if isZero M then
      D <- write_prefix (repeat (Fin 0) 3) eigenvalues ;;
      V <- write_prefix (repeat (Fin 0) 9) eigenvectors ;;
      ret (D, V)
    else
      let solver := EigenSolver 3 M in
      let evalues := map Real.abs (fst solver) in
      let evectors := snd solver in
      D <- write_prefix (firstn 3 evalues) eigenvalues ;;
      let Mp := transpose 3 evectors in
      V <- write_prefix (to_storage order 3 Mp) eigenvectors ;;
      ret (D, V)
  else
    Returns (eigenvalues, eigenvectors)
            [UnsupportedDimension (_dimension self)].

(** [eigen_undecomp(D, V)]: the object after the call, and the returned
    [int]. *)
Definition eigen_undecomp (self : MetricTensor) (D V : list real_t)
  : outcome (MetricTensor * Z) :=
  let d := Z.to_nat (_dimension self) in
  if (d =? 0)%nat then ret (self, 0%Z) else
  Dd <- read_prefix d D ;;
  let eigenvalues := map Real.abs Dd in
  Vd <- read_prefix (d * d) V ;;
  mine <- buffer self ;;
  let entry i j :=
    fold_left
      (fun acc k =>
         Real.add acc
           (Real.mul (Real.mul (nth k eigenvalues (Fin 0))
                               (nth (k * d + i) Vd (Fin 0)))
                     (nth (k * d + j) Vd (Fin 0))))
      (seq 0 d) (Fin 0) in
  m <- write_prefix (tabulate d entry) mine ;;
  ret ({| _metric := Some m; _dimension := _dimension self |}, 0%Z).

(** The head shared by the three length queries:
    [std::vector<double> D(_dimension), V(_dimension*_dimension);
     eigen_decomp(D, V);] *)
Definition decomp_for_length (self : MetricTensor)
  : outcome (list real_t) :=
  let D := repeat (Fin 0) (Z.to_nat (_dimension self)) in
  let V := repeat (Fin 0) (square_count (_dimension self)) in
  '(D, _) <- eigen_decomp self D V ;;
  ret D.

(** [average_length()]. *)
Definition average_length (self : MetricTensor) : outcome real_t :=
  D <- decomp_for_length self ;;
  D0 <- read_at 0 D ;;
  let sum := fold_left Real.add (tl D) D0 in
  let average := Real.div sum (Fin (IZR (_dimension self))) in
  ret (Real.sqrt (Real.div (Fin 1) average)).

(** [max_length()]. *)
Definition max_length (self : MetricTensor) : outcome real_t :=
  D <- decomp_for_length self ;;
  D0 <- read_at 0 D ;;
  let min := fold_left Real.std_min (tl D) D0 in
  ret (Real.sqrt (Real.div (Fin 1) min)).

(** [min_length()]. *)
Definition min_length (self : MetricTensor) : outcome real_t :=
  D <- decomp_for_length self ;;
  D0 <- read_at 0 D ;;
  let max := fold_left Real.std_max (tl D) D0 in
  ret (Real.sqrt (Real.div (Fin 1) max)).

(** The first half of [constrain]: which of the two buffers is the
    reference [Mr] and which is mapped [Mi]; [None] is the early return
    on a zero argument. *)
Definition choose_reference (d : Z) (mine theirs : list real_t)
  : outcome (option (list real_t * list real_t)) :=
  if (d =? 2)%Z then
    M1 <- read_prefix 4 mine ;;
    let evalues1 := map Real.abs (fst (EigenSolver 2 M1)) in
    let aspect_r := aspect2 evalues1 in
    M2 <- read_prefix 4 theirs ;;
    if isZero M2 then ret None
    else
      let evalues2 := map Real.abs (fst (EigenSolver 2 M2)) in
      let aspect_i := aspect2 evalues2 in
      if Real.gtb aspect_i aspect_r
      then ret (Some (theirs, mine))
      else ret (Some (mine, theirs))
  else
    b1 <- read_prefix 9 mine ;;
    let M1 := to_storage order 3 b1 in
    let evalues1 := map Real.abs (fst (EigenSolver 3 M1)) in
    let aspect_r := aspect3 evalues1 in
    b2 <- read_prefix 9 theirs ;;
    let M2 := to_storage order 3 b2 in
    if isZero M2 then ret None
    else
      let evalues2 := map Real.abs (fst (EigenSolver 3 M2)) in
      let aspect_i := aspect3 evalues2 in
      if Real.gtb aspect_i aspect_r
      then ret (Some (theirs, mine))
      else ret (Some (mine, theirs)).

(** The matrix [Mc] that the second half of [constrain] computes from
    [M1] (built from [Mr]) and [M2] (built from [Mi]). *)
Definition superpose (n : nat) (perserved_small_edges : bool)
  (M1 M2 : list real_t) : list real_t :=
  let solver := EigenSolver n M1 in
  let F :=
    diag_mul_l n (map Real.sqrt (map Real.abs (fst solver))) (snd solver) in
  let M := mmul n (mmul n (transpose n (inverse n F)) M2) (inverse n F) in
  let solver2 := EigenSolver n M in
  let evalues := map Real.abs (fst solver2) in
  let evectors := snd solver2 in
  let evalues := clamp perserved_small_edges evalues in
  mmul n
    (mmul n (diag_mul_r n (mmul n (transpose n F) evectors) evalues)
            (transpose n evectors))
    F.

(** [constrain(M, perserved_small_edges)]. *)
Definition constrain (self : MetricTensor) (M : list real_t)
  (perserved_small_edges : bool) : outcome MetricTensor :=
  let d := _dimension self in
  found <- nan_scan (upper_indices (Z.to_nat d)) M ;;
  if found then ret self else
  metric <- set default_MetricTensor (int_of_size_t d) M ;;
  mine <- buffer self ;;
  theirs <- buffer metric ;;
  choice <- choose_reference d mine theirs ;;
  match choice with
  | None => ret self
  | Some (Mr, Mi) =>
      let n := if (d =? 2)%Z then 2%nat else 3%nat in
      M1 <- read_prefix (n * n) Mr ;;
      M2 <- read_prefix (n * n) Mi ;;
      let Mc := superpose n perserved_small_edges M1 M2 in
      src <- read_prefix (square_count d) (to_storage order n Mc) ;;
      m <- write_prefix src mine ;;
      ret {| _metric := Some m; _dimension := d |}
  end.

End Code.

(* ================================================================== *)
(** ** The stream operator *)
(* ================================================================== *)

(** What [operator<<] sends to the stream, one item per [<<]: a value,
    the separator [" "] or the end of line ["\n"]. *)
Inductive token : Type :=
| Value (x : real_t)
| Space
| Newline.

(** The inner loop: [j] times [out<<*g<<" "; g++], from the position [g]
    of the walking pointer.  It gives the items and the new position;
    reading past the buffer is undefined. *)
Fixpoint print_row (j : nat) (g : list real_t)
  : outcome (list token * list real_t) :=
  match j with
  | O => ret ([], g)
  | S j' =>
      match g with
      | [] => Undefined
      | x :: g' =>
          '(items, g'') <- print_row j' g' ;;
          ret (Value x :: Space :: items, g'')
      end
  end.

(** The outer loop: [i] rows of [d] values, each closed by ["\n"]. *)
Fixpoint print_rows (i d : nat) (g : list real_t) : outcome (list token) :=
  match i with
  | O => ret []
  | S i' =>
      '(row, g') <- print_row d g ;;
      rest <- print_rows i' d g' ;;
      ret (row ++ Newline :: rest)
  end.

(** [operator<<(out, in)]: the items appended to [out].  The pointer
    starts at [in._metric]; a null pointer has nothing behind it. *)
Definition stream_out (self : MetricTensor) : outcome (list token) :=
  let d := Z.to_nat (_dimension self) in
  let g := match _metric self with Some buf => buf | None => [] end in
  print_rows d d g.

(** The values among the items, in order. *)
Definition values_of (items : list token) : list real_t :=
  flat_map (fun t => match t with Value x => [x] | _ => [] end) items.

(** The number of lines ended. *)
Definition lines_of (items : list token) : nat :=
  length (filter (fun t => match t with Newline => true | _ => false end)
            items).

(** The layout expected of the stream operator: row [i] is the values
    [buf[i*d]], ..., [buf[i*d + d - 1]], each followed by a space, and
    then the end of line. *)
Definition printed_row (d : nat) (buf : list real_t) (i : nat)
  : list token :=
  flat_map (fun j => [Value (nth (i * d + j) buf (Fin 0)); Space]) (seq 0 d)
  ++ [Newline].

Definition printed_layout (d : nat) (buf : list real_t) : list token :=
  flat_map (printed_row d buf) (seq 0 d).

(* ================================================================== *)
(** ** A concrete eigensolver for the 2 x 2 case *)
(* ================================================================== *)

(** The closed form that a real Schur (QR) eigensolver takes on a 2 x 2
    block [[a, b], [c, d]] with real eigenvalues: with
    [p = (a - d)/2] and [z = p +- sqrt(p^2 + b*c)], the eigenvalues are
    [d + z] and [d - b*c/z], and the eigenvectors are the columns of the
    plane rotation [(z, c)/r], [(-c, z)/r].  A zero sub-diagonal entry
    deflates to the diagonal.  It instantiates the solver parameter in the
    concrete evaluations below. *)
Definition schur2 (M : list real_t) : list real_t * list real_t :=
  match M with
  | [a; b; c; d] =>
      if Real.is_zero c then ([a; d], [Fin 1; Fin 0; Fin 0; Fin 1])
      else
        let p := Real.div (Real.sub a d) (Fin 2) in
        let w := Real.mul c b in
        let q := Real.add (Real.mul p p) w in
        let z0 := Real.sqrt (Real.abs q) in
        let z := if Real.ltb p (Fin 0) then Real.sub p z0
                 else Real.add p z0 in
        let r := Real.sqrt (Real.add (Real.mul z z) (Real.mul c c)) in
        ([Real.add d z; Real.sub d (Real.div w z)],
         [Real.div z r; Real.neg (Real.div c r);
          Real.div c r; Real.div z r])
  | _ => (M, M)
  end.

(** The solver used in the examples: [schur2] on 2 x 2 input; on any other
    size the diagonal with the identity, which is an eigendecomposition of
    diagonal matrices only. *)
Definition example_solver (n : nat) (M : list real_t)
  : list real_t * list real_t :=
  if (n =? 2)%nat then schur2 M
  else (map (fun i => coeff n M i i) (seq 0 n), identity n).

(* ================================================================== *)
(** ** Finite matrices and the contract of the eigensolver *)
(* ================================================================== *)

(** The algebra of finite values is that of lists over [R]. *)

Definition symmetric (n : nat) (A : list R) : Prop := transpose n A = A.

Definition orthogonal (n : nat) (E : list R) : Prop :=
  mmul n (transpose n E) E = identity n
  /\ mmul n E (transpose n E) = identity n.

(** [L] and the columns of [E] are the eigenvalues and an orthonormal
    basis of eigenvectors of [A]: [A * E = E * diag(L)]. *)
Definition eigen_system (n : nat) (A L E : list R) : Prop :=
  length L = n /\ length E = (n * n)%nat
  /\ mmul n A E = diag_mul_r n E L
  /\ orthogonal n E.

(** The solver answers on the finite matrix [A] with the eigensystem
    [(L, E)]. *)
Definition solves
  (EigenSolver : nat -> list real_t -> list real_t * list real_t)
  (n : nat) (A L E : list R) : Prop :=
  EigenSolver n (map Fin A) = (map Fin L, map Fin E)
  /\ eigen_system n A L E.

Definition diagonal_matrix (n : nat) (entries : list R) : list R :=
  tabulate n (fun i j => if Nat.eqb i j then nth i entries 0 else 0).

(** [E * diag(l) * E^T], the matrix that [recompose] computes on finite
    values. *)
Definition spectral (n : nat) (E l : list R) : list R :=
  mmul n (diag_mul_r n E l) (transpose n E).

(** [clamp] on finite values. *)
Definition Rclamp (perserved_small_edges : bool) (l : list R) : list R :=
  if perserved_small_edges then map (Rmax 1) l else map (Rmin 1) l.

(** Eigenvector [k] as [eigen_decomp] lays it out in [V]: row [k] under a
    row-major linear index, column [k] under a column-major one. *)
Definition eigenvector_of (order : StorageOrder) (d : nat) (V : list R)
  (k : nat) : list R :=
  map (fun i => match order with
                | RowMajor => coeff d V k i
                | ColMajor => coeff d V i k
                end) (seq 0 d).

Definition positive_definite (n : nat) (A : list R) : Prop :=
  symmetric n A
  /\ forall v, length v = n -> 0 < dot n v v -> 0 < qform n A v.

Definition eigen_contract
  (EigenSolver : nat -> list real_t -> list real_t * list real_t)
  (n : nat) : Prop :=
  forall X, length X = (n * n)%nat -> symmetric n X ->
            exists L E, solves EigenSolver n X L E.

(** Column [k] of a matrix. *)
Definition column (n : nat) (E : list R) (k : nat) : list R :=
  map (fun i => coeff n E i k) (seq 0 n).

(** The matrix that [superpose] returns, from the factor [F] of the
    reference and the eigensystem [(L', W)] of the mapped tensor. *)
Definition superposed (n : nat) (p : bool) (F L' W : list R) : list R :=
  mmul n
    (mmul n
       (diag_mul_r n (mmul n (transpose n F) W) (Rclamp p (map Rabs L')))
       (transpose n W))
    F.

(** [aspect2] or [aspect3], by the dimension. *)
Definition aspect (d : nat) (evalues : list real_t) : real_t :=
  if (d =? 2)%nat then aspect2 evalues else aspect3 evalues.

(** Symmetric with a quadratic form that is nowhere negative. *)
Definition positive_semidefinite (n : nat) (A : list R) : Prop :=
  symmetric n A /\ forall v, length v = n -> 0 <= qform n A v.

(** The largest, the smallest and the sum of a non-empty list, folded as
    the length queries fold them. *)
Definition list_max (l : list R) : R := fold_left Rmax (tl l) (hd 0 l).
Definition list_min (l : list R) : R := fold_left Rmin (tl l) (hd 0 l).
Definition list_sum (l : list R) : R := fold_left Rplus (tl l) (hd 0 l).

(** Smallest over largest eigenvalue: the ratio [constrain] compares. *)
Definition aspect_ratio (L : list R) : R := list_min L / list_max L.

(** The sum of the diagonal. *)
Definition trace (n : nat) (A : list R) : R :=
  sum_n n (fun i => coeff n A i i).

(* ================================================================== *)
(** ** Deciding comparisons of reals *)
(* ================================================================== *)

Lemma Rltb_true (a b : R) : a < b -> Rltb a b = true.
Proof. intros Hab. unfold Rltb. destruct (Rlt_dec a b); [reflexivity | contradiction]. Qed.

Lemma Rltb_false (a b : R) : b <= a -> Rltb a b = false.
Proof. intros Hab. unfold Rltb. destruct (Rlt_dec a b); [lra | reflexivity]. Qed.

Lemma Reqb0_true (a : R) : a = 0 -> Reqb0 a = true.
Proof. intros Ha. unfold Reqb0. destruct (Req_dec_T a 0); [reflexivity | contradiction]. Qed.

Lemma Reqb0_false (a : R) : a <> 0 -> Reqb0 a = false.
Proof. intros Ha. unfold Reqb0. destruct (Req_dec_T a 0); [contradiction | reflexivity]. Qed.

Lemma sqrt_eq (x y : R) : 0 <= y -> y * y = x -> sqrt x = y.
Proof. intros Hy Hx. subst x. apply sqrt_square. exact Hy. Qed.

(** Rewrites every comparison between closed real expressions. *)
Ltac decide_R :=
  repeat match goal with
    | |- context [Rltb ?a ?b] =>
        first [ rewrite (@Rltb_true a b) by lra
              | rewrite (@Rltb_false a b) by lra ]
    | |- context [Reqb0 ?a] =>
        first [ rewrite (@Reqb0_true a) by lra
              | rewrite (@Reqb0_false a) by lra ]
    end.

Ltac close_R := solve [ lra | field; lra | nra ].

Lemma cons_eq {T} (a a' : T) (l l' : list T) :
  a = a' -> l = l' -> a :: l = a' :: l'.
Proof. intros -> ->. reflexivity. Qed.

(** One goal per entry of an equation between two lists. *)
Ltac entrywise :=
  repeat (apply cons_eq; [try apply (f_equal Fin) |]); try reflexivity.

(** Closes an equation between lists of finite values with closed
    entries. *)
Ltac fin_eq := repeat (f_equal; try close_R).

(** Names the entries of a list of known length. *)
Ltac explode l :=
  match goal with
  | H : length l = _ |- _ =>
      cbn in H;
      repeat (destruct l as [| ? l];
              [try discriminate H | cbn in H; try discriminate H]);
      clear H
  end.

Ltac explode_all :=
  repeat match goal with
    | H : length ?l = _ |- _ => is_var l; explode l
    end.

(** Splits on the dimension, names every matrix entry, and leaves one
    polynomial identity per coefficient. *)
Ltac by_entries :=
  match goal with
  | Hd : (?n = 2 \/ ?n = 3)%nat |- _ => destruct Hd; subst n
  end;
  explode_all; cbn; entrywise.

#[global] Opaque Rltb Reqb0.

(* ================================================================== *)
(** ** Finite values: from [real_t] to [R] *)
(* ================================================================== *)

(** On finite values the operations of [real_t] are those of [R], except
    where IEEE leaves the reals: division by zero and the square root of a
    negative number. *)

Lemma div_Fin (a b : R) : b <> 0 -> Real.div (Fin a) (Fin b) = Fin (a / b).
Proof. intros Hb. cbn. rewrite Reqb0_false by exact Hb. reflexivity. Qed.

Lemma sqrt_Fin (a : R) : 0 <= a -> Real.sqrt (Fin a) = Fin (sqrt a).
Proof. intros Ha. cbn. rewrite Rltb_false by exact Ha. reflexivity. Qed.

Lemma std_max_Fin (a b : R) :
  Real.std_max (Fin a) (Fin b) = Fin (Rmax a b).
Proof.
  unfold Real.std_max, Real.ltb, Rmax.
  destruct (Rle_dec a b) as [Hle | Hnle].
  - destruct (Rle_lt_or_eq_dec a b Hle) as [Hlt | Heq].
    + rewrite Rltb_true by exact Hlt. reflexivity.
    + rewrite Rltb_false by lra. f_equal. exact Heq.
  - rewrite Rltb_false by lra. reflexivity.
Qed.

Lemma std_min_Fin (a b : R) :
  Real.std_min (Fin a) (Fin b) = Fin (Rmin a b).
Proof.
  unfold Real.std_min, Real.ltb, Rmin.
  destruct (Rle_dec a b) as [Hle | Hnle].
  - rewrite Rltb_false by exact Hle. reflexivity.
  - rewrite Rltb_true by lra. reflexivity.
Qed.

Lemma map_abs_Fin (l : list R) :
  map Real.abs (map Fin l) = map Fin (map Rabs l).
Proof. rewrite !map_map. reflexivity. Qed.

Lemma map_sqrt_Fin (l : list R) :
  Forall (fun x => 0 <= x) l ->
  map Real.sqrt (map Fin l) = map Fin (map sqrt l).
Proof.
  induction 1 as [| x l Hx _ IH]; [reflexivity |].
  cbn [map]. rewrite sqrt_Fin by exact Hx. f_equal. exact IH.
Qed.

Lemma is_zero_Fin (a : R) : Real.is_zero (Fin a) = Reqb0 a.
Proof. reflexivity. Qed.

Lemma isZero_zeros (k : nat) : isZero (repeat (Fin 0) k) = true.
Proof.
  induction k as [| k IH]; [reflexivity |].
  cbn [repeat isZero forallb]. rewrite is_zero_Fin, Reqb0_true by reflexivity.
  exact IH.
Qed.

Lemma isZero_true (M : list real_t) :
  isZero M = true -> M = repeat (Fin 0) (length M).
Proof.
  induction M as [| x M IH]; [reflexivity |].
  cbn [isZero forallb length repeat]. intros H.
  apply andb_prop in H. destruct H as [Hx HM].
  f_equal; [| exact (IH HM)].
  destruct x as [a | | |]; try discriminate Hx.
  cbn in Hx. f_equal.
  destruct (Req_dec_T a 0) as [Ha | Ha]; [exact Ha |].
  rewrite Reqb0_false in Hx by exact Ha. discriminate Hx.
Qed.

Section Lifting.

Lemma nth_Fin (l : list R) (i : nat) :
  nth i (map Fin l) (Fin 0) = Fin (nth i l 0).
Proof. exact (map_nth Fin l 0 i). Qed.

Lemma coeff_Fin (n : nat) (A : list R) (i j : nat) :
  coeff n (map Fin A) i j = Fin (coeff n A i j).
Proof. unfold coeff. apply nth_Fin. Qed.

Lemma sum_n_Fin (n : nat) (f : nat -> R) :
  sum_n n (fun k => Fin (f k)) = Fin (sum_n n f).
Proof.
  destruct n as [| m]; [reflexivity |].
  unfold sum_n. generalize (f O) as acc. generalize (seq 1 m) as l.
  induction l as [| k l IH]; intros acc; [reflexivity |].
  cbn [fold_left]. exact (IH (acc + f k)).
Qed.

Lemma sum_n_ext {T} `{Scalar T} (n : nat) (f g : nat -> T) :
  (forall k, f k = g k) -> sum_n n f = sum_n n g.
Proof.
  intros Hfg. destruct n as [| m]; [reflexivity |].
  unfold sum_n. rewrite (Hfg O). generalize (g O) as acc.
  generalize (seq 1 m) as l.
  induction l as [| k l IH]; intros acc; [reflexivity |].
  cbn [fold_left]. rewrite (Hfg k). apply IH.
Qed.

Lemma tabulate_ext {T} `{Scalar T} (n : nat) (f g : nat -> nat -> T) :
  (forall i j, f i j = g i j) -> tabulate n f = tabulate n g.
Proof.
  intros Hfg. unfold tabulate. apply flat_map_ext. intros i.
  apply map_ext. intros j. apply Hfg.
Qed.

Lemma tabulate_Fin (n : nat) (f : nat -> nat -> R) :
  tabulate n (fun i j => Fin (f i j)) = map Fin (tabulate n f).
Proof.
  unfold tabulate.
  assert (Haux : forall rows cols : list nat,
    flat_map (fun i => map (fun j => Fin (f i j)) cols) rows =
    map Fin (flat_map (fun i => map (f i) cols) rows)).
  { intros rows cols. induction rows as [| i rows IH]; [reflexivity |].
    cbn [flat_map]. rewrite map_app, map_map. f_equal. exact IH. }
  apply Haux.
Qed.

Lemma mmul_Fin (n : nat) (A B : list R) :
  mmul n (map Fin A) (map Fin B) = map Fin (mmul n A B).
Proof.
  unfold mmul. rewrite <- tabulate_Fin. apply tabulate_ext. intros i j.
  rewrite <- sum_n_Fin. apply sum_n_ext. intros k.
  rewrite !coeff_Fin. reflexivity.
Qed.

Lemma transpose_Fin (n : nat) (A : list R) :
  transpose n (map Fin A) = map Fin (transpose n A).
Proof.
  unfold transpose. rewrite <- tabulate_Fin. apply tabulate_ext.
  intros i j. apply coeff_Fin.
Qed.

Lemma diag_mul_l_Fin (n : nat) (v A : list R) :
  diag_mul_l n (map Fin v) (map Fin A) = map Fin (diag_mul_l n v A).
Proof.
  unfold diag_mul_l. rewrite <- tabulate_Fin. apply tabulate_ext.
  intros i j. rewrite nth_Fin, coeff_Fin. reflexivity.
Qed.

Lemma diag_mul_r_Fin (n : nat) (A v : list R) :
  diag_mul_r n (map Fin A) (map Fin v) = map Fin (diag_mul_r n A v).
Proof.
  unfold diag_mul_r. rewrite <- tabulate_Fin. apply tabulate_ext.
  intros i j. rewrite nth_Fin, coeff_Fin. reflexivity.
Qed.

Lemma to_storage_Fin (order : StorageOrder) (n : nat) (A : list R) :
  to_storage order n (map Fin A) = map Fin (to_storage order n A).
Proof. destruct order; [reflexivity | apply transpose_Fin]. Qed.

Lemma inverse_Fin (n : nat) (A : list R) :
  determinant n A <> 0 ->
  inverse n (map Fin A) = map Fin (inverse n A).
Proof.
  intros Hdet.
  destruct n as [| [| [| [| n]]]]; try reflexivity.
  - destruct A as [| a [| b [| c [| d [| x A]]]]]; try reflexivity.
    cbn in Hdet. cbn [map inverse].
    unfold det2. cbn [ssub smul sdiv s1 sneg real_t_scalar R_scalar].
    cbn [Real.mul Real.sub Real.neg Real.add].
    rewrite div_Fin by (unfold det2 in Hdet; cbn in Hdet; lra).
    reflexivity.
  - destruct A as
      [| a [| b [| c [| d [| e [| f [| g [| h [| i [| x A]]]]]]]]]];
      try reflexivity.
    cbn in Hdet. cbn [map inverse].
    unfold det2. cbn [sadd ssub smul sdiv s1 sneg real_t_scalar R_scalar].
    cbn [Real.mul Real.sub Real.neg Real.add].
    rewrite div_Fin by (unfold det2 in Hdet; cbn in Hdet; lra).
    reflexivity.
Qed.

End Lifting.

(* ================================================================== *)
(** ** Laws of the outcome monad and of the buffer accesses *)
(* ================================================================== *)

Lemma bind_ret_l {A B} (a : A) (k : A -> outcome B) : bind (ret a) k = k a.
Proof. unfold bind, ret. destruct (k a); reflexivity. Qed.

Lemma bind_ret_r {A} (c : outcome A) : bind c ret = c.
Proof.
  destruct c as [a log | s log |]; cbn; try reflexivity.
  rewrite app_nil_r. reflexivity.
Qed.

Lemma bind_Returns_inv {A B} (c : outcome A) (k : A -> outcome B)
  (b : B) (log : list diagnostic) :
  bind c k = Returns b log ->
  exists a l1 l2, c = Returns a l1 /\ k a = Returns b l2 /\ log = l1 ++ l2.
Proof.
  destruct c as [a l1 | s l1 |]; cbn; try discriminate.
  destruct (k a) as [b' l2 | s l2 |] eqn:Hk; try discriminate.
  intros Heq. injection Heq as -> <-.
  exists a, l1, l2. repeat split. exact Hk.
Qed.

Lemma read_prefix_exact {T} (k : nat) (buf : list T) :
  length buf = k -> read_prefix k buf = ret buf.
Proof.
  intros <-. unfold read_prefix. rewrite Nat.ltb_irrefl, firstn_all.
  reflexivity.
Qed.

Lemma read_prefix_Returns {T} (k : nat) (buf src : list T)
  (log : list diagnostic) :
  read_prefix k buf = Returns src log ->
  src = firstn k buf /\ length src = k /\ log = [].
Proof.
  unfold read_prefix. destruct (Nat.ltb_spec (length buf) k) as [Hlt | Hge];
    [discriminate |].
  unfold ret. intros Heq. injection Heq as <- <-.
  repeat split. apply firstn_length_le. exact Hge.
Qed.

Lemma write_prefix_exact {T} (src buf : list T) :
  length src = length buf -> write_prefix src buf = ret src.
Proof.
  intros Hlen. unfold write_prefix.
  rewrite Hlen, Nat.ltb_irrefl, skipn_all, app_nil_r. reflexivity.
Qed.

Lemma write_prefix_Returns {T} (src buf m : list T)
  (log : list diagnostic) :
  write_prefix src buf = Returns m log ->
  m = src ++ skipn (length src) buf /\ length m = length buf /\ log = [].
Proof.
  unfold write_prefix.
  destruct (Nat.ltb_spec (length buf) (length src)) as [Hlt | Hge];
    [discriminate |].
  unfold ret. intros Heq. injection Heq as <- <-.
  repeat split. rewrite length_app, length_skipn. lia.
Qed.

Lemma square_count_2 : square_count 2 = 4%nat.
Proof. reflexivity. Qed.

Lemma square_count_3 : square_count 3 = 9%nat.
Proof. reflexivity. Qed.

Lemma size_t_of_int_small (z : Z) :
  (0 <= z < 2147483648)%Z -> size_t_of_int z = z.
Proof.
  intros Hz. unfold size_t_of_int, size_t_modulus.
  apply Z.mod_small. lia.
Qed.

Lemma int_of_size_t_small (z : Z) :
  (0 <= z < 2147483648)%Z -> int_of_size_t z = z.
Proof.
  intros Hz. unfold int_of_size_t.
  rewrite Z.mod_small by lia. lia.
Qed.

Lemma length_tabulate {T} `{Scalar T} (n : nat) (f : nat -> nat -> T) :
  length (tabulate n f) = (n * n)%nat.
Proof.
  unfold tabulate.
  assert (Haux : forall rows : list nat,
    length (flat_map (fun i => map (f i) (seq 0 n)) rows)
    = (length rows * n)%nat).
  { induction rows as [| i rows IH]; [reflexivity |].
    cbn [flat_map length]. rewrite length_app, length_map, length_seq, IH.
    lia. }
  rewrite Haux, length_seq. reflexivity.
Qed.

Lemma length_to_storage {T} `{Scalar T} (order : StorageOrder) (n : nat)
  (A : list T) :
  length A = (n * n)%nat -> length (to_storage order n A) = (n * n)%nat.
Proof.
  intros HA. destruct order; [exact HA | apply length_tabulate].
Qed.

Lemma Rmin_diag (x : R) : Rmin x x = x.
Proof. unfold Rmin. destruct (Rle_dec x x); reflexivity. Qed.

Lemma Rmax_diag (x : R) : Rmax x x = x.
Proof. unfold Rmax. destruct (Rle_dec x x); reflexivity. Qed.

(* ================================================================== *)
(** ** Length queries on the zero matrix *)
(* ================================================================== *)

Lemma eigen_decomp_zero (order : StorageOrder)
  (EigenSolver : nat -> list real_t -> list real_t * list real_t)
  (d : Z) :
  d = 2%Z \/ d = 3%Z ->
  eigen_decomp order EigenSolver
    {| _metric := Some (repeat (Fin 0) (square_count d)); _dimension := d |}
    (repeat (Fin 0) (Z.to_nat d)) (repeat (Fin 0) (square_count d))
  = ret (repeat (Fin 0) (Z.to_nat d), repeat (Fin 0) (square_count d)).
Proof.
  intros [-> | ->]; unfold eigen_decomp;
    cbn [_dimension _metric buffer Z.eqb Pos.eqb];
    rewrite bind_ret_l.
  - rewrite read_prefix_exact by reflexivity. rewrite bind_ret_l.
    rewrite isZero_zeros.
    rewrite !write_prefix_exact by reflexivity. rewrite !bind_ret_l.
    reflexivity.
  - rewrite read_prefix_exact by reflexivity. rewrite bind_ret_l.
    rewrite isZero_zeros.
    rewrite !write_prefix_exact by reflexivity. rewrite !bind_ret_l.
    reflexivity.
Qed.

Lemma one_over_zero : Real.sqrt (Real.div (Fin 1) (Fin 0)) = PInf.
Proof.
  cbn [Real.div]. rewrite Reqb0_true by reflexivity.
  unfold Real.signed_inf. rewrite Rltb_true by lra. reflexivity.
Qed.

(** C9.  For a stored zero matrix of dimension 2 or 3, [eigen_decomp]
    hands the three length queries an all-zero eigenvalue vector without
    calling the solver, and each query evaluates [sqrt(1/0)]: it returns
    [+inf], with nothing written to [std::cerr] and no failure. *)
Theorem zero_metric_lengths_are_infinite
  (order : StorageOrder)
  (EigenSolver : nat -> list real_t -> list real_t * list real_t)
  (d : Z) :
  d = 2%Z \/ d = 3%Z ->
  let self := {| _metric := Some (repeat (Fin 0) (square_count d));
                 _dimension := d |} in
  decomp_for_length order EigenSolver self
    = ret (repeat (Fin 0) (Z.to_nat d))
  /\ average_length order EigenSolver self = ret PInf
  /\ max_length order EigenSolver self = ret PInf
  /\ min_length order EigenSolver self = ret PInf.
Proof.
  intros Hd self.
  assert (HD : decomp_for_length order EigenSolver self
               = ret (repeat (Fin 0) (Z.to_nat d))).
  { unfold decomp_for_length, self. cbn [_dimension].
    rewrite (eigen_decomp_zero order EigenSolver Hd).
    rewrite bind_ret_l. reflexivity. }
  split; [exact HD |].
  unfold average_length, max_length, min_length. rewrite HD, !bind_ret_l.
  destruct Hd as [-> | ->];
    [ change (Z.to_nat 2) with 2%nat | change (Z.to_nat 3) with 3%nat ];
    cbn [repeat read_at nth_error tl fold_left _dimension self];
    rewrite !bind_ret_l.
  - repeat split.
    + cbn [Real.add]. rewrite div_Fin by lra.
      replace ((0 + 0) / 2) with 0 by lra. rewrite one_over_zero.
      reflexivity.
    + rewrite !std_min_Fin, !Rmin_diag, one_over_zero. reflexivity.
    + rewrite !std_max_Fin, !Rmax_diag, one_over_zero. reflexivity.
  - repeat split.
    + cbn [Real.add]. rewrite div_Fin by lra.
      replace ((0 + 0 + 0) / 3) with 0 by lra. rewrite one_over_zero.
      reflexivity.
    + rewrite !std_min_Fin, !Rmin_diag, one_over_zero. reflexivity.
    + rewrite !std_max_Fin, !Rmax_diag, one_over_zero. reflexivity.
Qed.

Lemma zero_metric_lengths_are_infinite_witness :
  let self := {| _metric := Some (repeat (Fin 0) (square_count 2));
                 _dimension := 2 |} in
  decomp_for_length ColMajor example_solver self
    = ret (repeat (Fin 0) (Z.to_nat 2))
  /\ average_length ColMajor example_solver self = ret PInf
  /\ max_length ColMajor example_solver self = ret PInf
  /\ min_length ColMajor example_solver self = ret PInf.
Proof.
  apply (@zero_metric_lengths_are_infinite ColMajor example_solver 2).
  left. reflexivity.
Defined.

(* ================================================================== *)
(** ** [constrain]: the NaN scan *)
(* ================================================================== *)

Lemma read_at_nth {T} (i : nat) (buf : list T) (d : T) :
  (i < length buf)%nat -> read_at i buf = ret (nth i buf d).
Proof.
  intros Hi. unfold read_at.
  rewrite (nth_error_nth' buf d Hi). reflexivity.
Qed.

Lemma nan_scan_finds (idx : list nat) (M : list real_t) :
  (forall k, In k idx -> (k < length M)%nat) ->
  (exists k, In k idx /\ Real.isnan (nth k M (Fin 0)) = true) ->
  nan_scan idx M = ret true.
Proof.
  induction idx as [| i idx IH]; intros Hbound (k & Hin & Hnan).
  - destruct Hin.
  - cbn [nan_scan].
    rewrite (@read_at_nth _ i M (Fin 0)) by (apply Hbound; left; reflexivity).
    rewrite bind_ret_l.
    destruct (Real.isnan (nth i M (Fin 0))) eqn:Hi; [reflexivity |].
    apply IH.
    + intros k' Hk'. apply Hbound. right. exact Hk'.
    + exists k. split; [| exact Hnan].
      destruct Hin as [-> | Hin]; [congruence | exact Hin].
Qed.

Lemma upper_indices_bound (d k : nat) :
  In k (upper_indices d) -> (k < d * d)%nat.
Proof.
  unfold upper_indices. rewrite in_flat_map.
  intros (i & Hi & Hk). rewrite in_map_iff in Hk.
  destruct Hk as (j & <- & Hj). rewrite in_seq in Hi, Hj. nia.
Qed.

Lemma upper_indices_In (d i j : nat) :
  (i <= j < d)%nat -> In (i * d + j)%nat (upper_indices d).
Proof.
  intros Hij. unfold upper_indices. rewrite in_flat_map.
  exists i. split; [rewrite in_seq; lia |].
  rewrite in_map_iff. exists j. split; [reflexivity | rewrite in_seq; lia].
Qed.

Lemma length_superpose EigenSolver n p M1 M2 :
  length (superpose EigenSolver n p M1 M2) = (n * n)%nat.
Proof. unfold superpose. unfold mmul at 1. apply length_tabulate. Qed.

(** [constrain] on a 2 x 2 object, past the NaN scan. *)
Lemma constrain_2 (order : StorageOrder)
  (EigenSolver : nat -> list real_t -> list real_t * list real_t)
  (a0 a1 a2 a3 b0 b1 b2 b3 : real_t) (p : bool) :
  Real.isnan b0 = false -> Real.isnan b1 = false -> Real.isnan b3 = false ->
  let A := [a0; a1; a2; a3] in
  let B := [b0; b1; b2; b3] in
  constrain order EigenSolver {| _metric := Some A; _dimension := 2 |} B p
  = if isZero B then ret {| _metric := Some A; _dimension := 2 |}
    else
      let '(Mr, Mi) :=
        if Real.gtb (aspect2 (map Real.abs (fst (EigenSolver 2%nat B))))
                    (aspect2 (map Real.abs (fst (EigenSolver 2%nat A))))
        then (B, A) else (A, B) in
      ret {| _metric :=
               Some (to_storage order 2 (superpose EigenSolver 2 p Mr Mi));
             _dimension := 2 |}.
Proof.
  intros H0 H1 H3 A B. unfold constrain.
  cbn [_dimension]. change (Z.to_nat 2) with 2%nat.
  change (upper_indices 2) with [0; 1; 3]%nat.
  unfold B at 1. cbn [nan_scan read_at nth_error].
  rewrite bind_ret_l, H0, bind_ret_l, H1, bind_ret_l, H3, bind_ret_l.
  change (int_of_size_t 2) with 2%Z.
  unfold set. change (size_t_of_int 2) with 2%Z. rewrite square_count_2.
  rewrite read_prefix_exact by reflexivity. rewrite !bind_ret_l.
  cbn [buffer _metric]. rewrite !bind_ret_l.
  unfold choose_reference. cbn [Z.eqb Pos.eqb].
  rewrite !read_prefix_exact by reflexivity. rewrite !bind_ret_l.
  destruct (isZero B) eqn:HB; [rewrite bind_ret_l; reflexivity |].
  destruct (Real.gtb _ _); rewrite bind_ret_l;
    rewrite !read_prefix_exact by reflexivity; rewrite !bind_ret_l;
    (rewrite read_prefix_exact
       by (apply length_to_storage, length_superpose));
    rewrite bind_ret_l;
    (rewrite write_prefix_exact
       by (rewrite length_to_storage by apply length_superpose;
           reflexivity));
    rewrite bind_ret_l; reflexivity.
Qed.

Lemma schur2_identity :
  schur2 [Fin 1; Fin 0; Fin 0; Fin 1]
  = ([Fin 1; Fin 1], [Fin 1; Fin 0; Fin 0; Fin 1]).
Proof. cbn. rewrite Reqb0_true by reflexivity. reflexivity. Qed.

Lemma schur2_lower_nan (a b d : R) :
  schur2 [Fin a; Fin b; NaN; Fin d] = ([NaN; NaN], [NaN; NaN; NaN; NaN]).
Proof.
  cbn. rewrite Reqb0_false by lra. cbn.
  destruct (Rltb _ _); reflexivity.
Qed.

Lemma schur2_all_nan :
  schur2 [NaN; NaN; NaN; NaN] = ([NaN; NaN], [NaN; NaN; NaN; NaN]).
Proof. reflexivity. Qed.

Lemma superpose_lower_nan :
  superpose example_solver 2 true
    [Fin 1; Fin 0; Fin 0; Fin 1] [Fin 1; Fin 0; NaN; Fin 1]
  = [NaN; NaN; NaN; NaN].
Proof.
  unfold superpose, example_solver. cbn [Nat.eqb].
  rewrite schur2_identity. cbn [fst snd map Real.abs].
  rewrite Rabs_R1. rewrite sqrt_Fin by lra. rewrite sqrt_1.
  replace (diag_mul_l 2 [Fin 1; Fin 1] [Fin 1; Fin 0; Fin 0; Fin 1])
    with [Fin 1; Fin 0; Fin 0; Fin 1] by (cbn; fin_eq).
  replace (inverse 2 [Fin 1; Fin 0; Fin 0; Fin 1])
    with [Fin 1; Fin 0; Fin 0; Fin 1].
  2:{ cbn. rewrite Reqb0_false by lra. cbn. fin_eq. }
  replace (transpose 2 [Fin 1; Fin 0; Fin 0; Fin 1])
    with [Fin 1; Fin 0; Fin 0; Fin 1] by reflexivity.
  replace (mmul 2 (mmul 2 [Fin 1; Fin 0; Fin 0; Fin 1]
                          [Fin 1; Fin 0; NaN; Fin 1])
                  [Fin 1; Fin 0; Fin 0; Fin 1])
    with [NaN; NaN; NaN; NaN] by reflexivity.
  rewrite schur2_all_nan. reflexivity.
Qed.

(** C8, as the code has it.  The scan at the head of [constrain] visits
    the entries [M[i*d+j]] with [i <= j < d] only: when one of these is
    NaN, [constrain] returns at once and the object is unchanged, in
    either mode. *)
Theorem constrain_nan_in_upper_triangle
  (order : StorageOrder)
  (EigenSolver : nat -> list real_t -> list real_t * list real_t)
  (self : MetricTensor) (M : list real_t) (perserved_small_edges : bool)
  (i j : nat) :
  let d := Z.to_nat (_dimension self) in
  (d * d <= length M)%nat ->
  (i <= j < d)%nat ->
  Real.isnan (nth (i * d + j) M (Fin 0)) = true ->
  constrain order EigenSolver self M perserved_small_edges = ret self.
Proof.
  intros d Hlen Hij Hnan. unfold constrain. fold d.
  rewrite nan_scan_finds.
  - rewrite bind_ret_l. reflexivity.
  - intros k Hk. apply upper_indices_bound in Hk. lia.
  - exists (i * d + j)%nat.
    split; [apply upper_indices_In; exact Hij | exact Hnan].
Qed.

Lemma constrain_nan_in_upper_triangle_witness :
  constrain ColMajor example_solver
    {| _metric := Some [Fin 1; Fin 0; Fin 0; Fin 1]; _dimension := 2 |}
    [Fin 1; NaN; Fin 0; Fin 1] false
  = ret {| _metric := Some [Fin 1; Fin 0; Fin 0; Fin 1]; _dimension := 2 |}.
Proof.
  apply (@constrain_nan_in_upper_triangle ColMajor example_solver
           {| _metric := Some [Fin 1; Fin 0; Fin 0; Fin 1];
              _dimension := 2 |}
           [Fin 1; NaN; Fin 0; Fin 1] false 0 1).
  - apply le_n.
  - split; [apply le_S, le_n | apply le_n].
  - reflexivity.
Defined.

(** C8, as stated, fails below the diagonal: with the NaN at [M[2]] (row
    1, column 0) of a 2 x 2 argument the scan passes, and [constrain]
    overwrites the object, here the identity, with NaN. *)
Lemma constrain_nan_below_diagonal_counterexample :
  Real.isnan (nth 2 [Fin 1; Fin 0; NaN; Fin 1] (Fin 0)) = true
  /\ constrain ColMajor example_solver
       {| _metric := Some [Fin 1; Fin 0; Fin 0; Fin 1]; _dimension := 2 |}
       [Fin 1; Fin 0; NaN; Fin 1] true
     = ret {| _metric := Some [NaN; NaN; NaN; NaN]; _dimension := 2 |}.
Proof.
  split; [reflexivity |].
  rewrite constrain_2 by reflexivity.
  replace (isZero [Fin 1; Fin 0; NaN; Fin 1]) with false
    by (cbn; rewrite Reqb0_false by lra; reflexivity).
  unfold example_solver at 1 2. cbn [Nat.eqb].
  rewrite schur2_lower_nan. cbn [fst map Real.abs].
  replace (aspect2 [NaN; NaN]) with NaN by reflexivity.
  replace (Real.gtb NaN (aspect2 (map Real.abs (fst (schur2 [Fin 1; Fin 0; Fin 0; Fin 1])))))
    with false by (unfold Real.gtb, Real.ltb; destruct (aspect2 _); reflexivity).
  rewrite superpose_lower_nan. reflexivity.
Qed.

(* ================================================================== *)
(** ** The stored dimension *)
(* ================================================================== *)

Lemma ret_Returns_inv {A} (a b : A) (log : list diagnostic) :
  ret a = Returns b log -> a = b /\ log = [].
Proof. unfold ret. intros H. injection H as -> <-. split; reflexivity. Qed.

Ltac inv_bind H :=
  let a := fresh "a" in
  let l1 := fresh "l" in
  let l2 := fresh "l" in
  let H1 := fresh "Hstep" in
  let Hl := fresh "Hlog" in
  apply bind_Returns_inv in H;
  destruct H as (a & l1 & l2 & H1 & H & Hl).

(** C7, as the code has it.  On an object whose buffer is allocated,
    [set_metric] with a dimension other than the stored one writes
    ["ERROR: MetricTensor resized"] and calls [exit(-1)]; and whenever
    [set_metric], [scale], [constrain] or [eigen_undecomp] return, the
    stored dimension is the one before the call. *)
Theorem set_metric_locks_dimension
  (order : StorageOrder)
  (EigenSolver : nat -> list real_t -> list real_t * list real_t)
  (self : MetricTensor) (buf : list real_t) :
  _metric self = Some buf ->
  (forall dimension metric,
      _dimension self <> size_t_of_int dimension ->
      set_metric order EigenSolver self dimension metric
      = Exits (-1) [MetricTensorResized])
  /\ (forall dimension metric self' log,
      set_metric order EigenSolver self dimension metric = Returns self' log ->
      _dimension self' = _dimension self)
  /\ (forall scale_factor self' log,
      scale self scale_factor = Returns self' log ->
      _dimension self' = _dimension self)
  /\ (forall M p self' log,
      constrain order EigenSolver self M p = Returns self' log ->
      _dimension self' = _dimension self)
  /\ (forall D V self' r log,
      eigen_undecomp self D V = Returns (self', r) log ->
      _dimension self' = _dimension self).
Proof.
  intros Hbuf. repeat split.
  - intros dimension metric Hd. unfold set_metric. rewrite Hbuf.
    apply Z.eqb_neq in Hd. rewrite Hd. reflexivity.
  - intros dimension metric self' log H. unfold set_metric in H.
    rewrite Hbuf in H.
    destruct (_dimension self =? size_t_of_int dimension)%Z; cbn [negb] in H;
      [| discriminate H].
    rewrite bind_ret_l in H. cbn beta iota in H.
    inv_bind H. inv_bind H. inv_bind H.
    apply ret_Returns_inv in H. destruct H as [<- _]. reflexivity.
  - intros s self' log H. unfold scale in H.
    destruct (square_count (_dimension self) =? 0)%nat.
    + apply ret_Returns_inv in H. destruct H as [<- _]. reflexivity.
    + inv_bind H. inv_bind H. inv_bind H.
      apply ret_Returns_inv in H. destruct H as [<- _]. reflexivity.
  - intros M p self' log H. unfold constrain in H.
    inv_bind H.
    match type of H with (if ?found then _ else _) = _ =>
      destruct found end.
    + apply ret_Returns_inv in H. destruct H as [<- _]. reflexivity.
    + inv_bind H. inv_bind H. inv_bind H. inv_bind H.
      match type of H with match ?choice with _ => _ end = _ =>
        destruct choice as [[Mr Mi] |] end.
      * inv_bind H. inv_bind H. inv_bind H. inv_bind H.
        apply ret_Returns_inv in H. destruct H as [<- _]. reflexivity.
      * apply ret_Returns_inv in H. destruct H as [<- _]. reflexivity.
  - intros D V self' r log H. unfold eigen_undecomp in H.
    destruct (Z.to_nat (_dimension self) =? 0)%nat.
    + apply ret_Returns_inv in H. destruct H as [H _]. injection H as <- _.
      reflexivity.
    + inv_bind H. inv_bind H. inv_bind H. inv_bind H.
      apply ret_Returns_inv in H. destruct H as [H _]. injection H as <- _.
      reflexivity.
Qed.

Lemma set_metric_locks_dimension_witness :
  let self := {| _metric := Some [Fin 1; Fin 0; Fin 0; Fin 1];
                 _dimension := 2 |} in
  (forall dimension metric,
      _dimension self <> size_t_of_int dimension ->
      set_metric ColMajor example_solver self dimension metric
      = Exits (-1) [MetricTensorResized])
  /\ (forall dimension metric self' log,
      set_metric ColMajor example_solver self dimension metric
        = Returns self' log ->
      _dimension self' = _dimension self)
  /\ (forall scale_factor self' log,
      scale self scale_factor = Returns self' log ->
      _dimension self' = _dimension self)
  /\ (forall M p self' log,
      constrain ColMajor example_solver self M p = Returns self' log ->
      _dimension self' = _dimension self)
  /\ (forall D V self' r log,
      eigen_undecomp self D V = Returns (self', r) log ->
      _dimension self' = _dimension self).
Proof.
  exact (@set_metric_locks_dimension ColMajor example_solver
           {| _metric := Some [Fin 1; Fin 0; Fin 0; Fin 1];
              _dimension := 2 |}
           [Fin 1; Fin 0; Fin 0; Fin 1] eq_refl).
Defined.

(** C7, as stated, fails for [set], which is public and assigns
    [_dimension] without looking at the old value: on an object of
    dimension 2, [set(3, ...)] returns normally and leaves dimension 3.
    [operator=] has no check either: assigning a 3 x 3 object stores
    dimension 3 and copies nine entries into the four-entry buffer. *)
Lemma set_changes_dimension_counterexample :
  let self := {| _metric := Some [Fin 1; Fin 0; Fin 0; Fin 1];
                 _dimension := 2 |} in
  let other := {| _metric := Some (repeat (Fin 0) 9); _dimension := 3 |} in
  _dimension self = 2%Z
  /\ set self 3 (repeat (Fin 0) 9) = ret other
  /\ _dimension other = 3%Z
  /\ assign self other = Undefined.
Proof.
  cbv zeta. repeat split.
Qed.

(* ================================================================== *)
(** ** Algebra of 2 x 2 and 3 x 3 matrices *)
(* ================================================================== *)

Lemma Rmax_lub_iff (a b c : R) : Rmax a b <= c <-> a <= c /\ b <= c.
Proof. unfold Rmax. destruct (Rle_dec a b); lra. Qed.

Lemma Rmin_glb_iff (a b c : R) : c <= Rmin a b <-> c <= a /\ c <= b.
Proof. unfold Rmin. destruct (Rle_dec a b); lra. Qed.

(** A value [l] with [a*x = x*l], [b*y = y*l] (, [c*z = z*l]) for a unit
    vector is the mean of [a], [b] (, [c]) weighted by the squares. *)
Lemma weighted_mean_2 (l a b x y : R) :
  a * x = x * l -> b * y = y * l -> x * x + y * y = 1 ->
  l = a * (x * x) + b * (y * y).
Proof.
  intros Hx Hy Hn. transitivity (l * (x * x + y * y)); [rewrite Hn; ring |].
  transitivity (x * (x * l) + y * (y * l)); [ring |].
  rewrite <- Hx, <- Hy. ring.
Qed.

Lemma weighted_mean_3 (l a b c x y z : R) :
  a * x = x * l -> b * y = y * l -> c * z = z * l ->
  x * x + y * y + z * z = 1 ->
  l = a * (x * x) + b * (y * y) + c * (z * z).
Proof.
  intros Hx Hy Hz Hn.
  transitivity (l * (x * x + y * y + z * z)); [rewrite Hn; ring |].
  transitivity (x * (x * l) + y * (y * l) + z * (z * l)); [ring |].
  rewrite <- Hx, <- Hy, <- Hz. ring.
Qed.

Lemma mean_bounds_2 (v a b s t lo hi : R) :
  v = a * s + b * t -> s + t = 1 -> 0 <= s -> 0 <= t ->
  lo <= a -> lo <= b -> a <= hi -> b <= hi -> lo <= v <= hi.
Proof. intros -> Hst Hs Ht. intros. split; nra. Qed.

Lemma mean_bounds_3 (v a b c s t u lo hi : R) :
  v = a * s + b * t + c * u -> s + t + u = 1 ->
  0 <= s -> 0 <= t -> 0 <= u ->
  lo <= a -> lo <= b -> lo <= c -> a <= hi -> b <= hi -> c <= hi ->
  lo <= v <= hi.
Proof. intros -> Hst Hs Ht Hu. intros. split; nra. Qed.

Lemma sqr_nonneg (x : R) : 0 <= x * x.
Proof. nra. Qed.

Lemma eigen_diagonal_2 (a b l0 l1 : R) (E : list R) :
  0 < a -> 0 < b ->
  eigen_system 2 (diagonal_matrix 2 [a; b]) [l0; l1] E ->
  0 < l0 /\ 0 < l1
  /\ Rmax l0 l1 = Rmax a b
  /\ Rmin l0 l1 = Rmin a b
  /\ l0 + l1 = a + b.
Proof.
  intros Ha Hb (_ & HE & Heq & Hort1 & Hort2).
  explode E. cbn in Heq, Hort1, Hort2.
  injection Heq as E1 E2 E3 E4.
  injection Hort1 as C1 C2 C3 C4.
  injection Hort2 as R1 R2 R3 R4.
  rename r into e00, r0 into e01, r1 into e10, r2 into e11.
  assert (L0 : l0 = a * (e00 * e00) + b * (e10 * e10))
    by (apply weighted_mean_2; lra).
  assert (L1 : l1 = a * (e01 * e01) + b * (e11 * e11))
    by (apply weighted_mean_2; lra).
  assert (A0 : a = l0 * (e00 * e00) + l1 * (e01 * e01)).
  { symmetry. transitivity (e00 * (e00 * l0) + e01 * (e01 * l1)); [ring |].
    rewrite <- E1, <- E2. transitivity (a * (e00 * e00 + e01 * e01)); [ring |].
    rewrite R1. ring. }
  assert (B0 : b = l0 * (e10 * e10) + l1 * (e11 * e11)).
  { symmetry. transitivity (e10 * (e10 * l0) + e11 * (e11 * l1)); [ring |].
    rewrite <- E3, <- E4. transitivity (b * (e10 * e10 + e11 * e11)); [ring |].
    rewrite R4. ring. }
  pose proof (sqr_nonneg e00) as S00. pose proof (sqr_nonneg e01) as S01.
  pose proof (sqr_nonneg e10) as S10. pose proof (sqr_nonneg e11) as S11.
  pose proof (Rmax_l a b) as Ma. pose proof (Rmax_r a b) as Mb.
  pose proof (Rmin_l a b) as ma. pose proof (Rmin_r a b) as mb.
  pose proof (Rmax_l l0 l1) as Ml0. pose proof (Rmax_r l0 l1) as Ml1.
  pose proof (Rmin_l l0 l1) as ml0. pose proof (Rmin_r l0 l1) as ml1.
  destruct (mean_bounds_2 (lo := Rmin a b) (hi := Rmax a b) L0 C1 S00 S10)
    as [Lo0 Hi0]; try assumption.
  destruct (mean_bounds_2 (lo := Rmin a b) (hi := Rmax a b) L1 C4 S01 S11)
    as [Lo1 Hi1]; try assumption.
  destruct (mean_bounds_2 (lo := Rmin l0 l1) (hi := Rmax l0 l1) A0 R1 S00 S01)
    as [LoA HiA]; try assumption.
  destruct (mean_bounds_2 (lo := Rmin l0 l1) (hi := Rmax l0 l1) B0 R4 S10 S11)
    as [LoB HiB]; try assumption.
  assert (Hmin_pos : 0 < Rmin a b) by (apply Rmin_glb_lt; assumption).
  repeat split; try lra.
  - apply Rle_antisym; [apply Rmax_lub_iff | apply Rmax_lub_iff]; split; lra.
  - apply Rle_antisym; [apply Rmin_glb_iff | apply Rmin_glb_iff]; split; lra.
  - rewrite L0, L1. transitivity (a * (e00*e00 + e01*e01) + b * (e10*e10 + e11*e11)); [ring |].
    rewrite R1, R4. ring.
Qed.

Lemma eigen_diagonal_3 (a b c l0 l1 l2 : R) (E : list R) :
  0 < a -> 0 < b -> 0 < c ->
  eigen_system 3 (diagonal_matrix 3 [a; b; c]) [l0; l1; l2] E ->
  0 < l0 /\ 0 < l1 /\ 0 < l2
  /\ Rmax (Rmax l0 l1) l2 = Rmax (Rmax a b) c
  /\ Rmin (Rmin l0 l1) l2 = Rmin (Rmin a b) c
  /\ l0 + l1 + l2 = a + b + c.
Proof.
  intros Ha Hb Hc (_ & HE & Heq & Hort1 & Hort2).
  explode E. cbn in Heq, Hort1, Hort2.
  injection Heq as E1 E2 E3 E4 E5 E6 E7 E8 E9.
  injection Hort1 as C1 C2 C3 C4 C5 C6 C7 C8 C9.
  injection Hort2 as R1 R2 R3 R4 R5 R6 R7 R8 R9.
  rename r into e00, r0 into e01, r1 into e02,
         r2 into e10, r3 into e11, r4 into e12,
         r5 into e20, r6 into e21, r7 into e22.
  assert (L0 : l0 = a * (e00 * e00) + b * (e10 * e10) + c * (e20 * e20))
    by (apply weighted_mean_3; lra).
  assert (L1 : l1 = a * (e01 * e01) + b * (e11 * e11) + c * (e21 * e21))
    by (apply weighted_mean_3; lra).
  assert (L2 : l2 = a * (e02 * e02) + b * (e12 * e12) + c * (e22 * e22))
    by (apply weighted_mean_3; lra).
  assert (A0 : a = l0 * (e00 * e00) + l1 * (e01 * e01) + l2 * (e02 * e02)).
  { symmetry.
    transitivity (e00 * (e00 * l0) + e01 * (e01 * l1) + e02 * (e02 * l2));
      [ring |].
    rewrite <- E1, <- E2, <- E3.
    transitivity (a * (e00 * e00 + e01 * e01 + e02 * e02)); [ring |].
    rewrite R1. ring. }
  assert (B0 : b = l0 * (e10 * e10) + l1 * (e11 * e11) + l2 * (e12 * e12)).
  { symmetry.
    transitivity (e10 * (e10 * l0) + e11 * (e11 * l1) + e12 * (e12 * l2));
      [ring |].
    rewrite <- E4, <- E5, <- E6.
    transitivity (b * (e10 * e10 + e11 * e11 + e12 * e12)); [ring |].
    rewrite R5. ring. }
  assert (C0 : c = l0 * (e20 * e20) + l1 * (e21 * e21) + l2 * (e22 * e22)).
  { symmetry.
    transitivity (e20 * (e20 * l0) + e21 * (e21 * l1) + e22 * (e22 * l2));
      [ring |].
    rewrite <- E7, <- E8, <- E9.
    transitivity (c * (e20 * e20 + e21 * e21 + e22 * e22)); [ring |].
    rewrite R9. ring. }
  pose proof (sqr_nonneg e00) as S00. pose proof (sqr_nonneg e01) as S01.
  pose proof (sqr_nonneg e02) as S02. pose proof (sqr_nonneg e10) as S10.
  pose proof (sqr_nonneg e11) as S11. pose proof (sqr_nonneg e12) as S12.
  pose proof (sqr_nonneg e20) as S20. pose proof (sqr_nonneg e21) as S21.
  pose proof (sqr_nonneg e22) as S22.
  set (hi := Rmax (Rmax a b) c). set (lo := Rmin (Rmin a b) c).
  set (hi' := Rmax (Rmax l0 l1) l2). set (lo' := Rmin (Rmin l0 l1) l2).
  assert (Hhi : a <= hi /\ b <= hi /\ c <= hi).
  { unfold hi. pose proof (Rmax_l (Rmax a b) c). pose proof (Rmax_r (Rmax a b) c).
    pose proof (Rmax_l a b). pose proof (Rmax_r a b). lra. }
  assert (Hlo : lo <= a /\ lo <= b /\ lo <= c).
  { unfold lo. pose proof (Rmin_l (Rmin a b) c). pose proof (Rmin_r (Rmin a b) c).
    pose proof (Rmin_l a b). pose proof (Rmin_r a b). lra. }
  assert (Hhi' : l0 <= hi' /\ l1 <= hi' /\ l2 <= hi').
  { unfold hi'. pose proof (Rmax_l (Rmax l0 l1) l2).
    pose proof (Rmax_r (Rmax l0 l1) l2).
    pose proof (Rmax_l l0 l1). pose proof (Rmax_r l0 l1). lra. }
  assert (Hlo' : lo' <= l0 /\ lo' <= l1 /\ lo' <= l2).
  { unfold lo'. pose proof (Rmin_l (Rmin l0 l1) l2).
    pose proof (Rmin_r (Rmin l0 l1) l2).
    pose proof (Rmin_l l0 l1). pose proof (Rmin_r l0 l1). lra. }
  destruct Hhi as (? & ? & ?), Hlo as (? & ? & ?),
           Hhi' as (? & ? & ?), Hlo' as (? & ? & ?).
  destruct (mean_bounds_3 (lo := lo) (hi := hi) L0 C1 S00 S10 S20)
    as [Lo0 Hi0]; try assumption.
  destruct (mean_bounds_3 (lo := lo) (hi := hi) L1 C5 S01 S11 S21)
    as [Lo1 Hi1]; try assumption.
  destruct (mean_bounds_3 (lo := lo) (hi := hi) L2 C9 S02 S12 S22)
    as [Lo2 Hi2]; try assumption.
  destruct (mean_bounds_3 (lo := lo') (hi := hi') A0 R1 S00 S01 S02)
    as [LoA HiA]; try assumption.
  destruct (mean_bounds_3 (lo := lo') (hi := hi') B0 R5 S10 S11 S12)
    as [LoB HiB]; try assumption.
  destruct (mean_bounds_3 (lo := lo') (hi := hi') C0 R9 S20 S21 S22)
    as [LoC HiC]; try assumption.
  assert (Hlo_pos : 0 < lo).
  { unfold lo. apply Rmin_glb_lt; [apply Rmin_glb_lt |]; assumption. }
  repeat split; try lra.
  - apply Rle_antisym.
    + unfold hi'. apply Rmax_lub_iff. split; [apply Rmax_lub_iff; split |]; lra.
    + unfold hi. apply Rmax_lub_iff. split; [apply Rmax_lub_iff; split |]; lra.
  - apply Rle_antisym.
    + unfold lo. apply Rmin_glb_iff. split; [apply Rmin_glb_iff; split |]; lra.
    + unfold lo'. apply Rmin_glb_iff. split; [apply Rmin_glb_iff; split |]; lra.
  - rewrite L0, L1, L2.
    transitivity (a * (e00*e00 + e01*e01 + e02*e02)
                  + b * (e10*e10 + e11*e11 + e12*e12)
                  + c * (e20*e20 + e21*e21 + e22*e22)); [ring |].
    rewrite R1, R5, R9. ring.
Qed.

Lemma length_transpose {T} `{Scalar T} (n : nat) (A : list T) :
  length (transpose n A) = (n * n)%nat.
Proof. apply length_tabulate. Qed.

Lemma mmul_assoc (n : nat) (A B C : list R) :
  (n = 2 \/ n = 3)%nat ->
  length A = (n * n)%nat -> length B = (n * n)%nat -> length C = (n * n)%nat ->
  mmul n (mmul n A B) C = mmul n A (mmul n B C).
Proof. intros Hd HA HB HC. by_entries; ring. Qed.

Lemma transpose_mmul (n : nat) (A B : list R) :
  (n = 2 \/ n = 3)%nat ->
  length A = (n * n)%nat -> length B = (n * n)%nat ->
  transpose n (mmul n A B) = mmul n (transpose n B) (transpose n A).
Proof. intros Hd HA HB. by_entries; ring. Qed.

Lemma transpose_involutive (n : nat) (A : list R) :
  (n = 2 \/ n = 3)%nat -> length A = (n * n)%nat ->
  transpose n (transpose n A) = A.
Proof. intros Hd HA. by_entries; reflexivity. Qed.

Lemma mmul_identity_r (n : nat) (A : list R) :
  (n = 2 \/ n = 3)%nat -> length A = (n * n)%nat ->
  mmul n A (identity n) = A.
Proof. intros Hd HA. by_entries; ring. Qed.

Lemma mmul_identity_l (n : nat) (A : list R) :
  (n = 2 \/ n = 3)%nat -> length A = (n * n)%nat ->
  mmul n (identity n) A = A.
Proof. intros Hd HA. by_entries; ring. Qed.

Lemma recompose_Fin (n : nat) (E l : list R) :
  recompose n (map Fin E) (map Fin l) = map Fin (spectral n E l).
Proof.
  unfold recompose, spectral.
  rewrite diag_mul_r_Fin, transpose_Fin, mmul_Fin. reflexivity.
Qed.

Lemma length_spectral (n : nat) (E l : list R) :
  length (spectral n E l) = (n * n)%nat.
Proof. apply length_tabulate. Qed.

Lemma spectral_symmetric (n : nat) (E l : list R) :
  (n = 2 \/ n = 3)%nat -> length E = (n * n)%nat -> length l = n ->
  symmetric n (spectral n E l).
Proof. intros Hd HE Hl. unfold symmetric, spectral. by_entries; ring. Qed.

(** [v^T (E diag(l) E^T) v] is the sum of the [l_k (E^T v)_k^2]. *)
Lemma qform_spectral (n : nat) (E l v : list R) :
  (n = 2 \/ n = 3)%nat ->
  length E = (n * n)%nat -> length l = n -> length v = n ->
  qform n (spectral n E l) v
  = sum_n n (fun k => nth k l 0
                      * (nth k (mat_vec n (transpose n E) v) 0
                         * nth k (mat_vec n (transpose n E) v) 0)).
Proof.
  intros Hd HE Hl Hv. unfold spectral.
  destruct Hd; subst n; explode_all; cbn; ring.
Qed.

Lemma weighted_squares_nonneg (n : nat) (l y : list R) :
  (n = 2 \/ n = 3)%nat -> length l = n ->
  Forall (fun x => 0 <= x) l ->
  0 <= sum_n n (fun k => nth k l 0 * (nth k y 0 * nth k y 0)).
Proof.
  intros Hd Hl Hpos.
  destruct Hd; subst n; explode_all; cbn;
    repeat match goal with
      | H : Forall _ (_ :: _) |- _ => inversion H; subst; clear H
      end;
    repeat apply Rplus_le_le_0_compat;
    apply Rmult_le_pos; try assumption; apply sqr_nonneg.
Qed.

Lemma Forall_Rabs (l : list R) : Forall (fun x => 0 <= x) (map Rabs l).
Proof.
  induction l as [| x l IH]; constructor; [apply Rabs_pos | exact IH].
Qed.

Lemma qform_eigenvector (n : nat) (P v : list R) (mu : R) :
  (n = 2 \/ n = 3)%nat -> length v = n ->
  mat_vec n P v = map (Rmult mu) v ->
  qform n P v = mu * dot n v v.
Proof.
  intros Hd Hv Hev. unfold qform. rewrite Hev.
  destruct Hd; subst n; explode_all; cbn; ring.
Qed.

Lemma to_storage_symmetric (order : StorageOrder) (n : nat) (P : list R) :
  symmetric n P -> to_storage order n P = P.
Proof. intros HP. destruct order; [reflexivity | exact HP]. Qed.

Lemma spectral_eigen (n : nat) (E l : list R) :
  (n = 2 \/ n = 3)%nat -> length E = (n * n)%nat -> length l = n ->
  mmul n (transpose n E) E = identity n ->
  mmul n (spectral n E l) E = diag_mul_r n E l.
Proof.
  intros Hd HE Hl Hort. unfold spectral.
  rewrite mmul_assoc; try assumption;
    try apply length_tabulate.
  rewrite Hort. apply mmul_identity_r; [assumption | apply length_tabulate].
Qed.

(* ================================================================== *)
(** ** [eigen_decomp] and the length queries on finite matrices *)
(* ================================================================== *)

(** [eigen_decomp] on a finite, non-zero stored matrix. *)
Lemma eigen_decomp_finite (order : StorageOrder)
  (EigenSolver : nat -> list real_t -> list real_t * list real_t)
  (d : nat) (A L E : list R) (D0 V0 : list real_t) :
  (d = 2 \/ d = 3)%nat ->
  length A = (d * d)%nat ->
  isZero (map Fin A) = false ->
  EigenSolver d (map Fin A) = (map Fin L, map Fin E) ->
  length L = d ->
  length D0 = d -> length V0 = (d * d)%nat ->
  eigen_decomp order EigenSolver
    {| _metric := Some (map Fin A); _dimension := Z.of_nat d |} D0 V0
  = ret (map Fin (map Rabs L),
         map Fin (to_storage order d (transpose d E))).
Proof.
  intros Hd HA Hnz Hsolve HL HD0 HV0. unfold eigen_decomp.
  cbn [_dimension _metric buffer].
  destruct Hd as [-> | ->]; cbn [Z.of_nat Pos.of_succ_nat Pos.succ Z.eqb Pos.eqb];
    rewrite bind_ret_l;
    (rewrite read_prefix_exact by (rewrite length_map; exact HA));
    rewrite bind_ret_l, Hnz, Hsolve; cbn [fst snd];
    rewrite map_abs_Fin, firstn_all2 by (rewrite !length_map, HL; apply le_n);
    (rewrite write_prefix_exact by (rewrite !length_map, HL, HD0; reflexivity));
    rewrite bind_ret_l, transpose_Fin, to_storage_Fin;
    (rewrite write_prefix_exact
       by (rewrite length_map, length_to_storage, HV0
             by apply length_transpose; reflexivity));
    rewrite bind_ret_l; reflexivity.
Qed.

Lemma sqrt_one_over (m : R) :
  0 < m -> Real.sqrt (Real.div (Fin 1) (Fin m)) = Fin (1 / sqrt m).
Proof.
  intros Hm. rewrite div_Fin by lra.
  assert (0 < / m) by (apply Rinv_0_lt_compat; exact Hm).
  rewrite sqrt_Fin by (unfold Rdiv; lra).
  f_equal. unfold Rdiv. rewrite !Rmult_1_l. apply sqrt_inv.
Qed.

(** C5.  On a diagonal metric with positive entries, for which the solver
    answers with an eigensystem, [min_length] is [1/sqrt] of the largest
    entry, [max_length] is [1/sqrt] of the smallest, and [average_length]
    is [sqrt(d / sum of the entries)]; the values are exact, so within any
    tolerance. *)
Theorem length_queries_on_diagonal_metric
  (order : StorageOrder)
  (EigenSolver : nat -> list real_t -> list real_t * list real_t)
  (d : nat) (entries L E : list R) :
  (d = 2 \/ d = 3)%nat ->
  length entries = d ->
  Forall (fun x => 0 < x) entries ->
  solves EigenSolver d (diagonal_matrix d entries) L E ->
  let self := {| _metric := Some (map Fin (diagonal_matrix d entries));
                 _dimension := Z.of_nat d |} in
  min_length order EigenSolver self
    = ret (Fin (1 / sqrt (fold_left Rmax (tl entries) (hd 0 entries))))
  /\ max_length order EigenSolver self
    = ret (Fin (1 / sqrt (fold_left Rmin (tl entries) (hd 0 entries))))
  /\ average_length order EigenSolver self
    = ret (Fin (sqrt (INR d / fold_left Rplus (tl entries) (hd 0 entries)))).
Proof.
  intros Hd Hlen Hpos (Hsolve & Hsys) self.
  assert (HD : decomp_for_length order EigenSolver self
               = ret (map Fin (map Rabs L))).
  { unfold decomp_for_length, self. cbn [_dimension].
    rewrite Nat2Z.id.
    rewrite (@eigen_decomp_finite order EigenSolver d
               (diagonal_matrix d entries) L E); try assumption.
    - rewrite bind_ret_l. reflexivity.
    - apply length_tabulate.
    - destruct Hd as [-> | ->]; explode entries;
        inversion Hpos as [| ? ? Ha _]; subst;
        cbn; rewrite Reqb0_false by lra; reflexivity.
    - destruct Hsys as (HL & _). exact HL.
    - apply repeat_length.
    - rewrite repeat_length. destruct Hd as [-> | ->]; reflexivity. }
  unfold min_length, max_length, average_length. rewrite HD, !bind_ret_l.
  destruct Hd as [-> | ->].
  - pose proof Hsys as (HL & _). explode entries. explode L.
    rename r into a, r0 into b, r1 into l0, r2 into l1.
    inversion Hpos as [| ? ? Ha Hpos']; subst.
    inversion Hpos' as [| ? ? Hb _]; subst.
    destruct (eigen_diagonal_2 Ha Hb Hsys) as (P0 & P1 & Hmax & Hmin & Hsum).
    cbn [map read_at nth_error tl hd fold_left _dimension self].
    rewrite !bind_ret_l.
    rewrite !(Rabs_pos_eq l0), !(Rabs_pos_eq l1) by lra.
    repeat split.
    + rewrite std_max_Fin, Hmax. rewrite sqrt_one_over; [reflexivity |].
      apply Rlt_le_trans with a; [exact Ha | apply Rmax_l].
    + rewrite std_min_Fin, Hmin. rewrite sqrt_one_over; [reflexivity |].
      apply Rmin_glb_lt; assumption.
    + cbn [Real.add]. rewrite Hsum.
      change (IZR (Z.of_nat 2)) with 2.
      rewrite div_Fin by lra. rewrite div_Fin by lra.
      rewrite sqrt_Fin.
      * do 3 f_equal. cbn [INR]. field. lra.
      * apply Rlt_le. apply Rdiv_lt_0_compat; lra.
  - pose proof Hsys as (HL & _). explode entries. explode L.
    rename r into a, r0 into b, r1 into c, r2 into l0, r3 into l1, r4 into l2.
    inversion Hpos as [| ? ? Ha Hpos']; subst.
    inversion Hpos' as [| ? ? Hb Hpos'']; subst.
    inversion Hpos'' as [| ? ? Hc _]; subst.
    destruct (eigen_diagonal_3 Ha Hb Hc Hsys)
      as (P0 & P1 & P2 & Hmax & Hmin & Hsum).
    cbn [map read_at nth_error tl hd fold_left _dimension self].
    rewrite !bind_ret_l.
    rewrite !(Rabs_pos_eq l0), !(Rabs_pos_eq l1), !(Rabs_pos_eq l2) by lra.
    repeat split.
    + rewrite !std_max_Fin, Hmax. rewrite sqrt_one_over; [reflexivity |].
      apply Rlt_le_trans with c; [exact Hc | apply Rmax_r].
    + rewrite !std_min_Fin, Hmin. rewrite sqrt_one_over; [reflexivity |].
      apply Rmin_glb_lt; [apply Rmin_glb_lt |]; assumption.
    + cbn [Real.add]. rewrite Hsum.
      change (IZR (Z.of_nat 3)) with 3.
      rewrite div_Fin by lra. rewrite div_Fin by lra.
      rewrite sqrt_Fin.
      * do 3 f_equal. cbn [INR]. field. lra.
      * apply Rlt_le. apply Rdiv_lt_0_compat; lra.
Qed.

Lemma example_solver_diagonal_2 (a b : R) :
  solves example_solver 2 (diagonal_matrix 2 [a; b]) [a; b] [1; 0; 0; 1].
Proof.
  split.
  - cbn. rewrite Reqb0_true by reflexivity. reflexivity.
  - repeat split; cbn; entrywise; ring.
Qed.

Lemma length_queries_on_diagonal_metric_witness :
  let self := {| _metric := Some (map Fin (diagonal_matrix 2 [4; 1]));
                 _dimension := Z.of_nat 2 |} in
  min_length ColMajor example_solver self = ret (Fin (1 / sqrt (Rmax 4 1)))
  /\ max_length ColMajor example_solver self
     = ret (Fin (1 / sqrt (Rmin 4 1)))
  /\ average_length ColMajor example_solver self
     = ret (Fin (sqrt (INR 2 / (4 + 1)))).
Proof.
  apply (@length_queries_on_diagonal_metric ColMajor example_solver 2
           [4; 1] [4; 1] [1; 0; 0; 1]).
  - left. reflexivity.
  - reflexivity.
  - repeat constructor; lra.
  - apply example_solver_diagonal_2.
Defined.

(* ================================================================== *)
(** ** [positive_definiteness] on finite matrices *)
(* ================================================================== *)

Lemma isZero_Fin_true (A : list R) :
  isZero (map Fin A) = true -> A = repeat 0 (length A).
Proof.
  induction A as [| a A IH]; [reflexivity |].
  cbn [map isZero forallb length repeat]. intros H.
  apply andb_prop in H. destruct H as [Ha HA].
  f_equal; [| exact (IH HA)].
  rewrite is_zero_Fin in Ha.
  destruct (Req_dec_T a 0) as [H0 | H0]; [exact H0 |].
  rewrite Reqb0_false in Ha by exact H0. discriminate Ha.
Qed.

Lemma positive_definiteness_finite (order : StorageOrder)
  (EigenSolver : nat -> list real_t -> list real_t * list real_t)
  (d : nat) (A L E : list R) :
  (d = 2 \/ d = 3)%nat -> length A = (d * d)%nat ->
  EigenSolver d (map Fin A) = (map Fin L, map Fin E) ->
  positive_definiteness order EigenSolver (Z.of_nat d) (map Fin A)
  = if isZero (map Fin A) then ret (map Fin A)
    else ret (map Fin (to_storage order d (spectral d E (map Rabs L)))).
Proof.
  intros Hd HA Hsolve. unfold positive_definiteness.
  destruct Hd; subst d; explode_all;
    cbn [Z.of_nat Pos.of_succ_nat Pos.succ Z.eqb Pos.eqb map];
    cbn [map] in Hsolve; rewrite Hsolve; cbn [fst snd];
    rewrite map_abs_Fin, recompose_Fin, to_storage_Fin, app_nil_r;
    reflexivity.
Qed.

(** C3, as the code has it.  On a finite 2 x 2 or 3 x 3 input for which
    the solver returns finite values, [positive_definiteness] stores a
    symmetric matrix [P] whose quadratic form is nowhere negative, so
    that every eigenvalue of [P] is [>= 0]; and when the solver's answer
    [(L, E)] is an eigensystem of the input (orthonormal eigenvectors,
    which makes the input symmetric), the columns of [E] are eigenvectors
    of [P] too, for the absolute values of [L]. *)
Theorem positive_definiteness_is_semidefinite
  (order : StorageOrder)
  (EigenSolver : nat -> list real_t -> list real_t * list real_t)
  (d : nat) (A L E : list R) :
  (d = 2 \/ d = 3)%nat ->
  length A = (d * d)%nat -> length L = d -> length E = (d * d)%nat ->
  EigenSolver d (map Fin A) = (map Fin L, map Fin E) ->
  exists P : list R,
    positive_definiteness order EigenSolver (Z.of_nat d) (map Fin A)
      = ret (map Fin P)
    /\ symmetric d P
    /\ (forall v, length v = d -> 0 <= qform d P v)
    /\ (forall mu v, length v = d -> 0 < dot d v v ->
          mat_vec d P v = map (Rmult mu) v -> 0 <= mu)
    /\ (eigen_system d A L E ->
          mmul d P E = diag_mul_r d E (map Rabs L)).
Proof.
  intros Hd HA HL HE Hsolve.
  rewrite (@positive_definiteness_finite order EigenSolver d A L E Hd HA Hsolve).
  assert (Hsemi : forall P, (forall v, length v = d -> 0 <= qform d P v) ->
    forall mu v, length v = d -> 0 < dot d v v ->
      mat_vec d P v = map (Rmult mu) v -> 0 <= mu).
  { intros P HP mu v Hv Hvv Hev.
    pose proof (HP v Hv) as Hq.
    rewrite (@qform_eigenvector d P v mu Hd Hv Hev) in Hq. nra. }
  destruct (isZero (map Fin A)) eqn:Hz.
  - exists A. apply isZero_Fin_true in Hz. rewrite HA in Hz.
    assert (Hq : forall v, length v = d -> 0 <= qform d A v).
    { intros v Hv. rewrite Hz.
      destruct Hd; subst d; explode_all; cbn; right; ring. }
    split; [reflexivity |]. split; [| split; [exact Hq | split]].
    + unfold symmetric. rewrite Hz. destruct Hd; subst d; reflexivity.
    + apply Hsemi. exact Hq.
    + intros (_ & _ & Heq & Hort1 & Hort2). rewrite Hz in Heq |- *.
      destruct Hd; subst d.
      * destruct L as [| l0 [| l1 [| ? ?]]]; try discriminate HL.
        destruct E as [| e00 [| e01 [| e10 [| e11 [| ? ?]]]]];
          try discriminate HE.
        cbn in Heq, Hort1, Hort2 |- *.
        injection Heq as E1 E2 E3 E4. injection Hort1 as C1 C2 C3 C4.
        assert (l0 = 0) as -> by
          (rewrite (@weighted_mean_2 l0 0 0 e00 e10);
           [ring | lra | lra | lra]).
        assert (l1 = 0) as -> by
          (rewrite (@weighted_mean_2 l1 0 0 e01 e11);
           [ring | lra | lra | lra]).
        rewrite Rabs_R0. entrywise; ring.
      * destruct L as [| l0 [| l1 [| l2 [| ? ?]]]]; try discriminate HL.
        destruct E as [| e00 [| e01 [| e02 [| e10 [| e11 [| e12
                      [| e20 [| e21 [| e22 [| ? ?]]]]]]]]]];
          try discriminate HE.
        cbn in Heq, Hort1, Hort2 |- *.
        injection Heq as E1 E2 E3 E4 E5 E6 E7 E8 E9.
        injection Hort1 as C1 C2 C3 C4 C5 C6 C7 C8 C9.
        assert (l0 = 0) as -> by
          (rewrite (@weighted_mean_3 l0 0 0 0 e00 e10 e20);
           [ring | lra | lra | lra | lra]).
        assert (l1 = 0) as -> by
          (rewrite (@weighted_mean_3 l1 0 0 0 e01 e11 e21);
           [ring | lra | lra | lra | lra]).
        assert (l2 = 0) as -> by
          (rewrite (@weighted_mean_3 l2 0 0 0 e02 e12 e22);
           [ring | lra | lra | lra | lra]).
        rewrite Rabs_R0. entrywise; ring.
  - assert (HaL : length (map Rabs L) = d) by (rewrite length_map; exact HL).
    pose proof (@spectral_symmetric d E (map Rabs L) Hd HE HaL) as Hsym.
    rewrite (@to_storage_symmetric order d _ Hsym).
    exists (spectral d E (map Rabs L)).
    assert (Hq : forall v, length v = d ->
                   0 <= qform d (spectral d E (map Rabs L)) v).
    { intros v Hv. rewrite (@qform_spectral d E (map Rabs L) v Hd HE HaL Hv).
      apply weighted_squares_nonneg; [exact Hd | exact HaL | apply Forall_Rabs]. }
    split; [reflexivity |]. split; [exact Hsym |].
    split; [exact Hq |]. split; [apply Hsemi; exact Hq |].
    intros (_ & _ & _ & Hort1 & _).
    apply spectral_eigen; assumption.
Qed.

Lemma positive_definiteness_is_semidefinite_witness :
  exists P : list R,
    positive_definiteness ColMajor example_solver (Z.of_nat 2)
      (map Fin [1; 0; 0; -4])
      = ret (map Fin P)
    /\ symmetric 2 P
    /\ (forall v, length v = 2%nat -> 0 <= qform 2 P v)
    /\ (forall mu v, length v = 2%nat -> 0 < dot 2 v v ->
          mat_vec 2 P v = map (Rmult mu) v -> 0 <= mu)
    /\ (eigen_system 2 [1; 0; 0; -4] [1; -4] [1; 0; 0; 1] ->
          mmul 2 P [1; 0; 0; 1] = diag_mul_r 2 [1; 0; 0; 1] (map Rabs [1; -4])).
Proof.
  apply (@positive_definiteness_is_semidefinite ColMajor example_solver 2
           [1; 0; 0; -4] [1; -4] [1; 0; 0; 1]).
  - left. reflexivity.
  - reflexivity.
  - reflexivity.
  - reflexivity.
  - exact (proj1 (example_solver_diagonal_2 1 (-4))).
Defined.

(** Scenario S3 of the spec: [[1,0],[0,-4]] becomes [[1,0],[0,4]]. *)
Example positive_definiteness_S3 :
  positive_definiteness ColMajor example_solver 2
    [Fin 1; Fin 0; Fin 0; Fin (-4)]
  = ret [Fin 1; Fin 0; Fin 0; Fin 4].
Proof.
  change (positive_definiteness ColMajor example_solver (Z.of_nat 2)
            (map Fin [1; 0; 0; -4])
          = ret [Fin 1; Fin 0; Fin 0; Fin 4]).
  rewrite (@positive_definiteness_finite ColMajor example_solver 2
             [1; 0; 0; -4] [1; -4] [1; 0; 0; 1]
             (or_introl eq_refl) eq_refl
             (proj1 (example_solver_diagonal_2 1 (-4)))).
  replace (isZero (map Fin [1; 0; 0; -4])) with false
    by (cbn; rewrite Reqb0_false by lra; reflexivity).
  cbn. rewrite Rabs_R1.
  replace (Rabs (-4)) with 4
    by (unfold Rabs; destruct (Rcase_abs (-4)); lra).
  unfold ret. f_equal. entrywise; ring.
Qed.

(** C3, as stated, fails on a matrix that is diagonalisable with real
    eigenvalues but not symmetric.  [[1, 3/4], [0, 2]] has the eigenvalues
    1 and 2 with the unit eigenvectors (1, 0) and (3/5, 4/5); with that
    answer of the solver the stored result is
    [[43/25, 24/25], [24/25, 32/25]], of which (1, 0) is no eigenvector. *)
Lemma positive_definiteness_nonsymmetric_counterexample :
  let A := [1; 3/4; 0; 2] in
  let L := [1; 2] in
  let E := [1; 3/5; 0; 4/5] in
  let P := [43/25; 24/25; 24/25; 32/25] in
  let solver := fun (_ : nat) (_ : list real_t) => (map Fin L, map Fin E) in
  mmul 2 A E = diag_mul_r 2 E L
  /\ coeff 2 (mmul 2 (transpose 2 E) E) 0 0 = 1
  /\ coeff 2 (mmul 2 (transpose 2 E) E) 1 1 = 1
  /\ positive_definiteness ColMajor solver 2 (map Fin A) = ret (map Fin P)
  /\ mat_vec 2 A [1; 0] = [1; 0]
  /\ mat_vec 2 P [1; 0] = [43/25; 24/25].
Proof.
  cbv zeta. repeat split.
  - cbn. entrywise; lra.
  - cbn. lra.
  - cbn. lra.
  - change 2%Z with (Z.of_nat 2).
    rewrite (@positive_definiteness_finite ColMajor _ 2
               [1; 3/4; 0; 2] [1; 2] [1; 3/5; 0; 4/5]
               (or_introl eq_refl) eq_refl eq_refl).
    replace (isZero (map Fin [1; 3/4; 0; 2])) with false
      by (cbn; rewrite Reqb0_false by lra; reflexivity).
    cbn. rewrite Rabs_R1, (Rabs_pos_eq 2) by lra.
    unfold ret. f_equal. entrywise; lra.
  - cbn. entrywise; lra.
  - cbn. entrywise; lra.
Qed.

(* ================================================================== *)
(** ** [eigen_decomp] followed by [eigen_undecomp] *)
(* ================================================================== *)

(** [eigen_undecomp] on finite arguments: the stored matrix is
    [V^T * diag(|D|) * V]. *)
Lemma eigen_undecomp_finite (d : nat) (buf : list real_t) (D V : list R) :
  (d = 2 \/ d = 3)%nat ->
  length buf = (d * d)%nat -> length D = d -> length V = (d * d)%nat ->
  eigen_undecomp {| _metric := Some buf; _dimension := Z.of_nat d |}
    (map Fin D) (map Fin V)
  = ret ({| _metric :=
              Some (map Fin (spectral d (transpose d V) (map Rabs D)));
            _dimension := Z.of_nat d |}, 0%Z).
Proof.
  intros Hd Hbuf HD HV. unfold eigen_undecomp. cbn [_dimension _metric].
  rewrite Nat2Z.id.
  replace (d =? 0)%nat with false by (destruct Hd; subst d; reflexivity).
  rewrite read_prefix_exact by (rewrite length_map; exact HD).
  rewrite bind_ret_l.
  rewrite read_prefix_exact by (rewrite length_map; exact HV).
  rewrite bind_ret_l. cbn [buffer _metric]. rewrite bind_ret_l.
  rewrite write_prefix_exact by (rewrite length_tabulate, Hbuf; reflexivity).
  rewrite bind_ret_l.
  match goal with
  | |- context [tabulate d ?f] =>
      assert (Hentries : tabulate d f
                = map Fin (spectral d (transpose d V) (map Rabs D)))
  end.
  { unfold spectral.
    destruct Hd; subst d; explode D; explode V; cbn; entrywise; ring. }
  rewrite Hentries. reflexivity.
Qed.

(** The metric [[73, 36], [36, 52]]: eigenvalues 100 and 25, eigenvectors
    (4/5, 3/5) and (-3/5, 4/5). *)
Lemma schur2_example :
  schur2 (map Fin [73; 36; 36; 52])
  = (map Fin [100; 25], map Fin [4/5; -(3/5); 3/5; 4/5]).
Proof.
  cbn. decide_R. cbn. decide_R.
  match goal with
  | |- context [sqrt (Rabs ?x)] => replace (Rabs x) with (75/2 * (75/2))
  end.
  2:{ rewrite Rabs_right; lra. }
  rewrite sqrt_square by lra. cbn. decide_R. cbn.
  match goal with
  | |- context [sqrt ?x] => rewrite (@sqrt_eq x 60) by lra
  end.
  decide_R. cbn. decide_R.
  apply f_equal2; entrywise; field.
Qed.

Lemma example_solves :
  solves example_solver 2 [73; 36; 36; 52] [100; 25] [4/5; -(3/5); 3/5; 4/5].
Proof.
  split; [exact schur2_example |].
  repeat split; cbn; entrywise; field.
Qed.

Lemma eigen_decomp_example :
  eigen_decomp ColMajor example_solver
    {| _metric := Some (map Fin [73; 36; 36; 52]); _dimension := 2 |}
    (repeat (Fin 0) 2) (repeat (Fin 0) 4)
  = ret (map Fin [100; 25], map Fin [4/5; -(3/5); 3/5; 4/5]).
Proof.
  change 2%Z with (Z.of_nat 2).
  rewrite (@eigen_decomp_finite ColMajor example_solver 2
             [73; 36; 36; 52] [100; 25] [4/5; -(3/5); 3/5; 4/5]);
    try reflexivity.
  - unfold ret. do 2 f_equal. cbn. rewrite !Rabs_pos_eq by lra. reflexivity.
  - left. reflexivity.
  - cbn. rewrite Reqb0_false by lra. reflexivity.
  - exact schur2_example.
Qed.

(** C2 at a failing input.  The dense matrices are column-major and the
    solver is [schur2]; the metric is [[73, 36], [36, 52]] (eigenvalues
    100 and 25).  [eigen_decomp] returns [D = (100, 25)] and
    [V = (4/5, -3/5, 3/5, 4/5)], and [eigen_undecomp] of these stores
    [[73, -36], [-36, 52]]: the sign of the off-diagonal entry is
    lost. *)
Theorem round_trip_mirrors_column_major :
  let self := {| _metric := Some (map Fin [73; 36; 36; 52]);
                 _dimension := 2 |} in
  eigen_decomp ColMajor example_solver self
    (repeat (Fin 0) 2) (repeat (Fin 0) 4)
  = ret (map Fin [100; 25], map Fin [4/5; -(3/5); 3/5; 4/5])
  /\ eigen_undecomp self (map Fin [100; 25])
       (map Fin [4/5; -(3/5); 3/5; 4/5])
     = ret ({| _metric := Some (map Fin [73; -36; -36; 52]);
               _dimension := 2 |}, 0%Z).
Proof.
  cbv zeta. split; [exact eigen_decomp_example |].
  change 2%Z with (Z.of_nat 2).
  rewrite (@eigen_undecomp_finite 2); try reflexivity; [| left; reflexivity].
  unfold ret. do 4 f_equal. cbn. rewrite !Rabs_pos_eq by lra.
  entrywise; field.
Qed.

(** C6 at a failing input, the one of C2.  The first row of the returned
    [V] is (4/5, -3/5); the metric maps it to (184/5, -12/5), which is
    not a multiple of it, while 100 times the row is (80, -60).  The
    eigenvector for 100 is the first column of [V], (4/5, 3/5). *)
Theorem eigen_decomp_rows_column_major :
  let A := [73; 36; 36; 52] in
  let self := {| _metric := Some (map Fin A); _dimension := 2 |} in
  eigen_decomp ColMajor example_solver self
    (repeat (Fin 0) 2) (repeat (Fin 0) 4)
  = ret (map Fin [100; 25], map Fin [4/5; -(3/5); 3/5; 4/5])
  /\ mat_vec 2 A [4/5; -(3/5)] = [184/5; -(12/5)]
  /\ map (Rmult 100) [4/5; -(3/5)] = [80; -60]
  /\ mat_vec 2 A [4/5; 3/5] = map (Rmult 100) [4/5; 3/5].
Proof.
  cbv zeta. split; [exact eigen_decomp_example |].
  repeat split; cbn; entrywise; field.
Qed.

(* ================================================================== *)
(** ** [constrain] on finite matrices *)
(* ================================================================== *)

Lemma clamp_Fin (p : bool) (l : list R) :
  clamp p (map Fin l) = map Fin (Rclamp p l).
Proof.
  unfold clamp, Rclamp. destruct p; rewrite !map_map; apply map_ext;
    intros x; [apply std_max_Fin | apply std_min_Fin].
Qed.

(** [superpose] when every intermediate value is finite. *)
Lemma superpose_finite
  (EigenSolver : nat -> list real_t -> list real_t * list real_t)
  (n : nat) (p : bool) (M1 M2 L E F M L' W : list R) :
  EigenSolver n (map Fin M1) = (map Fin L, map Fin E) ->
  F = diag_mul_l n (map sqrt (map Rabs L)) E ->
  determinant n F <> 0 ->
  M = mmul n (mmul n (transpose n (inverse n F)) M2) (inverse n F) ->
  EigenSolver n (map Fin M) = (map Fin L', map Fin W) ->
  superpose EigenSolver n p (map Fin M1) (map Fin M2)
  = map Fin
      (mmul n
         (mmul n
            (diag_mul_r n (mmul n (transpose n F) W) (Rclamp p (map Rabs L')))
            (transpose n W))
         F).
Proof.
  intros Hsolve HF Hdet HM Hsolve'. unfold superpose.
  rewrite Hsolve. cbn [fst snd].
  rewrite map_abs_Fin, map_sqrt_Fin by apply Forall_Rabs.
  rewrite diag_mul_l_Fin, <- HF.
  rewrite inverse_Fin by exact Hdet.
  rewrite !transpose_Fin, !mmul_Fin, <- HM, Hsolve'. cbn [fst snd].
  rewrite map_abs_Fin, clamp_Fin, !transpose_Fin, !mmul_Fin.
  rewrite diag_mul_r_Fin, !mmul_Fin. reflexivity.
Qed.

Lemma schur2_mirror :
  schur2 (map Fin [73/100; -(36/100); -(36/100); 52/100])
  = (map Fin [1; 1/4], map Fin [4/5; 3/5; -(3/5); 4/5]).
Proof.
  cbn. decide_R. cbn. decide_R.
  match goal with
  | |- context [sqrt (Rabs ?x)] => replace (Rabs x) with (3/8 * (3/8))
  end.
  2:{ rewrite Rabs_right; lra. }
  rewrite sqrt_square by lra. cbn. decide_R. cbn.
  match goal with
  | |- context [sqrt ?x] => rewrite (@sqrt_eq x (3/5)) by lra
  end.
  decide_R. cbn. decide_R.
  apply f_equal2; entrywise; field.
Qed.

Lemma schur2_scalar (a : R) :
  schur2 (map Fin [a; 0; 0; a]) = (map Fin [a; a], map Fin [1; 0; 0; 1]).
Proof. cbn. rewrite Reqb0_true by reflexivity. reflexivity. Qed.

(** C1 at a failing input.  [A] is [[73, 36], [36, 52]] (eigenvalues 100
    and 25, aspect 1/4) and [B] is [[0.73, -0.36], [-0.36, 0.52]] (aspect
    1/4 too, so that [A] stays the reference).  With the solver [schur2]
    the matrix [F] is [[8, -6], [3, 4]], for which [F^T F] is
    [[73, -36], [-36, 52]] and not [A]; [B] is mapped to the identity
    over 100, both eigenvalues are raised to 1, and [constrain] stores
    [C = F^T F].  Along [v = (1, 1)] the result has [v^T C v = 53], below
    [v^T A v = 197]. *)
Theorem constrain_loses_the_reference :
  let A := [73; 36; 36; 52] in
  let B := [73/100; -(36/100); -(36/100); 52/100] in
  let C := [73; -36; -36; 52] in
  constrain ColMajor example_solver
    {| _metric := Some (map Fin A); _dimension := 2 |} (map Fin B) true
  = ret {| _metric := Some (map Fin C); _dimension := 2 |}
  /\ qform 2 C [1; 1] = 53
  /\ qform 2 A [1; 1] = 197.
Proof.
  cbv zeta. split; [| split; cbn; lra].
  cbn [map]. rewrite constrain_2 by reflexivity.
  change [Fin 73; Fin 36; Fin 36; Fin 52] with (map Fin [73; 36; 36; 52]).
  change [Fin (73/100); Fin (-(36/100)); Fin (-(36/100)); Fin (52/100)]
    with (map Fin [73/100; -(36/100); -(36/100); 52/100]).
  replace (isZero (map Fin [73/100; -(36/100); -(36/100); 52/100]))
    with false by (cbn; rewrite Reqb0_false by lra; reflexivity).
  unfold example_solver at 1 2. cbn [Nat.eqb].
  rewrite schur2_example, schur2_mirror. cbn [fst].
  replace (Real.gtb (aspect2 (map Real.abs (map Fin [1; 1/4])))
                    (aspect2 (map Real.abs (map Fin [100; 25]))))
    with false.
  2:{ cbn. rewrite !Rabs_pos_eq by lra.
      unfold aspect2. cbn [nth]. rewrite !std_min_Fin, !std_max_Fin.
      rewrite !Rmin_right, !Rmax_left by lra.
      rewrite !div_Fin by lra. unfold Real.gtb. cbn.
      rewrite Rltb_false by lra. reflexivity. }
  rewrite (@superpose_finite example_solver 2 true
             [73; 36; 36; 52] [73/100; -(36/100); -(36/100); 52/100]
             [100; 25] [4/5; -(3/5); 3/5; 4/5]
             [8; -6; 3; 4] [1/100; 0; 0; 1/100]
             [1/100; 1/100] [1; 0; 0; 1]).
  - unfold ret. do 3 f_equal. cbn.
    rewrite (Rabs_pos_eq (1/100)) by lra.
    rewrite Rmax_left by lra. entrywise; ring.
  - exact schur2_example.
  - cbn. rewrite !Rabs_pos_eq by lra.
    rewrite (@sqrt_eq 100 10), (@sqrt_eq 25 5) by lra.
    entrywise; field.
  - cbn. lra.
  - cbn. entrywise; field.
  - apply schur2_scalar.
Qed.

(* ================================================================== *)
(** ** The zero matrix *)
(* ================================================================== *)

Lemma schur2_zero :
  schur2 [Fin 0; Fin 0; Fin 0; Fin 0]
  = ([Fin 0; Fin 0], [Fin 1; Fin 0; Fin 0; Fin 1]).
Proof. cbn. rewrite Reqb0_true by reflexivity. reflexivity. Qed.

Lemma superpose_zero_reference :
  superpose example_solver 2 true
    [Fin 0; Fin 0; Fin 0; Fin 0] [Fin 1; Fin 0; Fin 0; Fin 1]
  = [NaN; NaN; NaN; NaN].
Proof.
  unfold superpose, example_solver. cbn [Nat.eqb].
  rewrite schur2_zero. cbn [fst snd map Real.abs].
  rewrite Rabs_R0. rewrite sqrt_Fin by lra. rewrite sqrt_0.
  replace (diag_mul_l 2 [Fin 0; Fin 0] [Fin 1; Fin 0; Fin 0; Fin 1])
    with [Fin 0; Fin 0; Fin 0; Fin 0] by (cbn; entrywise; ring).
  replace (inverse 2 [Fin 0; Fin 0; Fin 0; Fin 0])
    with [NaN; NaN; NaN; NaN].
  2:{ cbn. rewrite Reqb0_true by lra. unfold Real.signed_inf.
      rewrite (@Rltb_true 0 1) by lra. cbn. unfold Real.signed_inf.
      decide_R. reflexivity. }
  reflexivity.
Qed.

(** C4, as the code has it.  For dimension 2 or 3: both variants of
    [positive_definiteness] return a zero buffer as it is, [scale] by a
    finite factor keeps it zero, and [constrain] whose argument is the
    zero matrix leaves the object, whatever it holds, unchanged. *)
Theorem zero_matrix_is_preserved
  (order : StorageOrder)
  (EigenSolver : nat -> list real_t -> list real_t * list real_t)
  (d : Z) :
  d = 2%Z \/ d = 3%Z ->
  let zero := repeat (Fin 0) (square_count d) in
  positive_definiteness order EigenSolver d zero = ret zero
  /\ positive_definiteness_iso order EigenSolver d zero = ret zero
  /\ (forall s : R,
        scale {| _metric := Some zero; _dimension := d |} (Fin s)
        = ret {| _metric := Some zero; _dimension := d |})
  /\ (forall (A : list real_t) (p : bool),
        length A = square_count d ->
        constrain order EigenSolver
          {| _metric := Some A; _dimension := d |} zero p
        = ret {| _metric := Some A; _dimension := d |}).
Proof.
  intros Hd zero.
  assert (Hz4 : isZero [Fin 0; Fin 0; Fin 0; Fin 0] = true)
    by exact (isZero_zeros 4).
  assert (Hz9 : isZero [Fin 0; Fin 0; Fin 0; Fin 0; Fin 0; Fin 0; Fin 0;
                        Fin 0; Fin 0] = true)
    by exact (isZero_zeros 9).
  repeat split.
  - destruct Hd; subst d; unfold positive_definiteness, zero;
      cbn [Z.eqb Pos.eqb]; rewrite ?square_count_2, ?square_count_3;
      cbn [repeat]; rewrite ?Hz4, ?Hz9; reflexivity.
  - destruct Hd; subst d; unfold positive_definiteness_iso, zero;
      cbn [Z.eqb Pos.eqb]; rewrite ?square_count_2, ?square_count_3;
      cbn [repeat]; rewrite ?Hz4, ?Hz9; reflexivity.
  - intros s. unfold scale, zero. cbn [_dimension _metric buffer].
    destruct Hd; subst d; rewrite ?square_count_2, ?square_count_3;
      cbn [Nat.eqb]; rewrite bind_ret_l;
      rewrite read_prefix_exact by reflexivity; rewrite bind_ret_l;
      cbn [repeat map Real.mul];
      rewrite write_prefix_exact by reflexivity; rewrite bind_ret_l;
      rewrite Rmult_0_l; reflexivity.
  - intros A p HA. unfold constrain. cbn [_dimension].
    destruct Hd; subst d.
    + change (Z.to_nat 2) with 2%nat. rewrite square_count_2 in HA.
      unfold zero. rewrite square_count_2.
      change (upper_indices 2) with [0; 1; 3]%nat.
      cbn [repeat nan_scan read_at nth_error Real.isnan].
      rewrite !bind_ret_l. cbn [Real.isnan]. rewrite !bind_ret_l.
      change (int_of_size_t 2) with 2%Z.
      unfold set. change (size_t_of_int 2) with 2%Z. rewrite square_count_2.
      rewrite read_prefix_exact by reflexivity. rewrite !bind_ret_l.
      cbn [buffer _metric]. rewrite !bind_ret_l.
      unfold choose_reference. cbn [Z.eqb Pos.eqb].
      rewrite read_prefix_exact by exact HA. rewrite bind_ret_l.
      rewrite read_prefix_exact by reflexivity. rewrite bind_ret_l.
      cbn [repeat]. rewrite Hz4. rewrite !bind_ret_l. reflexivity.
    + change (Z.to_nat 3) with 3%nat. rewrite square_count_3 in HA.
      unfold zero. rewrite square_count_3.
      change (upper_indices 3) with [0; 1; 2; 4; 5; 8]%nat.
      cbn [repeat nan_scan read_at nth_error Real.isnan].
      rewrite !bind_ret_l. cbn [Real.isnan]. rewrite !bind_ret_l.
      change (int_of_size_t 3) with 3%Z.
      unfold set. change (size_t_of_int 3) with 3%Z. rewrite square_count_3.
      rewrite read_prefix_exact by reflexivity. rewrite !bind_ret_l.
      cbn [buffer _metric]. rewrite !bind_ret_l.
      unfold choose_reference. cbn [Z.eqb Pos.eqb].
      rewrite read_prefix_exact by exact HA. rewrite bind_ret_l.
      rewrite read_prefix_exact by reflexivity. rewrite bind_ret_l.
      replace (to_storage order 3 (repeat (Fin 0) 9))
        with [Fin 0; Fin 0; Fin 0; Fin 0; Fin 0; Fin 0; Fin 0; Fin 0; Fin 0]
        by (destruct order; reflexivity).
      rewrite Hz9. rewrite !bind_ret_l. reflexivity.
Qed.

Lemma zero_matrix_is_preserved_witness :
  let zero := repeat (Fin 0) (square_count 2) in
  positive_definiteness ColMajor example_solver 2 zero = ret zero
  /\ positive_definiteness_iso ColMajor example_solver 2 zero = ret zero
  /\ (forall s : R,
        scale {| _metric := Some zero; _dimension := 2 |} (Fin s)
        = ret {| _metric := Some zero; _dimension := 2 |})
  /\ (forall (A : list real_t) (p : bool),
        length A = square_count 2 ->
        constrain ColMajor example_solver
          {| _metric := Some A; _dimension := 2 |} zero p
        = ret {| _metric := Some A; _dimension := 2 |}).
Proof.
  apply (@zero_matrix_is_preserved ColMajor example_solver 2).
  left. reflexivity.
Defined.

(** C4, as stated, fails for [constrain] on a zero object: only the
    argument is tested for zero.  With the identity as argument the aspect
    ratio of the object is [0/0], the zero matrix stays the reference,
    [F] is zero and its inverse is not finite: the object ends up all
    NaN.  [scale] by a NaN factor does the same. *)
Lemma zero_self_not_preserved_counterexample :
  let zero := [Fin 0; Fin 0; Fin 0; Fin 0] in
  constrain ColMajor example_solver
    {| _metric := Some zero; _dimension := 2 |}
    [Fin 1; Fin 0; Fin 0; Fin 1] true
  = ret {| _metric := Some [NaN; NaN; NaN; NaN]; _dimension := 2 |}
  /\ scale {| _metric := Some zero; _dimension := 2 |} NaN
     = ret {| _metric := Some [NaN; NaN; NaN; NaN]; _dimension := 2 |}.
Proof.
  cbv zeta. split; [| reflexivity].
  rewrite constrain_2 by reflexivity.
  replace (isZero [Fin 1; Fin 0; Fin 0; Fin 1]) with false
    by (cbn; rewrite Reqb0_false by lra; reflexivity).
  unfold example_solver at 1 2. cbn [Nat.eqb].
  rewrite schur2_identity, schur2_zero. cbn [fst map Real.abs].
  replace (aspect2 [Fin (Rabs 0); Fin (Rabs 0)]) with NaN.
  2:{ unfold aspect2. cbn [nth]. rewrite std_min_Fin, std_max_Fin.
      rewrite Rmin_diag, Rmax_diag, Rabs_R0. cbn.
      rewrite Reqb0_true by reflexivity. unfold Real.signed_inf.
      decide_R. reflexivity. }
  replace (Real.gtb (aspect2 [Fin (Rabs 1); Fin (Rabs 1)]) NaN) with false
    by (unfold Real.gtb; reflexivity).
  rewrite superpose_zero_reference. reflexivity.
Qed.

(* ================================================================== *)
(** ** The example solver meets the eigensolver contract *)
(* ================================================================== *)

(** The rotation that [schur2] returns on a symmetric matrix with a
    non-zero off-diagonal entry. *)
Lemma schur2_rotation (a c d : R) :
  c <> 0 ->
  exists z r : R,
    z <> 0 /\ 0 < r /\ r * r = z * z + c * c
    /\ z * z = (a - d) * z + c * c
    /\ schur2 (map Fin [a; c; c; d])
       = (map Fin [d + z; d - c * c / z],
          map Fin [z / r; - (c / r); c / r; z / r]).
Proof.
  intros Hc.
  set (p := (a + - d) / 2).
  set (q := p * p + c * c).
  assert (Hq : 0 < q) by (unfold q; nra).
  set (z0 := sqrt q).
  assert (Hz0 : 0 < z0) by (apply sqrt_lt_R0; exact Hq).
  assert (Hz0q : z0 * z0 = q) by (apply sqrt_sqrt; lra).
  assert (Hstart : forall z : R,
    (z = p + - z0 \/ z = p + z0) -> z <> 0 ->
    z <> 0 /\ 0 < sqrt (z * z + c * c)
    /\ sqrt (z * z + c * c) * sqrt (z * z + c * c) = z * z + c * c
    /\ z * z = (a - d) * z + c * c).
  { intros z Hz Hz_nz.
    assert (Hpos : 0 < z * z + c * c) by nra.
    split; [exact Hz_nz |]. split; [apply sqrt_lt_R0; exact Hpos |].
    split; [apply sqrt_sqrt; lra |].
    unfold q, p in *. destruct Hz as [-> | ->]; nra. }
  assert (Habs : Rabs p < z0).
  { apply Rabs_def1; unfold q in Hz0q; nra. }
  unfold schur2. cbn [map]. rewrite is_zero_Fin, Reqb0_false by exact Hc.
  cbv zeta. cbn [Real.sub Real.neg Real.add Real.mul].
  rewrite div_Fin by lra. fold p.
  cbn [Real.sub Real.neg Real.add Real.mul Real.abs]. fold q.
  rewrite (Rabs_pos_eq q) by lra. rewrite sqrt_Fin by lra. fold z0.
  cbn [Real.ltb].
  destruct (Rlt_dec p 0) as [Hp | Hp].
  - rewrite Rltb_true by exact Hp.
    cbn [Real.sub Real.neg Real.add Real.mul].
    assert (Hz_nz : p + - z0 <> 0) by lra.
    destruct (Hstart (p + - z0) (or_introl eq_refl) Hz_nz)
      as (_ & Hr & Hrr & Hzz).
    exists (p + - z0), (sqrt ((p + - z0) * (p + - z0) + c * c)).
    repeat (split; [assumption |]).
    rewrite sqrt_Fin by nra.
    rewrite !div_Fin by lra.
    cbn [Real.sub Real.neg Real.add Real.mul map]. reflexivity.
  - rewrite Rltb_false by lra.
    cbn [Real.sub Real.neg Real.add Real.mul].
    assert (Hz_nz : p + z0 <> 0) by lra.
    destruct (Hstart (p + z0) (or_intror eq_refl) Hz_nz)
      as (_ & Hr & Hrr & Hzz).
    exists (p + z0), (sqrt ((p + z0) * (p + z0) + c * c)).
    repeat (split; [assumption |]).
    rewrite sqrt_Fin by nra.
    rewrite !div_Fin by lra.
    cbn [Real.sub Real.neg Real.add Real.mul map]. reflexivity.
Qed.

(** [example_solver] meets the contract on every symmetric 2 x 2
    matrix. *)
Lemma example_solver_solves_2 (a c d : R) :
  exists L E : list R, solves example_solver 2 [a; c; c; d] L E.
Proof.
  destruct (Req_dec_T c 0) as [-> | Hc].
  - exists [a; d], [1; 0; 0; 1]. exact (example_solver_diagonal_2 a d).
  - destruct (schur2_rotation a d Hc) as (z & r & Hz & Hr & Hrr & Hzz & Heq).
    exists [d + z; d - c * c / z], [z / r; - (c / r); c / r; z / r].
    split; [exact Heq |].
    assert (Hr_nz : r <> 0) by lra.
    split; [reflexivity |]. split; [reflexivity |].
    split; [| split].
    + cbn. entrywise.
      * field_simplify_eq; [nra | lra].
      * field_simplify_eq; [nra | lra].
      * field. exact Hr_nz.
      * field. split; assumption.
    + cbn. entrywise; field_simplify_eq; try lra; nra.
    + cbn. entrywise; field_simplify_eq; try lra; nra.
Qed.

(* ================================================================== *)
(** ** The round trip under a row-major linear index *)
(* ================================================================== *)

(** A matrix with an orthonormal eigensystem is [E * diag(L) * E^T]. *)
Lemma eigen_system_spectral (n : nat) (A L E : list R) :
  (n = 2 \/ n = 3)%nat -> length A = (n * n)%nat ->
  eigen_system n A L E -> A = spectral n E L.
Proof.
  intros Hd HA (HL & HE & Heq & _ & Hort). unfold spectral.
  rewrite <- Heq.
  rewrite mmul_assoc; try assumption; try apply length_tabulate.
  rewrite Hort. symmetry. apply mmul_identity_r; assumption.
Qed.

Lemma map_Rabs_nonneg (l : list R) :
  Forall (fun x => 0 <= x) l -> map Rabs l = l.
Proof.
  induction 1 as [| x l Hx _ IH]; [reflexivity |].
  cbn [map]. rewrite (Rabs_pos_eq x Hx), IH. reflexivity.
Qed.

Lemma map_Fin_repeat (x : R) (k : nat) :
  map Fin (repeat x k) = repeat (Fin x) k.
Proof. apply map_repeat. Qed.

(** [eigen_decomp] followed by [eigen_undecomp] restores a positive
    semi-definite matrix when the linear index of dense matrices is
    row-major, or when the solver's eigenvector matrix is symmetric. *)
Theorem round_trip_restores_row_major
  (order : StorageOrder)
  (EigenSolver : nat -> list real_t -> list real_t * list real_t)
  (d : nat) (A L E : list R) :
  (d = 2 \/ d = 3)%nat ->
  length A = (d * d)%nat ->
  solves EigenSolver d A L E ->
  Forall (fun x => 0 <= x) L ->
  order = RowMajor \/ transpose d E = E ->
  let self := {| _metric := Some (map Fin A); _dimension := Z.of_nat d |} in
  ('(D, V) <- eigen_decomp order EigenSolver self
                (repeat (Fin 0) d) (repeat (Fin 0) (d * d)) ;;
   eigen_undecomp self D V)
  = ret (self, 0%Z).
Proof.
  intros Hd HA (Hsolve & Hsys) Hpos Horder self.
  pose proof Hsys as (HL & HE & _).
  destruct (isZero (map Fin A)) eqn:Hz.
  - apply isZero_Fin_true in Hz. rewrite HA in Hz. unfold self.
    rewrite Hz, map_Fin_repeat.
    assert (Hzero : forall dz : Z, dz = 2%Z \/ dz = 3%Z ->
      ('(D, V) <- eigen_decomp order EigenSolver
                    {| _metric := Some (repeat (Fin 0) (square_count dz));
                       _dimension := dz |}
                    (repeat (Fin 0) (Z.to_nat dz))
                    (repeat (Fin 0) (square_count dz)) ;;
       eigen_undecomp
         {| _metric := Some (repeat (Fin 0) (square_count dz));
            _dimension := dz |} D V)
      = ret ({| _metric := Some (repeat (Fin 0) (square_count dz));
                _dimension := dz |}, 0%Z)).
    { intros dz Hdz. rewrite eigen_decomp_zero by exact Hdz.
      rewrite bind_ret_l. cbv beta iota.
      destruct Hdz; subst dz;
        [ change (square_count 2) with 4%nat; change (Z.to_nat 2) with 2%nat;
          change 2%Z with (Z.of_nat 2)
        | change (square_count 3) with 9%nat; change (Z.to_nat 3) with 3%nat;
          change 3%Z with (Z.of_nat 3) ];
        rewrite <- !map_Fin_repeat;
        (rewrite eigen_undecomp_finite;
           [| solve [left; reflexivity | right; reflexivity]
            | reflexivity | reflexivity | reflexivity]);
        unfold ret; do 4 f_equal; cbn -[Rabs]; rewrite Rabs_R0;
        entrywise; ring. }
    destruct Hd; subst d.
    + exact (Hzero 2%Z (or_introl eq_refl)).
    + exact (Hzero 3%Z (or_intror eq_refl)).
  - unfold self.
    rewrite (@eigen_decomp_finite order EigenSolver d A L E);
      try assumption; try apply repeat_length.
    rewrite bind_ret_l. cbv beta iota.
    rewrite eigen_undecomp_finite; try assumption.
    + unfold ret. do 5 f_equal.
      rewrite map_Rabs_nonneg by apply Forall_Rabs.
      rewrite map_Rabs_nonneg by exact Hpos.
      replace (transpose d (to_storage order d (transpose d E))) with E.
      * symmetry. apply eigen_system_spectral; assumption.
      * destruct Horder as [-> | Hsym]; cbn [to_storage].
        -- symmetry. apply transpose_involutive; assumption.
        -- destruct order; cbn [to_storage].
           ++ symmetry. apply transpose_involutive; assumption.
           ++ rewrite !Hsym. reflexivity.
    + rewrite length_map. exact HA.
    + rewrite length_map. exact HL.
    + apply length_to_storage. apply length_transpose.
Qed.

Lemma round_trip_restores_row_major_witness :
  let self := {| _metric := Some (map Fin [73; 36; 36; 52]);
                 _dimension := Z.of_nat 2 |} in
  ('(D, V) <- eigen_decomp RowMajor example_solver self
                (repeat (Fin 0) 2) (repeat (Fin 0) (2 * 2)) ;;
   eigen_undecomp self D V)
  = ret (self, 0%Z).
Proof.
  apply (@round_trip_restores_row_major RowMajor example_solver 2
           [73; 36; 36; 52] [100; 25] [4/5; -(3/5); 3/5; 4/5]).
  - left; reflexivity.
  - reflexivity.
  - exact example_solves.
  - repeat constructor; lra.
  - left; reflexivity.
Defined.

(* ================================================================== *)
(** ** Where [eigen_decomp] puts the eigenvectors *)
(* ================================================================== *)

Theorem eigen_decomp_layout
  (order : StorageOrder)
  (EigenSolver : nat -> list real_t -> list real_t * list real_t)
  (d : nat) (A L E : list R) :
  (d = 2 \/ d = 3)%nat ->
  length A = (d * d)%nat ->
  isZero (map Fin A) = false ->
  solves EigenSolver d A L E ->
  exists V : list R,
    eigen_decomp order EigenSolver
      {| _metric := Some (map Fin A); _dimension := Z.of_nat d |}
      (repeat (Fin 0) d) (repeat (Fin 0) (d * d))
    = ret (map Fin (map Rabs L), map Fin V)
    /\ forall k, (k < d)%nat ->
         mat_vec d A (eigenvector_of order d V k)
         = map (Rmult (nth k L 0)) (eigenvector_of order d V k)
         /\ dot d (eigenvector_of order d V k) (eigenvector_of order d V k)
            = 1.
Proof.
  intros Hd HA Hnz (Hsolve & Hsys).
  pose proof Hsys as (HL & HE & Heq & Hort & _).
  exists (to_storage order d (transpose d E)). split.
  - apply eigen_decomp_finite; try assumption; apply repeat_length.
  - intros k Hk. unfold eigenvector_of.
    destruct Hd; subst d.
    + destruct A as [| a00 [| a01 [| a10 [| a11 [| ? ?]]]]];
        try discriminate HA.
      destruct L as [| l0 [| l1 [| ? ?]]]; try discriminate HL.
      destruct E as [| e00 [| e01 [| e10 [| e11 [| ? ?]]]]];
        try discriminate HE.
      cbn in Heq, Hort. injection Heq as E1 E2 E3 E4.
      injection Hort as C1 C2 C3 C4.
      destruct k as [| [| k]]; [| | lia];
        destruct order; cbn; (split; [entrywise; lra | lra]).
    + destruct A as [| a00 [| a01 [| a02 [| a10 [| a11 [| a12
                    [| a20 [| a21 [| a22 [| ? ?]]]]]]]]]];
        try discriminate HA.
      destruct L as [| l0 [| l1 [| l2 [| ? ?]]]]; try discriminate HL.
      destruct E as [| e00 [| e01 [| e02 [| e10 [| e11 [| e12
                    [| e20 [| e21 [| e22 [| ? ?]]]]]]]]]];
        try discriminate HE.
      cbn in Heq, Hort. injection Heq as E1 E2 E3 E4 E5 E6 E7 E8 E9.
      injection Hort as C1 C2 C3 C4 C5 C6 C7 C8 C9.
      destruct k as [| [| [| k]]]; [| | | lia];
        destruct order; cbn; (split; [entrywise; lra | lra]).
Qed.

Lemma example_not_zero : isZero (map Fin [73; 36; 36; 52]) = false.
Proof. cbn. rewrite Reqb0_false by lra. reflexivity. Qed.

Lemma eigen_decomp_layout_witness :
  exists V : list R,
    eigen_decomp ColMajor example_solver
      {| _metric := Some (map Fin [73; 36; 36; 52]);
         _dimension := Z.of_nat 2 |}
      (repeat (Fin 0) 2) (repeat (Fin 0) (2 * 2))
    = ret (map Fin (map Rabs [100; 25]), map Fin V)
    /\ forall k, (k < 2)%nat ->
         mat_vec 2 [73; 36; 36; 52] (eigenvector_of ColMajor 2 V k)
         = map (Rmult (nth k [100; 25] 0)) (eigenvector_of ColMajor 2 V k)
         /\ dot 2 (eigenvector_of ColMajor 2 V k)
              (eigenvector_of ColMajor 2 V k) = 1.
Proof.
  apply (@eigen_decomp_layout ColMajor example_solver 2
           [73; 36; 36; 52] [100; 25] [4/5; -(3/5); 3/5; 4/5]).
  - left; reflexivity.
  - reflexivity.
  - exact example_not_zero.
  - exact example_solves.
Defined.

(* ================================================================== *)
(** ** Determinants, inverses and congruences *)
(* ================================================================== *)

Lemma determinant_mmul (n : nat) (A B : list R) :
  (n = 2 \/ n = 3)%nat ->
  length A = (n * n)%nat -> length B = (n * n)%nat ->
  determinant n (mmul n A B) = determinant n A * determinant n B.
Proof.
  intros Hd HA HB. destruct Hd; subst n; explode_all; cbn;
    unfold det2; cbn; ring.
Qed.

Lemma determinant_transpose (n : nat) (A : list R) :
  (n = 2 \/ n = 3)%nat -> length A = (n * n)%nat ->
  determinant n (transpose n A) = determinant n A.
Proof.
  intros Hd HA. destruct Hd; subst n; explode_all; cbn;
    unfold det2; cbn; ring.
Qed.

Lemma determinant_identity (n : nat) :
  (n = 2 \/ n = 3)%nat -> determinant n (identity n) = 1.
Proof. intros Hd. destruct Hd; subst n; cbn; unfold det2; cbn; ring. Qed.

Lemma orthogonal_determinant (n : nat) (E : list R) :
  (n = 2 \/ n = 3)%nat -> length E = (n * n)%nat ->
  orthogonal n E -> determinant n E <> 0.
Proof.
  intros Hd HE (Hort & _) Hdet.
  pose proof (f_equal (determinant n) Hort) as H.
  rewrite determinant_mmul, determinant_transpose, determinant_identity in H;
    try assumption; try apply length_tabulate.
  rewrite Hdet in H. lra.
Qed.

Lemma determinant_diag_mul_l (n : nat) (s E : list R) :
  (n = 2 \/ n = 3)%nat -> length s = n -> length E = (n * n)%nat ->
  determinant n (diag_mul_l n s E)
  = fold_right Rmult 1 s * determinant n E.
Proof.
  intros Hd Hs HE. destruct Hd; subst n; explode_all; cbn;
    unfold det2; cbn; ring.
Qed.

Lemma inverse_l (n : nat) (F : list R) :
  (n = 2 \/ n = 3)%nat -> length F = (n * n)%nat ->
  determinant n F <> 0 ->
  mmul n (inverse n F) F = identity n.
Proof.
  intros Hd HF Hdet. destruct Hd; subst n; explode_all;
    cbn in Hdet |- *; unfold det2 in *; cbn in Hdet |- *;
    entrywise; field; exact Hdet.
Qed.

Lemma length_inverse (n : nat) (F : list R) :
  (n = 2 \/ n = 3)%nat -> length F = (n * n)%nat ->
  length (inverse n F) = (n * n)%nat.
Proof. intros Hd HF. destruct Hd; subst n; explode_all; reflexivity. Qed.

Lemma length_mat_vec (n : nat) (A v : list R) : length (mat_vec n A v) = n.
Proof. unfold mat_vec. rewrite length_map, length_seq. reflexivity. Qed.

Lemma mat_vec_mmul (n : nat) (A B v : list R) :
  (n = 2 \/ n = 3)%nat ->
  length A = (n * n)%nat -> length B = (n * n)%nat -> length v = n ->
  mat_vec n (mmul n A B) v = mat_vec n A (mat_vec n B v).
Proof. intros Hd HA HB Hv. by_entries; ring. Qed.

Lemma mat_vec_identity (n : nat) (v : list R) :
  (n = 2 \/ n = 3)%nat -> length v = n -> mat_vec n (identity n) v = v.
Proof. intros Hd Hv. by_entries; ring. Qed.

(** [v^T (G^T S G) v = (G v)^T S (G v)]. *)
Lemma qform_congruence (n : nat) (G S v : list R) :
  (n = 2 \/ n = 3)%nat ->
  length G = (n * n)%nat -> length S = (n * n)%nat -> length v = n ->
  qform n (mmul n (mmul n (transpose n G) S) G) v
  = qform n S (mat_vec n G v).
Proof.
  intros Hd HG HS Hv. destruct Hd; subst n; explode_all; cbn; ring.
Qed.

Lemma qform_transpose (n : nat) (A v : list R) :
  (n = 2 \/ n = 3)%nat -> length A = (n * n)%nat -> length v = n ->
  qform n (transpose n A) v = qform n A v.
Proof.
  intros Hd HA Hv. destruct Hd; subst n; explode_all; cbn; ring.
Qed.

Lemma qform_identity (n : nat) (v : list R) :
  (n = 2 \/ n = 3)%nat -> length v = n ->
  qform n (identity n) v = dot n v v.
Proof. intros Hd Hv. destruct Hd; subst n; explode_all; cbn; ring. Qed.

Lemma diag_mul_r_mmul (n : nat) (X W c : list R) :
  (n = 2 \/ n = 3)%nat ->
  length X = (n * n)%nat -> length W = (n * n)%nat -> length c = n ->
  diag_mul_r n (mmul n X W) c = mmul n X (diag_mul_r n W c).
Proof. intros Hd HX HW Hc. by_entries; ring. Qed.

(** [(diag(s) E)^T (diag(s) E) = E^T diag(s^2) E]. *)
Lemma gram_of_scaled_rows (n : nat) (s E : list R) :
  (n = 2 \/ n = 3)%nat -> length s = n -> length E = (n * n)%nat ->
  mmul n (transpose n (diag_mul_l n s E)) (diag_mul_l n s E)
  = spectral n (transpose n E) (map (fun x => x * x) s).
Proof. intros Hd Hs HE. unfold spectral. by_entries; ring. Qed.

Lemma congruence_symmetric (n : nat) (G S : list R) :
  (n = 2 \/ n = 3)%nat ->
  length G = (n * n)%nat -> length S = (n * n)%nat ->
  symmetric n S ->
  symmetric n (mmul n (mmul n (transpose n G) S) G).
Proof.
  intros Hd HG HS Hsym. unfold symmetric in *.
  rewrite !transpose_mmul, transpose_involutive, Hsym;
    try assumption; try apply length_tabulate.
  symmetry. apply mmul_assoc; try assumption; apply length_tabulate.
Qed.

(** Sums of squares weighted by two vectors that are ordered entry by
    entry. *)
Lemma weighted_squares_le (n : nat) (l c y : list R) :
  (n = 2 \/ n = 3)%nat -> length l = n -> length c = n ->
  Forall2 Rle l c ->
  sum_n n (fun k => nth k l 0 * (nth k y 0 * nth k y 0))
  <= sum_n n (fun k => nth k c 0 * (nth k y 0 * nth k y 0)).
Proof.
  intros Hd Hl Hc Hle.
  destruct Hd; subst n; explode_all; cbn;
    repeat match goal with
      | H : Forall2 _ (_ :: _) (_ :: _) |- _ => inversion H; subst; clear H
      end;
    repeat apply Rplus_le_compat;
    apply Rmult_le_compat_r; try assumption; apply sqr_nonneg.
Qed.

Lemma spectral_ones (n : nat) (W : list R) :
  (n = 2 \/ n = 3)%nat -> length W = (n * n)%nat ->
  spectral n W (repeat 1 n) = mmul n W (transpose n W).
Proof. intros Hd HW. unfold spectral. by_entries; ring. Qed.

(* ================================================================== *)
(** ** Eigenvalues of positive definite matrices *)
(* ================================================================== *)

Lemma eigen_system_columns (n : nat) (A L E : list R) (k : nat) :
  (n = 2 \/ n = 3)%nat -> length A = (n * n)%nat ->
  eigen_system n A L E -> (k < n)%nat ->
  mat_vec n A (column n E k) = map (Rmult (nth k L 0)) (column n E k)
  /\ dot n (column n E k) (column n E k) = 1.
Proof.
  intros Hd HA (HL & HE & Heq & Hort & _) Hk. unfold column.
  destruct Hd; subst n.
  - destruct A as [| a00 [| a01 [| a10 [| a11 [| ? ?]]]]];
      try discriminate HA.
    destruct L as [| l0 [| l1 [| ? ?]]]; try discriminate HL.
    destruct E as [| e00 [| e01 [| e10 [| e11 [| ? ?]]]]];
      try discriminate HE.
    cbn in Heq, Hort. injection Heq as E1 E2 E3 E4.
    injection Hort as C1 C2 C3 C4.
    destruct k as [| [| k]]; [| | lia];
      cbn; (split; [entrywise; lra | lra]).
  - destruct A as [| a00 [| a01 [| a02 [| a10 [| a11 [| a12
                  [| a20 [| a21 [| a22 [| ? ?]]]]]]]]]];
      try discriminate HA.
    destruct L as [| l0 [| l1 [| l2 [| ? ?]]]]; try discriminate HL.
    destruct E as [| e00 [| e01 [| e02 [| e10 [| e11 [| e12
                  [| e20 [| e21 [| e22 [| ? ?]]]]]]]]]];
      try discriminate HE.
    cbn in Heq, Hort. injection Heq as E1 E2 E3 E4 E5 E6 E7 E8 E9.
    injection Hort as C1 C2 C3 C4 C5 C6 C7 C8 C9.
    destruct k as [| [| [| k]]]; [| | | lia];
      cbn; (split; [entrywise; lra | lra]).
Qed.

Lemma length_column (n : nat) (E : list R) (k : nat) :
  length (column n E k) = n.
Proof. unfold column. rewrite length_map, length_seq. reflexivity. Qed.

Lemma eigenvalue_is_qform (n : nat) (A L E : list R) (k : nat) :
  (n = 2 \/ n = 3)%nat -> length A = (n * n)%nat ->
  eigen_system n A L E -> (k < n)%nat ->
  nth k L 0 = qform n A (column n E k).
Proof.
  intros Hd HA Hsys Hk.
  destruct (eigen_system_columns Hd HA Hsys Hk) as [Hev Hunit].
  rewrite (@qform_eigenvector n A (column n E k) (nth k L 0) Hd
             (length_column n E k) Hev).
  rewrite Hunit. ring.
Qed.

Lemma Forall_nth_lt (P : R -> Prop) (n : nat) (l : list R) :
  length l = n -> (forall k, (k < n)%nat -> P (nth k l 0)) -> Forall P l.
Proof.
  intros Hl H. apply Forall_forall. intros x Hx.
  destruct (In_nth l x 0 Hx) as (k & Hk & <-). apply H. lia.
Qed.

Lemma eigenvalues_positive (n : nat) (A L E : list R) :
  (n = 2 \/ n = 3)%nat -> length A = (n * n)%nat ->
  positive_definite n A -> eigen_system n A L E ->
  Forall (fun x => 0 < x) L.
Proof.
  intros Hd HA (_ & Hpd) Hsys. pose proof Hsys as (HL & _).
  apply (@Forall_nth_lt _ n L HL). intros k Hk.
  rewrite (eigenvalue_is_qform Hd HA Hsys Hk).
  apply Hpd; [apply length_column |].
  rewrite (proj2 (eigen_system_columns Hd HA Hsys Hk)). lra.
Qed.

Lemma eigenvalues_nonneg (n : nat) (A L E : list R) :
  (n = 2 \/ n = 3)%nat -> length A = (n * n)%nat ->
  (forall v, length v = n -> 0 <= qform n A v) ->
  eigen_system n A L E ->
  Forall (fun x => 0 <= x) L.
Proof.
  intros Hd HA Hpsd Hsys. pose proof Hsys as (HL & _).
  apply (@Forall_nth_lt _ n L HL). intros k Hk.
  rewrite (eigenvalue_is_qform Hd HA Hsys Hk).
  apply Hpsd. apply length_column.
Qed.

(* ================================================================== *)
(** ** The clamped spectrum *)
(* ================================================================== *)

Lemma length_Rclamp (p : bool) (l : list R) :
  length (Rclamp p l) = length l.
Proof. unfold Rclamp. destruct p; apply length_map. Qed.

Lemma Forall2_map_r (f : R -> R) (P : R -> R -> Prop) (l : list R) :
  (forall x, In x l -> P x (f x)) -> Forall2 P l (map f l).
Proof.
  induction l as [| x l IH]; intros H; constructor.
  - apply H. left. reflexivity.
  - apply IH. intros y Hy. apply H. right. exact Hy.
Qed.

Lemma Forall2_map_l (f : R -> R) (P : R -> R -> Prop) (l : list R) :
  (forall x, In x l -> P (f x) x) -> Forall2 P (map f l) l.
Proof.
  induction l as [| x l IH]; intros H; constructor.
  - apply H. left. reflexivity.
  - apply IH. intros y Hy. apply H. right. exact Hy.
Qed.

Lemma Forall2_repeat_l (c : R) (P : R -> R -> Prop) (l : list R) :
  (forall x, In x l -> P c x) -> Forall2 P (repeat c (length l)) l.
Proof.
  induction l as [| x l IH]; intros H; constructor.
  - apply H. left. reflexivity.
  - apply IH. intros y Hy. apply H. right. exact Hy.
Qed.

Lemma Forall2_repeat_r (c : R) (P : R -> R -> Prop) (l : list R) :
  (forall x, In x l -> P x c) -> Forall2 P l (repeat c (length l)).
Proof.
  induction l as [| x l IH]; intros H; constructor.
  - apply H. left. reflexivity.
  - apply IH. intros y Hy. apply H. right. exact Hy.
Qed.

Lemma superposed_congruence (n : nat) (p : bool) (F L' W : list R) :
  (n = 2 \/ n = 3)%nat ->
  length F = (n * n)%nat -> length L' = n -> length W = (n * n)%nat ->
  superposed n p F L' W
  = mmul n (mmul n (transpose n F)
                   (spectral n W (Rclamp p (map Rabs L')))) F.
Proof.
  intros Hd HF HL HW. unfold superposed, spectral. f_equal.
  rewrite diag_mul_r_mmul; try assumption;
    try apply length_tabulate;
    try (rewrite length_Rclamp, length_map; exact HL).
  apply mmul_assoc; try assumption; apply length_tabulate.
Qed.

(** The bounds that the clamped spectrum gives, in the coordinates of
    [F]. *)
Lemma superposed_bounds (n : nat) (p : bool) (Mi F L' W : list R) :
  (n = 2 \/ n = 3)%nat ->
  length Mi = (n * n)%nat -> length F = (n * n)%nat ->
  determinant n F <> 0 ->
  (forall v, length v = n -> 0 <= qform n Mi v) ->
  eigen_system n
    (mmul n (mmul n (transpose n (inverse n F)) Mi) (inverse n F)) L' W ->
  forall v, length v = n ->
    if p
    then qform n Mi v <= qform n (superposed n p F L' W) v
         /\ qform n (mmul n (transpose n F) F) v
            <= qform n (superposed n p F L' W) v
    else qform n (superposed n p F L' W) v <= qform n Mi v
         /\ qform n (superposed n p F L' W) v
            <= qform n (mmul n (transpose n F) F) v.
Proof.
  intros Hd HMi HF Hdet Hpsd Hsys v Hv.
  pose proof Hsys as (HL' & HW & _ & _ & HWW).
  set (Finv := inverse n F) in *.
  assert (HFinv : length Finv = (n * n)%nat) by (apply length_inverse; assumption).
  set (M := mmul n (mmul n (transpose n Finv) Mi) Finv) in *.
  assert (HM : length M = (n * n)%nat) by apply length_tabulate.
  set (y := mat_vec n F v).
  assert (Hy : length y = n) by apply length_mat_vec.
  set (u := mat_vec n (transpose n W) y).
  (* the mapped tensor in the coordinates of F *)
  assert (HMq : forall w, length w = n ->
            qform n M w = qform n Mi (mat_vec n Finv w)).
  { intros w Hw. unfold M. apply qform_congruence; assumption. }
  assert (HMpsd : forall w, length w = n -> 0 <= qform n M w).
  { intros w Hw. rewrite HMq by exact Hw. apply Hpsd. apply length_mat_vec. }
  assert (HL'pos : Forall (fun x => 0 <= x) L')
    by (apply (@eigenvalues_nonneg n M L' W); assumption).
  assert (HMy : qform n M y = qform n Mi v).
  { rewrite HMq by exact Hy. unfold y.
    rewrite <- mat_vec_mmul by assumption.
    unfold Finv. rewrite inverse_l by assumption.
    rewrite mat_vec_identity by assumption. reflexivity. }
  assert (HMsum : qform n M y
            = sum_n n (fun k => nth k L' 0 * (nth k u 0 * nth k u 0))).
  { rewrite (@eigen_system_spectral n M L' W Hd HM Hsys) at 1.
    apply qform_spectral; assumption. }
  (* the reference in the coordinates of F *)
  assert (HIsum : qform n (mmul n (transpose n F) F) v
            = sum_n n (fun k => nth k (repeat 1 n) 0 * (nth k u 0 * nth k u 0))).
  { transitivity (qform n (identity n) y).
    - replace (mmul n (transpose n F) F)
        with (mmul n (mmul n (transpose n F) (identity n)) F)
        by (rewrite mmul_identity_r by (try assumption; apply length_tabulate);
            reflexivity).
      apply qform_congruence; try assumption. apply length_tabulate.
    - rewrite <- HWW, <- spectral_ones by assumption.
      apply qform_spectral; try assumption. apply repeat_length. }
  (* the result *)
  set (c := Rclamp p (map Rabs L')).
  assert (Hc : length c = n)
    by (unfold c; rewrite length_Rclamp, length_map; exact HL').
  assert (HCsum : qform n (superposed n p F L' W) v
            = sum_n n (fun k => nth k c 0 * (nth k u 0 * nth k u 0))).
  { rewrite superposed_congruence by assumption. fold c.
    rewrite qform_congruence; try assumption; try apply length_tabulate.
    fold y. apply qform_spectral; assumption. }
  rewrite HCsum, HIsum, <- HMy, HMsum.
  unfold c, Rclamp. rewrite (map_Rabs_nonneg HL'pos).
  destruct p; split.
  - apply weighted_squares_le; try assumption; [rewrite length_map; exact HL' |].
    apply Forall2_map_r. intros x _. apply Rmax_r.
  - apply weighted_squares_le; try assumption;
      [apply repeat_length | rewrite length_map; exact HL' |].
    rewrite <- HL' at 1. rewrite <- (length_map (Rmax 1) L').
    apply Forall2_repeat_l. intros x Hx.
    rewrite in_map_iff in Hx. destruct Hx as (x0 & <- & _). apply Rmax_l.
  - apply weighted_squares_le; try assumption; [rewrite length_map; exact HL' |].
    apply Forall2_map_l. intros x _. apply Rmin_r.
  - apply weighted_squares_le; try assumption;
      [rewrite length_map; exact HL' | apply repeat_length |].
    rewrite <- HL' at 1. rewrite <- (length_map (Rmin 1) L').
    apply Forall2_repeat_r. intros x Hx.
    rewrite in_map_iff in Hx. destruct Hx as (x0 & <- & _). apply Rmin_l.
Qed.

(* ================================================================== *)
(** ** [constrain] on finite symmetric tensors *)
(* ================================================================== *)

Lemma nan_scan_Fin (idx : list nat) (B : list R) :
  (forall k, In k idx -> (k < length B)%nat) ->
  nan_scan idx (map Fin B) = ret false.
Proof.
  induction idx as [| i idx IH]; intros Hbound; [reflexivity |].
  cbn [nan_scan].
  rewrite (@read_at_nth _ i (map Fin B) (Fin 0))
    by (rewrite length_map; apply Hbound; left; reflexivity).
  rewrite bind_ret_l, nth_Fin. cbn [Real.isnan].
  apply IH. intros k Hk. apply Hbound. right. exact Hk.
Qed.

(** [constrain] on finite symmetric matrices, past the NaN scan and the
    buffer accesses. *)
Lemma constrain_finite (order : StorageOrder)
  (EigenSolver : nat -> list real_t -> list real_t * list real_t)
  (d : nat) (A B : list R) (p : bool) :
  (d = 2 \/ d = 3)%nat ->
  length A = (d * d)%nat -> length B = (d * d)%nat ->
  symmetric d A -> symmetric d B ->
  let self := {| _metric := Some (map Fin A); _dimension := Z.of_nat d |} in
  constrain order EigenSolver self (map Fin B) p
  = if isZero (map Fin B) then ret self
    else
      let '(Mr, Mi) :=
        if Real.gtb
             (aspect d (map Real.abs (fst (EigenSolver d (map Fin B)))))
             (aspect d (map Real.abs (fst (EigenSolver d (map Fin A)))))
        then (B, A) else (A, B) in
      ret {| _metric :=
               Some (to_storage order d
                       (superpose EigenSolver d p (map Fin Mr) (map Fin Mi)));
             _dimension := Z.of_nat d |}.
Proof.
  intros Hd HA HB HsA HsB self. unfold constrain, self.
  cbn [_dimension]. rewrite Nat2Z.id.
  rewrite nan_scan_Fin
    by (intros k Hk; apply upper_indices_bound in Hk; lia).
  rewrite bind_ret_l. cbv beta iota.
  assert (HlA : length (map Fin A) = (d * d)%nat)
    by (rewrite length_map; exact HA).
  assert (HlB : length (map Fin B) = (d * d)%nat)
    by (rewrite length_map; exact HB).
  assert (Hst : forall X : list R, symmetric d X ->
            to_storage order d (map Fin X) = map Fin X).
  { intros X HX. rewrite to_storage_Fin, (to_storage_symmetric order HX).
    reflexivity. }
  unfold set.
  destruct Hd; subst d.
  - change (int_of_size_t (Z.of_nat 2)) with 2%Z.
    change (size_t_of_int 2) with 2%Z. change (Z.of_nat 2) with 2%Z.
    rewrite square_count_2.
    rewrite read_prefix_exact by exact HlB. rewrite !bind_ret_l.
    cbn [buffer _metric]. rewrite !bind_ret_l.
    unfold choose_reference, aspect. cbn [Z.eqb Pos.eqb Nat.eqb].
    rewrite !read_prefix_exact by assumption. rewrite !bind_ret_l.
    destruct (isZero (map Fin B)); [rewrite bind_ret_l; reflexivity |].
    destruct (Real.gtb _ _); rewrite bind_ret_l;
      rewrite !read_prefix_exact by assumption; rewrite !bind_ret_l;
      (rewrite read_prefix_exact
         by (apply length_to_storage, length_superpose));
      rewrite bind_ret_l;
      (rewrite write_prefix_exact
         by (rewrite length_to_storage by apply length_superpose;
             rewrite HlA; reflexivity));
      rewrite bind_ret_l; reflexivity.
  - change (int_of_size_t (Z.of_nat 3)) with 3%Z.
    change (size_t_of_int 3) with 3%Z. change (Z.of_nat 3) with 3%Z.
    rewrite square_count_3.
    rewrite read_prefix_exact by exact HlB. rewrite !bind_ret_l.
    cbn [buffer _metric]. rewrite !bind_ret_l.
    unfold choose_reference, aspect. cbn [Z.eqb Pos.eqb Nat.eqb].
    rewrite !read_prefix_exact by assumption. rewrite !bind_ret_l.
    rewrite !Hst by assumption.
    destruct (isZero (map Fin B)); [rewrite bind_ret_l; reflexivity |].
    destruct (Real.gtb _ _); rewrite bind_ret_l;
      rewrite !read_prefix_exact by assumption; rewrite !bind_ret_l;
      (rewrite read_prefix_exact
         by (apply length_to_storage, length_superpose));
      rewrite bind_ret_l;
      (rewrite write_prefix_exact
         by (rewrite length_to_storage by apply length_superpose;
             rewrite HlA; reflexivity));
      rewrite bind_ret_l; reflexivity.
Qed.

Lemma product_positive (s : list R) :
  Forall (fun x => 0 < x) s -> 0 < fold_right Rmult 1 s.
Proof.
  induction 1 as [| x s Hx _ IH]; cbn [fold_right]; [lra |].
  apply Rmult_lt_0_compat; assumption.
Qed.

Lemma Forall_sqrt_positive (L : list R) :
  Forall (fun x => 0 < x) L ->
  Forall (fun x => 0 < x) (map sqrt (map Rabs L)).
Proof.
  induction 1 as [| x L Hx _ IH]; cbn [map]; constructor; [| exact IH].
  apply sqrt_lt_R0. rewrite Rabs_pos_eq; lra.
Qed.

Lemma squares_of_roots (L : list R) :
  Forall (fun x => 0 < x) L ->
  map (fun x => x * x) (map sqrt (map Rabs L)) = L.
Proof.
  induction 1 as [| x L Hx _ IH]; cbn [map]; [reflexivity |].
  rewrite IH, Rabs_pos_eq, sqrt_sqrt by lra. reflexivity.
Qed.

Lemma positive_definite_nonneg (n : nat) (A : list R) :
  (n = 2 \/ n = 3)%nat -> length A = (n * n)%nat ->
  positive_definite n A ->
  forall v, length v = n -> 0 <= qform n A v.
Proof.
  intros Hd HA (_ & Hpd) v Hv.
  destruct (Rle_lt_dec (dot n v v) 0) as [Hz | Hpos];
    [| left; apply Hpd; assumption].
  assert (Hv0 : v = repeat 0 n).
  { destruct Hd; subst n; explode_all; cbn in Hz; entrywise; nra. }
  subst v. destruct Hd; subst n; explode_all; cbn; lra.
Qed.

(** [superpose] on two positive definite matrices: the result bounds the
    mapped tensor and the Gram matrix [F^T F] of the factor of the
    reference, which is [E^T diag(L) E] for the eigensystem [(L, E)] that
    the solver gives for the reference. *)
Lemma superpose_bounds
  (EigenSolver : nat -> list real_t -> list real_t * list real_t)
  (n : nat) (p : bool) (Mr Mi : list R) :
  (n = 2 \/ n = 3)%nat ->
  length Mr = (n * n)%nat -> length Mi = (n * n)%nat ->
  positive_definite n Mr -> positive_definite n Mi ->
  eigen_contract EigenSolver n ->
  exists C L E,
    superpose EigenSolver n p (map Fin Mr) (map Fin Mi) = map Fin C
    /\ length C = (n * n)%nat
    /\ solves EigenSolver n Mr L E
    /\ forall v, length v = n ->
         if p
         then qform n Mi v <= qform n C v
              /\ qform n (spectral n (transpose n E) L) v <= qform n C v
         else qform n C v <= qform n Mi v
              /\ qform n C v <= qform n (spectral n (transpose n E) L) v.
Proof.
  intros Hd HMr HMi HpdR HpdI Hcontract.
  destruct (Hcontract Mr HMr (proj1 HpdR)) as (L & E & Hsolve).
  pose proof Hsolve as (Hrun & Hsys).
  pose proof Hsys as (HL & HE & _ & Hort).
  pose proof (eigenvalues_positive Hd HMr HpdR Hsys) as Hpos.
  set (s := map sqrt (map Rabs L)).
  assert (Hs : length s = n) by (unfold s; rewrite !length_map; exact HL).
  set (F := diag_mul_l n s E).
  assert (HF : length F = (n * n)%nat) by apply length_tabulate.
  assert (Hdet : determinant n F <> 0).
  { unfold F. rewrite determinant_diag_mul_l by assumption.
    apply Rmult_integral_contrapositive_currified.
    - apply Rgt_not_eq, Rlt_gt, product_positive, Forall_sqrt_positive, Hpos.
    - apply orthogonal_determinant; assumption. }
  set (M := mmul n (mmul n (transpose n (inverse n F)) Mi) (inverse n F)).
  assert (HM : length M = (n * n)%nat) by apply length_tabulate.
  assert (HsM : symmetric n M).
  { apply congruence_symmetric; try assumption;
      [apply length_inverse; assumption | exact (proj1 HpdI)]. }
  destruct (Hcontract M HM HsM) as (L' & W & Hrun' & Hsys').
  exists (superposed n p F L' W), L, E.
  split; [| split; [apply length_tabulate | split; [exact Hsolve |]]].
  - apply (@superpose_finite EigenSolver n p Mr Mi L E F M L' W);
      try assumption; reflexivity.
  - intros v Hv.
    pose proof (@superposed_bounds n p Mi F L' W Hd HMi HF Hdet
                  (positive_definite_nonneg Hd HMi HpdI) Hsys' v Hv) as Hb.
    assert (Hgram : mmul n (transpose n F) F = spectral n (transpose n E) L).
    { unfold F. rewrite gram_of_scaled_rows by assumption.
      unfold s. rewrite squares_of_roots by exact Hpos. reflexivity. }
    rewrite Hgram in Hb. exact Hb.
Qed.

Lemma positive_definite_not_zero (n : nat) (B : list R) :
  (n = 2 \/ n = 3)%nat -> length B = (n * n)%nat ->
  positive_definite n B -> isZero (map Fin B) = false.
Proof.
  intros Hd HB (_ & Hpd).
  destruct (isZero (map Fin B)) eqn:Hz; [| reflexivity].
  apply isZero_Fin_true in Hz. rewrite HB in Hz.
  assert (H1 : 0 < qform n B (repeat 1 n)).
  { apply Hpd; [apply repeat_length |].
    destruct Hd; subst n; cbn; lra. }
  rewrite Hz in H1. destruct Hd; subst n; cbn in H1; lra.
Qed.

Lemma qform_to_storage (order : StorageOrder) (n : nat) (A v : list R) :
  (n = 2 \/ n = 3)%nat -> length A = (n * n)%nat -> length v = n ->
  qform n (to_storage order n A) v = qform n A v.
Proof.
  intros Hd HA Hv. destruct order; [reflexivity |].
  apply qform_transpose; assumption.
Qed.

Lemma example_solver_contract_2 : eigen_contract example_solver 2.
Proof.
  intros X HX Hsym. explode_all. unfold symmetric in Hsym. cbn in Hsym.
  injection Hsym as H1 H2. subst.
  match goal with
  | |- exists L E, solves _ _ [?a; ?c; _; ?d] L E =>
      exact (example_solver_solves_2 a c d)
  end.
Qed.

Lemma positive_definite_example (a d : R) :
  0 < a -> 0 < d -> positive_definite 2 [a; 0; 0; d].
Proof.
  intros Ha Hd. split; [reflexivity |].
  intros v Hv Hpos. explode_all. cbn in *. 
  match goal with
  | |- 0 < ?e => replace e with (a * (r * r) + d * (r0 * r0)) by ring
  end.
  assert (0 <= r * r) by nra. assert (0 <= r0 * r0) by nra.
  assert (0 < r * r \/ 0 < r0 * r0) as [H1 | H1] by nra; nra.
Qed.

Lemma schur2_diagonal (a d : R) :
  schur2 (map Fin [a; 0; 0; d]) = (map Fin [a; d], map Fin [1; 0; 0; 1]).
Proof. exact (proj1 (example_solver_diagonal_2 a d)). Qed.

(** Scenario S5: [A = diag(4, 1)] constrained by [B = diag(1, 4)] with
    small edges preserved stores [diag(4, 4)], under either storage
    order. *)
Example constrain_S5 (order : StorageOrder) :
  constrain order example_solver
    {| _metric := Some (map Fin [4; 0; 0; 1]); _dimension := 2 |}
    (map Fin [1; 0; 0; 4]) true
  = ret {| _metric := Some (map Fin [4; 0; 0; 4]); _dimension := 2 |}.
Proof.
  cbn [map]. rewrite constrain_2 by reflexivity.
  change [Fin 4; Fin 0; Fin 0; Fin 1] with (map Fin [4; 0; 0; 1]).
  change [Fin 1; Fin 0; Fin 0; Fin 4] with (map Fin [1; 0; 0; 4]).
  replace (isZero (map Fin [1; 0; 0; 4]))
    with false by (cbn; rewrite Reqb0_false by lra; reflexivity).
  unfold example_solver at 1 2. cbn [Nat.eqb].
  rewrite !schur2_diagonal. cbn [fst].
  replace (Real.gtb (aspect2 (map Real.abs (map Fin [1; 4])))
                    (aspect2 (map Real.abs (map Fin [4; 1]))))
    with false.
  2:{ cbn. rewrite !Rabs_pos_eq by lra.
      unfold aspect2. cbn [nth]. rewrite !std_min_Fin, !std_max_Fin.
      rewrite Rmin_left, Rmax_right, Rmin_right, Rmax_left by lra.
      rewrite !div_Fin by lra. unfold Real.gtb. cbn.
      rewrite Rltb_false by lra. reflexivity. }
  rewrite (@superpose_finite example_solver 2 true
             [4; 0; 0; 1] [1; 0; 0; 4]
             [4; 1] [1; 0; 0; 1]
             [2; 0; 0; 1] [1/4; 0; 0; 4]
             [1/4; 4] [1; 0; 0; 1]).
  - unfold ret. do 3 f_equal.
    replace (mmul _ _ _) with [4; 0; 0; 4].
    { destruct order; reflexivity. }
    cbn. rewrite (Rabs_pos_eq (1/4)), (Rabs_pos_eq 4) by lra.
    rewrite Rmax_left, Rmax_right by lra. entrywise; ring.
  - apply schur2_diagonal.
  - cbn. rewrite !Rabs_pos_eq by lra.
    rewrite (@sqrt_eq 4 2), sqrt_1 by lra.
    entrywise; field.
  - cbn. lra.
  - cbn. entrywise; field.
  - apply schur2_diagonal.
Qed.

(* ================================================================== *)
(** ** [positive_definiteness] on semi-definite tensors *)
(* ================================================================== *)

(** On a symmetric positive semi-definite matrix with an orthonormal
    eigensystem [E |L| E^T] is the matrix itself. *)
Lemma positive_definiteness_fixed_point
  (order : StorageOrder)
  (EigenSolver : nat -> list real_t -> list real_t * list real_t)
  (d : nat) (A L E : list R) :
  (d = 2 \/ d = 3)%nat ->
  length A = (d * d)%nat ->
  positive_semidefinite d A ->
  solves EigenSolver d A L E ->
  positive_definiteness order EigenSolver (Z.of_nat d) (map Fin A)
  = ret (map Fin A).
Proof.
  intros Hd HA (Hsym & Hpsd) (Hrun & Hsys).
  rewrite (@positive_definiteness_finite order EigenSolver d A L E Hd HA Hrun).
  destruct (isZero (map Fin A)); [reflexivity |].
  rewrite (map_Rabs_nonneg (eigenvalues_nonneg Hd HA Hpsd Hsys)).
  rewrite <- (eigen_system_spectral Hd HA Hsys).
  rewrite (to_storage_symmetric order Hsym). reflexivity.
Qed.

(** [positive_definiteness] is the identity on symmetric positive
    semi-definite tensors, under either storage order. *)
Theorem positive_definiteness_fixes_semidefinite
  (order : StorageOrder)
  (EigenSolver : nat -> list real_t -> list real_t * list real_t)
  (d : nat) (A L E : list R) :
  (d = 2 \/ d = 3)%nat ->
  length A = (d * d)%nat ->
  positive_semidefinite d A ->
  solves EigenSolver d A L E ->
  positive_definiteness order EigenSolver (Z.of_nat d) (map Fin A)
  = ret (map Fin A).
Proof. exact (@positive_definiteness_fixed_point order EigenSolver d A L E). Qed.

Lemma positive_semidefinite_example (a d : R) :
  0 <= a -> 0 <= d -> positive_semidefinite 2 (diagonal_matrix 2 [a; d]).
Proof.
  intros Ha Hd. split; [reflexivity |].
  intros v Hv. explode_all. cbn.
  match goal with
  | |- 0 <= ?e => replace e with (a * (r * r) + d * (r0 * r0)) by ring
  end.
  pose proof (sqr_nonneg r). pose proof (sqr_nonneg r0). nra.
Qed.

Lemma positive_definiteness_fixes_semidefinite_witness :
  positive_definiteness ColMajor example_solver (Z.of_nat 2)
    (map Fin (diagonal_matrix 2 [4; 0]))
  = ret (map Fin (diagonal_matrix 2 [4; 0])).
Proof.
  apply (@positive_definiteness_fixes_semidefinite ColMajor example_solver 2
           (diagonal_matrix 2 [4; 0]) [4; 0] [1; 0; 0; 1]).
  - left; reflexivity.
  - reflexivity.
  - apply positive_semidefinite_example; lra.
  - apply example_solver_diagonal_2.
Defined.

(** [positive_definiteness] is idempotent on finite symmetric tensors:
    what it stores is positive semi-definite, and a second call changes
    nothing. *)
Theorem positive_definiteness_is_idempotent
  (order : StorageOrder)
  (EigenSolver : nat -> list real_t -> list real_t * list real_t)
  (d : nat) (A : list R) :
  (d = 2 \/ d = 3)%nat ->
  length A = (d * d)%nat ->
  symmetric d A ->
  eigen_contract EigenSolver d ->
  exists P : list R,
    positive_definiteness order EigenSolver (Z.of_nat d) (map Fin A)
    = ret (map Fin P)
    /\ positive_semidefinite d P
    /\ (m <- positive_definiteness order EigenSolver (Z.of_nat d)
               (map Fin A) ;;
        positive_definiteness order EigenSolver (Z.of_nat d) m)
       = ret (map Fin P).
Proof.
  intros Hd HA Hsym Hcontract.
  destruct (Hcontract A HA Hsym) as (L & E & Hrun & Hsys).
  pose proof Hsys as (HL & HE & _).
  assert (HR : length (map Rabs L) = d) by (rewrite length_map; exact HL).
  assert (Hfirst : exists P,
    positive_definiteness order EigenSolver (Z.of_nat d) (map Fin A)
    = ret (map Fin P)
    /\ length P = (d * d)%nat /\ positive_semidefinite d P).
  { rewrite (@positive_definiteness_finite order EigenSolver d A L E
               Hd HA Hrun).
    destruct (isZero (map Fin A)) eqn:Hz.
    - exists A. split; [reflexivity |]. split; [exact HA |].
      split; [exact Hsym |]. intros v Hv.
      apply isZero_Fin_true in Hz. rewrite HA in Hz. rewrite Hz.
      destruct Hd; subst d; explode_all; cbn; lra.
    - exists (spectral d E (map Rabs L)).
      pose proof (@spectral_symmetric d E (map Rabs L) Hd HE HR) as Hs.
      rewrite (to_storage_symmetric order Hs).
      split; [reflexivity |]. split; [apply length_spectral |].
      split; [exact Hs |]. intros v Hv.
      rewrite (@qform_spectral d E (map Rabs L) v Hd HE HR Hv).
      apply weighted_squares_nonneg;
        [exact Hd | exact HR | apply Forall_Rabs]. }
  destruct Hfirst as (P & HrunP & HP & Hpsd).
  exists P. split; [exact HrunP |]. split; [exact Hpsd |].
  rewrite HrunP, bind_ret_l.
  destruct (Hcontract P HP (proj1 Hpsd)) as (L' & E' & Hsolve').
  exact (@positive_definiteness_fixed_point order EigenSolver d P L' E'
           Hd HP Hpsd Hsolve').
Qed.

Lemma positive_definiteness_is_idempotent_witness :
  exists P : list R,
    positive_definiteness ColMajor example_solver (Z.of_nat 2)
      (map Fin [1; 2; 2; -2])
    = ret (map Fin P)
    /\ positive_semidefinite 2 P
    /\ (m <- positive_definiteness ColMajor example_solver (Z.of_nat 2)
               (map Fin [1; 2; 2; -2]) ;;
        positive_definiteness ColMajor example_solver (Z.of_nat 2) m)
       = ret (map Fin P).
Proof.
  apply (@positive_definiteness_is_idempotent ColMajor example_solver 2
           [1; 2; 2; -2]).
  - left; reflexivity.
  - reflexivity.
  - reflexivity.
  - exact example_solver_contract_2.
Defined.

(* ================================================================== *)
(** ** [set_metric], [get_metric] and [positive_definiteness_iso] *)
(* ================================================================== *)

(** [set_metric] followed by [get_metric] hands back a symmetric positive
    semi-definite input unchanged, on a default-constructed object and on
    one that already holds a tensor of the same dimension. *)
Theorem set_metric_get_metric_round_trip
  (order : StorageOrder)
  (EigenSolver : nat -> list real_t -> list real_t * list real_t)
  (d : nat) (A L E : list R) (self : MetricTensor) (out : list real_t) :
  (d = 2 \/ d = 3)%nat ->
  length A = (d * d)%nat ->
  positive_semidefinite d A ->
  solves EigenSolver d A L E ->
  _metric self = None
  \/ (exists buf, _metric self = Some buf /\ length buf = (d * d)%nat
                  /\ _dimension self = Z.of_nat d) ->
  length out = (d * d)%nat ->
  (t <- set_metric order EigenSolver self (Z.of_nat d) (map Fin A) ;;
   get_metric t out)
  = ret (map Fin A).
Proof.
  intros Hd HA Hpsd Hsolve Hself Hout.
  assert (Hdz : (0 <= Z.of_nat d < 2147483648)%Z) by (destruct Hd; subst d; lia).
  assert (Hsq : square_count (Z.of_nat d) = (d * d)%nat).
  { destruct Hd; subst d; [apply square_count_2 | apply square_count_3]. }
  assert (HlA : length (map Fin A) = (d * d)%nat)
    by (rewrite length_map; exact HA).
  assert (Hset : set_metric order EigenSolver self (Z.of_nat d) (map Fin A)
                 = ret {| _metric := Some (map Fin A);
                          _dimension := Z.of_nat d |}).
  { unfold set_metric. rewrite size_t_of_int_small by exact Hdz.
    destruct Hself as [Hnone | (buf & Hsome & Hbuf & Hdim)].
    - rewrite Hnone, bind_ret_l. cbv beta iota. rewrite Hsq.
      rewrite read_prefix_exact by exact HlA. rewrite bind_ret_l.
      rewrite write_prefix_exact by (rewrite repeat_length; exact HlA).
      rewrite bind_ret_l, int_of_size_t_small by exact Hdz.
      rewrite (positive_definiteness_fixed_point order Hd HA Hpsd Hsolve).
      rewrite bind_ret_l. reflexivity.
    - rewrite Hsome, Hdim, Z.eqb_refl. cbn [negb].
      rewrite bind_ret_l. cbv beta iota. rewrite Hsq.
      rewrite read_prefix_exact by exact HlA. rewrite bind_ret_l.
      rewrite write_prefix_exact by (rewrite Hbuf; exact HlA).
      rewrite bind_ret_l, int_of_size_t_small by exact Hdz.
      rewrite (positive_definiteness_fixed_point order Hd HA Hpsd Hsolve).
      rewrite bind_ret_l. reflexivity. }
  rewrite Hset, bind_ret_l. unfold get_metric. cbn [_dimension _metric buffer].
  rewrite Hsq.
  replace (d * d =? 0)%nat with false
    by (symmetry; apply Nat.eqb_neq; destruct Hd; subst d; discriminate).
  rewrite bind_ret_l, read_prefix_exact by exact HlA.
  rewrite bind_ret_l. apply write_prefix_exact. rewrite Hout. exact HlA.
Qed.

Lemma set_metric_get_metric_round_trip_witness :
  (t <- set_metric ColMajor example_solver default_MetricTensor (Z.of_nat 2)
          (map Fin (diagonal_matrix 2 [4; 0])) ;;
   get_metric t (repeat (Fin 0) 4))
  = ret (map Fin (diagonal_matrix 2 [4; 0])).
Proof.
  apply (@set_metric_get_metric_round_trip ColMajor example_solver 2
           (diagonal_matrix 2 [4; 0]) [4; 0] [1; 0; 0; 1]).
  - left; reflexivity.
  - reflexivity.
  - apply positive_semidefinite_example; lra.
  - apply example_solver_diagonal_2.
  - left; reflexivity.
  - reflexivity.
Defined.

(** Outside dimension 2 [positive_definiteness_iso] is
    [positive_definiteness]: its second branch clamps nothing. *)
Theorem positive_definiteness_iso_outside_2d
  (order : StorageOrder)
  (EigenSolver : nat -> list real_t -> list real_t * list real_t)
  (dimension : Z) (metric : list real_t) :
  dimension <> 2%Z ->
  positive_definiteness_iso order EigenSolver dimension metric
  = positive_definiteness order EigenSolver dimension metric.
Proof.
  intros Hd. unfold positive_definiteness_iso, positive_definiteness.
  destruct (Z.eqb_spec dimension 2) as [Heq | _]; [contradiction |].
  reflexivity.
Qed.

Lemma positive_definiteness_iso_outside_2d_witness :
  positive_definiteness_iso ColMajor example_solver 3
    (map Fin (diagonal_matrix 3 [1; -2; 3]))
  = positive_definiteness ColMajor example_solver 3
      (map Fin (diagonal_matrix 3 [1; -2; 3])).
Proof.
  apply (@positive_definiteness_iso_outside_2d ColMajor example_solver 3).
  discriminate.
Defined.

Lemma zero_eigenvalues (n : nat) (A L E : list R) :
  (n = 2 \/ n = 3)%nat -> A = repeat 0 (n * n) ->
  eigen_system n A L E -> L = repeat 0 n.
Proof.
  intros Hd HA Hsys.
  assert (HlA : length A = (n * n)%nat) by (rewrite HA; apply repeat_length).
  pose proof Hsys as (HL & _).
  assert (Hk : forall k, (k < n)%nat -> nth k L 0 = 0).
  { intros k Hk. rewrite (eigenvalue_is_qform Hd HlA Hsys Hk).
    pose proof (length_column n E k) as Hc. rewrite HA.
    destruct Hd; subst n; explode_all; cbn; ring. }
  destruct Hd; subst n; explode_all.
  - pose proof (Hk 0%nat ltac:(lia)) as H0.
    pose proof (Hk 1%nat ltac:(lia)) as H1. cbn in H0, H1. subst.
    reflexivity.
  - pose proof (Hk 0%nat ltac:(lia)) as H0.
    pose proof (Hk 1%nat ltac:(lia)) as H1.
    pose proof (Hk 2%nat ltac:(lia)) as H2. cbn in H0, H1, H2. subst.
    reflexivity.
Qed.

(** In dimension 2 [positive_definiteness_iso] stores the isotropic tensor
    [m I], where [m] is the smaller of the absolute eigenvalues of the
    input. *)
Theorem positive_definiteness_iso_is_isotropic
  (order : StorageOrder)
  (EigenSolver : nat -> list real_t -> list real_t * list real_t)
  (A L E : list R) :
  length A = 4%nat ->
  solves EigenSolver 2 A L E ->
  let m := Rmin (Rabs (nth 0 L 0)) (Rabs (nth 1 L 0)) in
  positive_definiteness_iso order EigenSolver 2 (map Fin A)
  = ret (map Fin (diagonal_matrix 2 [m; m])).
Proof.
  intros HA (Hrun & Hsys) m.
  pose proof Hsys as (HL & HE & _ & (_ & Hort)).
  destruct (isZero (map Fin A)) eqn:Hz.
  - pose proof (isZero_Fin_true _ Hz) as HA0. rewrite HA in HA0.
    assert (HL0 : L = repeat 0 2)
      by (apply (@zero_eigenvalues 2 A L E); [left; reflexivity | exact HA0 | exact Hsys]).
    assert (Hm : m = 0).
    { unfold m. rewrite HL0. cbn. rewrite Rabs_R0. apply Rmin_diag. }
    rewrite Hm, HA0. cbn.
    rewrite Reqb0_true by reflexivity. reflexivity.
  - destruct A as [| a0 [| a1 [| a2 [| a3 [| ? ?]]]]]; try discriminate HA.
    destruct L as [| l0 [| l1 [| ? ?]]]; try discriminate HL.
    destruct E as [| e0 [| e1 [| e2 [| e3 [| ? ?]]]]]; try discriminate HE.
    unfold positive_definiteness_iso. cbn [Z.eqb Pos.eqb map].
    change [Fin a0; Fin a1; Fin a2; Fin a3] with (map Fin [a0; a1; a2; a3]).
    rewrite Hz, Hrun. cbn [fst snd map nth Real.abs].
    rewrite std_min_Fin. cbn [nth] in m. fold m.
    change [Fin m; Fin m] with (map Fin [m; m]).
    change [Fin e0; Fin e1; Fin e2; Fin e3] with (map Fin [e0; e1; e2; e3]).
    rewrite recompose_Fin, to_storage_Fin, app_nil_r.
    unfold ret. do 2 f_equal.
    assert (Hiso : spectral 2 [e0; e1; e2; e3] [m; m]
                   = diagonal_matrix 2 [m; m]).
    { cbn in Hort. injection Hort as H00 H01 H10 H11.
      cbn. clearbody m. entrywise.
      - transitivity (m * (e0 * e0 + e1 * e1)); [ring | rewrite H00; ring].
      - transitivity (m * (e0 * e2 + e1 * e3)); [ring | rewrite H01; ring].
      - transitivity (m * (e2 * e0 + e3 * e1)); [ring | rewrite H10; ring].
      - transitivity (m * (e2 * e2 + e3 * e3)); [ring | rewrite H11; ring]. }
    rewrite Hiso. destruct order; reflexivity.
Qed.

Lemma positive_definiteness_iso_is_isotropic_witness :
  positive_definiteness_iso ColMajor example_solver 2
    (map Fin [73; 36; 36; 52])
  = ret (map Fin (diagonal_matrix 2
                    [Rmin (Rabs 100) (Rabs 25); Rmin (Rabs 100) (Rabs 25)])).
Proof.
  apply (@positive_definiteness_iso_is_isotropic ColMajor example_solver
           [73; 36; 36; 52] [100; 25] [4/5; -(3/5); 3/5; 4/5]).
  - reflexivity.
  - exact example_solves.
Defined.

(* ================================================================== *)
(** ** [set], [get_metric] and [operator=] *)
(* ================================================================== *)

Lemma square_count_small (d : Z) :
  (0 <= d < 2147483648)%Z ->
  square_count (size_t_of_int d) = Z.to_nat (d * d).
Proof.
  intros Hd. rewrite size_t_of_int_small by exact Hd.
  unfold square_count, size_t_modulus. rewrite Z.mod_small by nia.
  reflexivity.
Qed.

Lemma read_prefix_enough {T} (k : nat) (buf : list T) :
  (k <= length buf)%nat -> read_prefix k buf = ret (firstn k buf).
Proof.
  intros Hk. unfold read_prefix.
  destruct (Nat.ltb_spec (length buf) k); [lia | reflexivity].
Qed.

Lemma read_prefix_short {T} (k : nat) (buf : list T) :
  (length buf < k)%nat -> read_prefix k buf = Undefined.
Proof.
  intros Hk. unfold read_prefix.
  destruct (Nat.ltb_spec (length buf) k); [reflexivity | lia].
Qed.

Lemma write_prefix_enough {T} (src buf : list T) :
  (length src <= length buf)%nat ->
  write_prefix src buf = ret (src ++ skipn (length src) buf).
Proof.
  intros Hk. unfold write_prefix.
  destruct (Nat.ltb_spec (length buf) (length src)); [lia | reflexivity].
Qed.

Lemma write_prefix_short {T} (src buf : list T) :
  (length buf < length src)%nat -> write_prefix src buf = Undefined.
Proof.
  intros Hk. unfold write_prefix.
  destruct (Nat.ltb_spec (length buf) (length src)); [reflexivity | lia].
Qed.

(** What [get_metric] copies out of an object that holds at least
    [_dimension * _dimension] values. *)
Lemma get_metric_copies (buf out : list real_t) (d : Z) :
  (square_count d <= length buf)%nat ->
  (square_count d <= length out)%nat ->
  get_metric {| _metric := Some buf; _dimension := d |} out
  = ret (firstn (square_count d) buf ++ skipn (square_count d) out).
Proof.
  intros Hbuf Hout. unfold get_metric. cbn [_dimension _metric buffer].
  destruct (Nat.eqb_spec (square_count d) 0) as [H0 | Hn].
  - rewrite bind_ret_l, H0. reflexivity.
  - rewrite bind_ret_l, read_prefix_enough by exact Hbuf.
    rewrite bind_ret_l.
    rewrite write_prefix_enough by (rewrite length_firstn; lia).
    rewrite length_firstn, Nat.min_l by exact Hbuf. reflexivity.
Qed.

(** [set] followed by [get_metric] copies the first
    [dimension * dimension] values of the input into the caller's buffer
    and leaves the rest of that buffer alone, whatever the object held
    before.  The count is taken in [size_t]; for a dimension that is not
    negative it is the square. *)
Theorem set_get_metric_round_trip
  (self : MetricTensor) (dimension : Z) (metric out : list real_t) :
  let n := square_count (size_t_of_int dimension) in
  (n <= length metric)%nat -> (n <= length out)%nat ->
  (t <- set self dimension metric ;; get_metric t out)
  = ret (firstn n metric ++ skipn n out)
  /\ ((0 <= dimension < 2147483648)%Z ->
      n = Z.to_nat (dimension * dimension)).
Proof.
  intros n Hm Hout. split; [| apply square_count_small].
  unfold set. fold n.
  rewrite read_prefix_enough by exact Hm. rewrite !bind_ret_l.
  rewrite get_metric_copies; fold n.
  - rewrite firstn_firstn, Nat.min_id. reflexivity.
  - rewrite length_firstn. lia.
  - exact Hout.
Qed.

Lemma set_get_metric_round_trip_witness :
  (t <- set default_MetricTensor 2 [Fin 1; Fin 2; Fin 3; Fin 4; Fin 5] ;;
   get_metric t [NaN; NaN; NaN; NaN; NaN; NaN])
  = ret (firstn (square_count (size_t_of_int 2))
           [Fin 1; Fin 2; Fin 3; Fin 4; Fin 5]
         ++ skipn (square_count (size_t_of_int 2))
              [NaN; NaN; NaN; NaN; NaN; NaN])
  /\ ((0 <= 2 < 2147483648)%Z ->
      square_count (size_t_of_int 2) = Z.to_nat (2 * 2)).
Proof.
  apply (@set_get_metric_round_trip default_MetricTensor 2
           [Fin 1; Fin 2; Fin 3; Fin 4; Fin 5]
           [NaN; NaN; NaN; NaN; NaN; NaN]).
  - vm_compute. lia.
  - vm_compute. lia.
Defined.

(** [operator=] into an object without a buffer yields a copy: the same
    dimension, and [get_metric] gives what it gives on the original. *)
Theorem assign_into_default_copies
  (self : MetricTensor) (buf : list real_t) (d : Z) :
  _metric self = None ->
  (square_count d <= length buf)%nat ->
  let other := {| _metric := Some buf; _dimension := d |} in
  exists t,
    assign self other = ret t
    /\ _dimension t = d
    /\ forall out, get_metric t out = get_metric other out.
Proof.
  intros Hnone Hbuf other.
  exists {| _metric := Some (firstn (square_count d) buf); _dimension := d |}.
  split; [| split; [reflexivity |]].
  - unfold assign, other. cbn [_dimension _metric buffer]. rewrite Hnone.
    destruct (Nat.eqb_spec (square_count d) 0) as [H0 | Hn].
    + rewrite bind_ret_l, H0. reflexivity.
    + rewrite bind_ret_l, read_prefix_enough by exact Hbuf.
      rewrite bind_ret_l.
      rewrite write_prefix_exact
        by (rewrite length_firstn, repeat_length; lia).
      rewrite bind_ret_l. reflexivity.
  - intros out. unfold get_metric, other. cbn [_dimension _metric buffer].
    destruct (Nat.eqb_spec (square_count d) 0) as [H0 | Hn]; [reflexivity |].
    rewrite !bind_ret_l.
    rewrite (@read_prefix_enough _ (square_count d) buf Hbuf).
    rewrite read_prefix_exact; [reflexivity |].
    rewrite length_firstn. lia.
Qed.

Lemma assign_into_default_copies_witness :
  exists t,
    assign default_MetricTensor
      {| _metric := Some [Fin 1; Fin 2; Fin 2; Fin 5]; _dimension := 2 |}
    = ret t
    /\ _dimension t = 2%Z
    /\ forall out,
         get_metric t out
         = get_metric
             {| _metric := Some [Fin 1; Fin 2; Fin 2; Fin 5];
                _dimension := 2 |} out.
Proof.
  apply (@assign_into_default_copies default_MetricTensor
           [Fin 1; Fin 2; Fin 2; Fin 5] 2).
  - reflexivity.
  - vm_compute. lia.
Defined.

(** [operator=] never allocates when the object already has a buffer: a
    buffer too short for the assigned tensor is overrun, and a buffer that
    is long enough keeps its length while the dimension changes. *)
Theorem assign_keeps_allocation
  (self : MetricTensor) (mine buf : list real_t) (d : Z) :
  _metric self = Some mine ->
  (square_count d <= length buf)%nat ->
  let other := {| _metric := Some buf; _dimension := d |} in
  ((length mine < square_count d)%nat -> assign self other = Undefined)
  /\ ((square_count d <= length mine)%nat ->
      exists m,
        assign self other = ret {| _metric := Some m; _dimension := d |}
        /\ length m = length mine
        /\ firstn (square_count d) m = firstn (square_count d) buf).
Proof.
  intros Hsome Hbuf other. unfold assign, other.
  cbn [_dimension _metric buffer]. rewrite Hsome. split.
  - intros Hshort.
    destruct (Nat.eqb_spec (square_count d) 0) as [H0 | Hn]; [lia |].
    rewrite bind_ret_l, read_prefix_enough by exact Hbuf.
    rewrite bind_ret_l.
    rewrite write_prefix_short by (rewrite length_firstn; lia).
    reflexivity.
  - intros Hroom.
    exists (firstn (square_count d) buf ++ skipn (square_count d) mine).
    assert (Hlen : length (firstn (square_count d) buf) = square_count d)
      by (rewrite length_firstn; lia).
    split; [| split].
    + destruct (Nat.eqb_spec (square_count d) 0) as [H0 | Hn].
      * rewrite bind_ret_l, H0. reflexivity.
      * rewrite bind_ret_l, read_prefix_enough by exact Hbuf.
        rewrite bind_ret_l, write_prefix_enough by lia.
        rewrite bind_ret_l, Hlen. reflexivity.
    + rewrite length_app, Hlen, length_skipn. lia.
    + rewrite firstn_app, Hlen, Nat.sub_diag, firstn_O, app_nil_r.
      rewrite firstn_firstn, Nat.min_id. reflexivity.
Qed.

Lemma assign_keeps_allocation_witness :
  ((length [Fin 1; Fin 0; Fin 0; Fin 1] < square_count 3)%nat ->
   assign {| _metric := Some [Fin 1; Fin 0; Fin 0; Fin 1]; _dimension := 2 |}
     {| _metric := Some (repeat (Fin 7) 9); _dimension := 3 |}
   = Undefined)
  /\ ((square_count 3 <= length [Fin 1; Fin 0; Fin 0; Fin 1])%nat ->
      exists m,
        assign
          {| _metric := Some [Fin 1; Fin 0; Fin 0; Fin 1]; _dimension := 2 |}
          {| _metric := Some (repeat (Fin 7) 9); _dimension := 3 |}
        = ret {| _metric := Some m; _dimension := 3 |}
        /\ length m = length [Fin 1; Fin 0; Fin 0; Fin 1]
        /\ firstn (square_count 3) m
           = firstn (square_count 3) (repeat (Fin 7) 9)).
Proof.
  apply (@assign_keeps_allocation
           {| _metric := Some [Fin 1; Fin 0; Fin 0; Fin 1]; _dimension := 2 |}
           [Fin 1; Fin 0; Fin 0; Fin 1] (repeat (Fin 7) 9) 3).
  - reflexivity.
  - vm_compute. lia.
Defined.

(* ================================================================== *)
(** ** The spectrum belongs to the matrix *)
(* ================================================================== *)

(** An orthogonal matrix keeps the Euclidean norm. *)
Lemma isometry (n : nat) (E v : list R) :
  (n = 2 \/ n = 3)%nat -> length E = (n * n)%nat -> length v = n ->
  mmul n E (transpose n E) = identity n ->
  dot n (mat_vec n (transpose n E) v) (mat_vec n (transpose n E) v)
  = dot n v v.
Proof.
  intros Hd HE Hv Hort.
  transitivity (qform n (mmul n E (transpose n E)) v).
  - destruct Hd; subst n; explode_all; cbn; ring.
  - rewrite Hort. apply qform_identity; assumption.
Qed.

Lemma list_max_upper (n : nat) (L : list R) :
  (n = 2 \/ n = 3)%nat -> length L = n ->
  Forall (fun x => x <= list_max L) L /\ In (list_max L) L.
Proof.
  intros Hd HL. unfold list_max.
  destruct Hd; subst n; explode_all; cbn [tl hd fold_left].
  - split.
    + apply Forall_cons; [apply Rmax_l |].
      apply Forall_cons; [apply Rmax_r | apply Forall_nil].
    + unfold Rmax. destruct (Rle_dec r r0); cbn; tauto.
  - split.
    + apply Forall_cons;
        [apply Rle_trans with (Rmax r r0); [apply Rmax_l | apply Rmax_l] |].
      apply Forall_cons;
        [apply Rle_trans with (Rmax r r0); [apply Rmax_r | apply Rmax_l] |].
      apply Forall_cons; [apply Rmax_r | apply Forall_nil].
    + unfold Rmax. destruct (Rle_dec r r0); destruct (Rle_dec _ r1);
        cbn; tauto.
Qed.

Lemma list_min_lower (n : nat) (L : list R) :
  (n = 2 \/ n = 3)%nat -> length L = n ->
  Forall (fun x => list_min L <= x) L /\ In (list_min L) L.
Proof.
  intros Hd HL. unfold list_min.
  destruct Hd; subst n; explode_all; cbn [tl hd fold_left].
  - split.
    + apply Forall_cons; [apply Rmin_l |].
      apply Forall_cons; [apply Rmin_r | apply Forall_nil].
    + unfold Rmin. destruct (Rle_dec r r0); cbn; tauto.
  - split.
    + apply Forall_cons;
        [apply Rle_trans with (Rmin r r0); [apply Rmin_l | apply Rmin_l] |].
      apply Forall_cons;
        [apply Rle_trans with (Rmin r r0); [apply Rmin_l | apply Rmin_r] |].
      apply Forall_cons; [apply Rmin_r | apply Forall_nil].
    + unfold Rmin. destruct (Rle_dec r r0); destruct (Rle_dec _ r1);
        cbn; tauto.
Qed.

(** The Rayleigh quotient of a matrix lies between its eigenvalues. *)
Lemma rayleigh_bounds (n : nat) (A L E : list R) (lo hi : R) :
  (n = 2 \/ n = 3)%nat -> length A = (n * n)%nat ->
  eigen_system n A L E ->
  Forall (fun x => lo <= x) L -> Forall (fun x => x <= hi) L ->
  forall v, length v = n ->
    lo * dot n v v <= qform n A v <= hi * dot n v v.
Proof.
  intros Hd HA Hsys Hlo Hhi v Hv.
  pose proof Hsys as (HL & HE & _ & (_ & Hort)).
  rewrite (eigen_system_spectral Hd HA Hsys).
  rewrite (@qform_spectral n E L v Hd HE HL Hv).
  rewrite <- (@isometry n E v Hd HE Hv Hort).
  pose proof (length_mat_vec n (transpose n E) v) as Hy.
  set (y := mat_vec n (transpose n E) v) in *. clearbody y.
  destruct Hd; subst n; explode_all; cbn.
  - inversion Hlo as [| ? ? Hl0 Hlo']; subst.
    inversion Hlo' as [| ? ? Hl1 _]; subst.
    inversion Hhi as [| ? ? Hh0 Hhi']; subst.
    inversion Hhi' as [| ? ? Hh1 _]; subst.
    pose proof (sqr_nonneg r). pose proof (sqr_nonneg r0).
    split; nra.
  - inversion Hlo as [| ? ? Hl0 Hlo']; subst.
    inversion Hlo' as [| ? ? Hl1 Hlo'']; subst.
    inversion Hlo'' as [| ? ? Hl2 _]; subst.
    inversion Hhi as [| ? ? Hh0 Hhi']; subst.
    inversion Hhi' as [| ? ? Hh1 Hhi'']; subst.
    inversion Hhi'' as [| ? ? Hh2 _]; subst.
    pose proof (sqr_nonneg r). pose proof (sqr_nonneg r0).
    pose proof (sqr_nonneg r1).
    split; nra.
Qed.

Lemma In_nth_lt (n : nat) (L : list R) (x : R) :
  length L = n -> In x L -> exists k, (k < n)%nat /\ nth k L 0 = x.
Proof.
  intros HL Hin. destruct (In_nth L x 0 Hin) as (k & Hk & Hx).
  exists k. split; [lia | exact Hx].
Qed.

(** Every eigenvalue that one eigensystem lists lies between the extremes
    that any other eigensystem of the same matrix lists. *)
Lemma eigenvalue_between (n : nat) (A L E L' E' : list R) (x : R) :
  (n = 2 \/ n = 3)%nat -> length A = (n * n)%nat ->
  eigen_system n A L E -> eigen_system n A L' E' ->
  In x L -> list_min L' <= x <= list_max L'.
Proof.
  intros Hd HA Hsys Hsys' Hin.
  pose proof Hsys as (HL & _). pose proof Hsys' as (HL' & _).
  destruct (@In_nth_lt n L x HL Hin) as (k & Hk & <-).
  rewrite (eigenvalue_is_qform Hd HA Hsys Hk).
  pose proof (@rayleigh_bounds n A L' E' (list_min L') (list_max L')
                Hd HA Hsys'
                (proj1 (@list_min_lower n L' Hd HL'))
                (proj1 (@list_max_upper n L' Hd HL'))
                (column n E k) (length_column n E k)) as Hb.
  rewrite (proj2 (eigen_system_columns Hd HA Hsys Hk)) in Hb. lra.
Qed.

Lemma trace_is_sum (n : nat) (A L E : list R) :
  (n = 2 \/ n = 3)%nat -> length A = (n * n)%nat ->
  eigen_system n A L E -> list_sum L = trace n A.
Proof.
  intros Hd HA Hsys. pose proof Hsys as (HL & HE & _ & (Hort & _)).
  rewrite (eigen_system_spectral Hd HA Hsys) at 1. clear Hsys HA.
  unfold list_sum, trace, spectral.
  destruct Hd; subst n; explode_all; cbn in Hort |- *.
  - injection Hort as H00 H01 H10 H11.
    match goal with
    | |- ?l0 + ?l1 = _ =>
        transitivity (l0 * (r1 * r1 + r3 * r3) + l1 * (r2 * r2 + r4 * r4))
    end; [rewrite H00, H11; ring | ring].
  - injection Hort as H00 H01 H02 H10 H11 H12 H20 H21 H22.
    match goal with
    | |- ?l0 + ?l1 + ?l2 = _ =>
        transitivity (l0 * (r2 * r2 + r5 * r5 + r8 * r8)
                      + l1 * (r3 * r3 + r6 * r6 + r9 * r9)
                      + l2 * (r4 * r4 + r7 * r7 + r10 * r10))
    end; [rewrite H00, H11, H22; ring | ring].
Qed.

(** The extremes and the sum of the eigenvalues belong to the matrix, not
    to the eigensystem that lists them. *)
Lemma spectrum_invariant (n : nat) (A L E L' E' : list R) :
  (n = 2 \/ n = 3)%nat -> length A = (n * n)%nat ->
  eigen_system n A L E -> eigen_system n A L' E' ->
  list_max L = list_max L' /\ list_min L = list_min L'
  /\ list_sum L = list_sum L'.
Proof.
  intros Hd HA Hsys Hsys'.
  pose proof Hsys as (HL & _). pose proof Hsys' as (HL' & _).
  pose proof (@eigenvalue_between n A L E L' E' _ Hd HA Hsys Hsys'
                (proj2 (@list_max_upper n L Hd HL))) as H1.
  pose proof (@eigenvalue_between n A L' E' L E _ Hd HA Hsys' Hsys
                (proj2 (@list_max_upper n L' Hd HL'))) as H2.
  pose proof (@eigenvalue_between n A L E L' E' _ Hd HA Hsys Hsys'
                (proj2 (@list_min_lower n L Hd HL))) as H3.
  pose proof (@eigenvalue_between n A L' E' L E _ Hd HA Hsys' Hsys
                (proj2 (@list_min_lower n L' Hd HL'))) as H4.
  repeat split; try lra.
  rewrite (@trace_is_sum n A L E Hd HA Hsys), (@trace_is_sum n A L' E' Hd HA Hsys').
  reflexivity.
Qed.

(* ================================================================== *)
(** ** The length queries on positive definite tensors *)
(* ================================================================== *)

Lemma positive_definite_73 : positive_definite 2 [73; 36; 36; 52].
Proof.
  split; [reflexivity |].
  intros v Hv Hpos. explode_all. cbn in *.
  match goal with
  | |- 0 < ?e =>
      replace e with (25 * (r * r + r0 * r0)
                      + 3 * ((4 * r + 3 * r0) * (4 * r + 3 * r0))) by ring
  end.
  pose proof (sqr_nonneg (4 * r + 3 * r0)). nra.
Qed.

(** The three length queries on a positive definite tensor, in terms of
    the eigenvalues the solver lists. *)
Lemma length_queries_spectrum
  (order : StorageOrder)
  (EigenSolver : nat -> list real_t -> list real_t * list real_t)
  (d : nat) (A L E : list R) :
  (d = 2 \/ d = 3)%nat ->
  length A = (d * d)%nat ->
  positive_definite d A ->
  solves EigenSolver d A L E ->
  let self := {| _metric := Some (map Fin A); _dimension := Z.of_nat d |} in
  min_length order EigenSolver self = ret (Fin (1 / sqrt (list_max L)))
  /\ max_length order EigenSolver self = ret (Fin (1 / sqrt (list_min L)))
  /\ average_length order EigenSolver self
     = ret (Fin (sqrt (INR d / list_sum L)))
  /\ Forall (fun x => 0 < x) L.
Proof.
  intros Hd HA Hpd (Hsolve & Hsys) self.
  pose proof (eigenvalues_positive Hd HA Hpd Hsys) as Hpos.
  pose proof Hsys as (HL & _).
  assert (HD : decomp_for_length order EigenSolver self
               = ret (map Fin L)).
  { unfold decomp_for_length, self. cbn [_dimension].
    rewrite Nat2Z.id.
    rewrite (@eigen_decomp_finite order EigenSolver d A L E); try assumption.
    - rewrite bind_ret_l.
      rewrite map_Rabs_nonneg; [reflexivity |].
      eapply Forall_impl; [| exact Hpos]. intros x Hx. cbv beta in Hx. lra.
    - exact (@positive_definite_not_zero d A Hd HA Hpd).
    - apply repeat_length.
    - rewrite repeat_length. destruct Hd as [-> | ->]; reflexivity. }
  unfold min_length, max_length, average_length. rewrite HD, !bind_ret_l.
  unfold list_max, list_min, list_sum.
  destruct Hd as [-> | ->].
  - explode L. rename r into l0, r0 into l1.
    inversion Hpos as [| ? ? P0 Hpos']; subst.
    inversion Hpos' as [| ? ? P1 _]; subst.
    cbn [map read_at nth_error tl hd fold_left _dimension self].
    rewrite !bind_ret_l.
    repeat split; try assumption.
    + rewrite std_max_Fin. rewrite sqrt_one_over; [reflexivity |].
      apply Rlt_le_trans with l0; [exact P0 | apply Rmax_l].
    + rewrite std_min_Fin. rewrite sqrt_one_over; [reflexivity |].
      apply Rmin_glb_lt; assumption.
    + cbn [Real.add].
      change (IZR (Z.of_nat 2)) with 2.
      rewrite div_Fin by lra. rewrite div_Fin by lra.
      rewrite sqrt_Fin.
      * do 3 f_equal. cbn [INR]. field. lra.
      * apply Rlt_le. apply Rdiv_lt_0_compat; lra.
  - explode L. rename r into l0, r0 into l1, r1 into l2.
    inversion Hpos as [| ? ? P0 Hpos']; subst.
    inversion Hpos' as [| ? ? P1 Hpos'']; subst.
    inversion Hpos'' as [| ? ? P2 _]; subst.
    cbn [map read_at nth_error tl hd fold_left _dimension self].
    rewrite !bind_ret_l.
    repeat split; try assumption.
    + rewrite !std_max_Fin. rewrite sqrt_one_over; [reflexivity |].
      apply Rlt_le_trans with l2; [exact P2 | apply Rmax_r].
    + rewrite !std_min_Fin. rewrite sqrt_one_over; [reflexivity |].
      apply Rmin_glb_lt; [apply Rmin_glb_lt |]; assumption.
    + cbn [Real.add].
      change (IZR (Z.of_nat 3)) with 3.
      rewrite div_Fin by lra. rewrite div_Fin by lra.
      rewrite sqrt_Fin.
      * do 3 f_equal. cbn [INR]. field. lra.
      * apply Rlt_le. apply Rdiv_lt_0_compat; lra.
Qed.

Lemma positive_spectrum (n : nat) (L : list R) :
  (n = 2 \/ n = 3)%nat -> length L = n ->
  Forall (fun x => 0 < x) L ->
  0 < list_min L /\ list_min L <= list_max L
  /\ INR n * list_min L <= list_sum L <= INR n * list_max L.
Proof.
  intros Hd HL Hpos.
  destruct (@list_min_lower n L Hd HL) as (Hlo & Hin).
  destruct (@list_max_upper n L Hd HL) as (Hhi & _).
  assert (Hmin : 0 < list_min L)
    by (rewrite Forall_forall in Hpos; apply Hpos, Hin).
  split; [exact Hmin |].
  set (lo := list_min L) in *. set (hi := list_max L) in *.
  clearbody lo hi. unfold list_sum.
  destruct Hd; subst n; explode_all; cbn [tl hd fold_left INR].
  - inversion Hlo as [| ? ? Hl0 Hlo']; subst.
    inversion Hlo' as [| ? ? Hl1 _]; subst.
    inversion Hhi as [| ? ? Hh0 Hhi']; subst.
    inversion Hhi' as [| ? ? Hh1 _]; subst.
    lra.
  - inversion Hlo as [| ? ? Hl0 Hlo']; subst.
    inversion Hlo' as [| ? ? Hl1 Hlo'']; subst.
    inversion Hlo'' as [| ? ? Hl2 _]; subst.
    inversion Hhi as [| ? ? Hh0 Hhi']; subst.
    inversion Hhi' as [| ? ? Hh1 Hhi'']; subst.
    inversion Hhi'' as [| ? ? Hh2 _]; subst.
    lra.
Qed.

Lemma one_over_sqrt (m : R) : 0 < m -> 1 / sqrt m = sqrt (1 / m).
Proof.
  intros Hm. unfold Rdiv. rewrite !Rmult_1_l. symmetry. apply sqrt_inv.
Qed.

Lemma one_over_sqrt_sqr (m : R) :
  0 < m -> (1 / sqrt m) * (1 / sqrt m) = 1 / m.
Proof.
  intros Hm. rewrite one_over_sqrt by exact Hm.
  apply sqrt_sqrt. apply Rlt_le, Rdiv_lt_0_compat; lra.
Qed.

(** On a positive definite tensor the three length queries return finite
    positive values in the order
    [min_length <= average_length <= max_length]. *)
Theorem length_queries_are_ordered
  (order : StorageOrder)
  (EigenSolver : nat -> list real_t -> list real_t * list real_t)
  (d : nat) (A L E : list R) :
  (d = 2 \/ d = 3)%nat ->
  length A = (d * d)%nat ->
  positive_definite d A ->
  solves EigenSolver d A L E ->
  let self := {| _metric := Some (map Fin A); _dimension := Z.of_nat d |} in
  exists lo av hi : R,
    min_length order EigenSolver self = ret (Fin lo)
    /\ average_length order EigenSolver self = ret (Fin av)
    /\ max_length order EigenSolver self = ret (Fin hi)
    /\ 0 < lo /\ lo <= av /\ av <= hi.
Proof.
  intros Hd HA Hpd Hsolve self.
  destruct (@length_queries_spectrum order EigenSolver d A L E
              Hd HA Hpd Hsolve) as (Hmin & Hmax & Havg & Hpos).
  pose proof Hsolve as (_ & (HL & _)).
  destruct (@positive_spectrum d L Hd HL Hpos) as (P0 & P1 & P2 & P3).
  assert (Hn : 0 < INR d) by (destruct Hd; subst d; cbn; lra).
  assert (Pmax : 0 < list_max L) by lra.
  assert (Psum : 0 < list_sum L) by nra.
  exists (1 / sqrt (list_max L)), (sqrt (INR d / list_sum L)),
         (1 / sqrt (list_min L)).
  split; [exact Hmin |]. split; [exact Havg |]. split; [exact Hmax |].
  rewrite !one_over_sqrt by assumption.
  split; [| split].
  - apply sqrt_lt_R0. apply Rdiv_lt_0_compat; lra.
  - apply sqrt_le_1_alt.
    apply Rmult_le_reg_r with (list_max L * list_sum L); [nra |].
    field_simplify; [nra | lra | lra].
  - apply sqrt_le_1_alt.
    apply Rmult_le_reg_r with (list_min L * list_sum L); [nra |].
    field_simplify; [nra | lra | lra].
Qed.

Lemma length_queries_are_ordered_witness :
  exists lo av hi : R,
    min_length ColMajor example_solver
      {| _metric := Some (map Fin [73; 36; 36; 52]);
         _dimension := Z.of_nat 2 |} = ret (Fin lo)
    /\ average_length ColMajor example_solver
         {| _metric := Some (map Fin [73; 36; 36; 52]);
            _dimension := Z.of_nat 2 |} = ret (Fin av)
    /\ max_length ColMajor example_solver
         {| _metric := Some (map Fin [73; 36; 36; 52]);
            _dimension := Z.of_nat 2 |} = ret (Fin hi)
    /\ 0 < lo /\ lo <= av /\ av <= hi.
Proof.
  apply (@length_queries_are_ordered ColMajor example_solver 2
           [73; 36; 36; 52] [100; 25] [4/5; -(3/5); 3/5; 4/5]).
  - left; reflexivity.
  - reflexivity.
  - exact positive_definite_73.
  - exact example_solves.
Defined.

(** What the extremes mean: a vector of unit length in the metric has a
    Euclidean length between [min_length] and [max_length]. *)
Theorem length_queries_bound_unit_vectors
  (order : StorageOrder)
  (EigenSolver : nat -> list real_t -> list real_t * list real_t)
  (d : nat) (A L E : list R) :
  (d = 2 \/ d = 3)%nat ->
  length A = (d * d)%nat ->
  positive_definite d A ->
  solves EigenSolver d A L E ->
  let self := {| _metric := Some (map Fin A); _dimension := Z.of_nat d |} in
  exists lo hi : R,
    min_length order EigenSolver self = ret (Fin lo)
    /\ max_length order EigenSolver self = ret (Fin hi)
    /\ forall v, length v = d -> qform d A v = 1 ->
         lo * lo <= dot d v v <= hi * hi.
Proof.
  intros Hd HA Hpd Hsolve self.
  destruct (@length_queries_spectrum order EigenSolver d A L E
              Hd HA Hpd Hsolve) as (Hmin & Hmax & _ & Hpos).
  pose proof Hsolve as (_ & Hsys). pose proof Hsys as (HL & _).
  destruct (@positive_spectrum d L Hd HL Hpos) as (P0 & P1 & _).
  assert (Pmax : 0 < list_max L) by lra.
  exists (1 / sqrt (list_max L)), (1 / sqrt (list_min L)).
  split; [exact Hmin |]. split; [exact Hmax |].
  intros v Hv Hunit.
  pose proof (@rayleigh_bounds d A L E (list_min L) (list_max L)
                Hd HA Hsys
                (proj1 (@list_min_lower d L Hd HL))
                (proj1 (@list_max_upper d L Hd HL)) v Hv) as Hb.
  rewrite Hunit in Hb.
  rewrite !one_over_sqrt_sqr by assumption.
  split.
  - apply Rmult_le_reg_r with (list_max L); [exact Pmax |].
    unfold Rdiv. rewrite Rmult_1_l, Rinv_l by lra. lra.
  - apply Rmult_le_reg_r with (list_min L); [exact P0 |].
    unfold Rdiv. rewrite Rmult_1_l, Rinv_l by lra. lra.
Qed.

Lemma length_queries_bound_unit_vectors_witness :
  exists lo hi : R,
    min_length ColMajor example_solver
      {| _metric := Some (map Fin [73; 36; 36; 52]);
         _dimension := Z.of_nat 2 |} = ret (Fin lo)
    /\ max_length ColMajor example_solver
         {| _metric := Some (map Fin [73; 36; 36; 52]);
            _dimension := Z.of_nat 2 |} = ret (Fin hi)
    /\ forall v, length v = 2%nat -> qform 2 [73; 36; 36; 52] v = 1 ->
         lo * lo <= dot 2 v v <= hi * hi.
Proof.
  apply (@length_queries_bound_unit_vectors ColMajor example_solver 2
           [73; 36; 36; 52] [100; 25] [4/5; -(3/5); 3/5; 4/5]).
  - left; reflexivity.
  - reflexivity.
  - exact positive_definite_73.
  - exact example_solves.
Defined.

(** The length queries are functions of the tensor alone: two solvers
    that both meet the eigensolver contract, under whichever storage
    orders, give the same three lengths on a positive definite tensor. *)
Theorem length_queries_do_not_depend_on_solver
  (order1 order2 : StorageOrder)
  (solver1 solver2 : nat -> list real_t -> list real_t * list real_t)
  (d : nat) (A : list R) :
  (d = 2 \/ d = 3)%nat ->
  length A = (d * d)%nat ->
  positive_definite d A ->
  eigen_contract solver1 d -> eigen_contract solver2 d ->
  let self := {| _metric := Some (map Fin A); _dimension := Z.of_nat d |} in
  min_length order1 solver1 self = min_length order2 solver2 self
  /\ average_length order1 solver1 self = average_length order2 solver2 self
  /\ max_length order1 solver1 self = max_length order2 solver2 self.
Proof.
  intros Hd HA Hpd Hc1 Hc2 self.
  destruct (Hc1 A HA (proj1 Hpd)) as (L1 & E1 & Hs1).
  destruct (Hc2 A HA (proj1 Hpd)) as (L2 & E2 & Hs2).
  destruct (@length_queries_spectrum order1 solver1 d A L1 E1
              Hd HA Hpd Hs1) as (Hmin1 & Hmax1 & Havg1 & _).
  destruct (@length_queries_spectrum order2 solver2 d A L2 E2
              Hd HA Hpd Hs2) as (Hmin2 & Hmax2 & Havg2 & _).
  destruct (@spectrum_invariant d A L1 E1 L2 E2 Hd HA (proj2 Hs1) (proj2 Hs2))
    as (Emax & Emin & Esum).
  fold self in Hmin1, Hmax1, Havg1, Hmin2, Hmax2, Havg2.
  rewrite Hmin1, Hmin2, Hmax1, Hmax2, Havg1, Havg2, Emax, Emin, Esum.
  repeat split.
Qed.

Lemma map_mul_Fin (s : R) (A : list R) :
  map (fun x => Real.mul x (Fin s)) (map Fin A)
  = map Fin (map (fun x => x * s) A).
Proof. rewrite !map_map. reflexivity. Qed.

(** [scale] by a finite factor on finite values. *)
Lemma scale_finite (d : nat) (A : list R) (s : R) :
  (d = 2 \/ d = 3)%nat -> length A = (d * d)%nat ->
  scale {| _metric := Some (map Fin A); _dimension := Z.of_nat d |} (Fin s)
  = ret {| _metric := Some (map Fin (map (fun x => x * s) A));
           _dimension := Z.of_nat d |}.
Proof.
  intros Hd HA. unfold scale. cbn [_dimension _metric buffer].
  assert (Hsq : square_count (Z.of_nat d) = (d * d)%nat)
    by (destruct Hd; subst d; [apply square_count_2 | apply square_count_3]).
  rewrite Hsq.
  replace (d * d =? 0)%nat with false
    by (symmetry; apply Nat.eqb_neq; destruct Hd; subst d; discriminate).
  rewrite bind_ret_l.
  rewrite read_prefix_exact by (rewrite length_map; exact HA).
  rewrite bind_ret_l, map_mul_Fin.
  rewrite write_prefix_exact by (rewrite !length_map; reflexivity).
  rewrite bind_ret_l. reflexivity.
Qed.

Lemma scaled_positive_definite (n : nat) (A : list R) (s : R) :
  (n = 2 \/ n = 3)%nat -> length A = (n * n)%nat -> 0 < s ->
  positive_definite n A ->
  positive_definite n (map (fun x => x * s) A).
Proof.
  intros Hd HA Hs (Hsym & Hpd). split.
  - unfold symmetric in *.
    destruct Hd; subst n; explode_all; cbn in Hsym |- *;
      injection Hsym; intros; subst; reflexivity.
  - intros v Hv Hpos. specialize (Hpd v Hv Hpos).
    assert (Hq : qform n (map (fun x => x * s) A) v = s * qform n A v)
      by (destruct Hd; subst n; explode_all; cbn; ring).
    rewrite Hq. apply Rmult_lt_0_compat; assumption.
Qed.

Lemma scaled_eigen_system (n : nat) (A L E : list R) (s : R) :
  (n = 2 \/ n = 3)%nat -> length A = (n * n)%nat ->
  eigen_system n A L E ->
  eigen_system n (map (fun x => x * s) A) (map (fun x => x * s) L) E.
Proof.
  intros Hd HA (HL & HE & Heq & Hort).
  split; [rewrite length_map; exact HL |].
  split; [exact HE |]. split; [| exact Hort].
  assert (H1 : mmul n (map (fun x => x * s) A) E
               = map (fun x => x * s) (mmul n A E))
    by (by_entries; ring).
  assert (H2 : diag_mul_r n E (map (fun x => x * s) L)
               = map (fun x => x * s) (diag_mul_r n E L))
    by (by_entries; ring).
  rewrite H1, H2, Heq. reflexivity.
Qed.

Lemma Rmax_scale (s a b : R) : 0 <= s -> Rmax (a * s) (b * s) = Rmax a b * s.
Proof.
  intros Hs. unfold Rmax.
  destruct (Rle_dec (a * s) (b * s)), (Rle_dec a b); try reflexivity; nra.
Qed.

Lemma Rmin_scale (s a b : R) : 0 <= s -> Rmin (a * s) (b * s) = Rmin a b * s.
Proof.
  intros Hs. unfold Rmin.
  destruct (Rle_dec (a * s) (b * s)), (Rle_dec a b); try reflexivity; nra.
Qed.

Lemma scaled_spectrum (n : nat) (L : list R) (s : R) :
  (n = 2 \/ n = 3)%nat -> length L = n -> 0 <= s ->
  list_max (map (fun x => x * s) L) = list_max L * s
  /\ list_min (map (fun x => x * s) L) = list_min L * s
  /\ list_sum (map (fun x => x * s) L) = list_sum L * s.
Proof.
  intros Hd HL Hs. unfold list_max, list_min, list_sum.
  destruct Hd; subst n; explode_all; cbn [map tl hd fold_left];
    rewrite ?Rmax_scale, ?Rmin_scale by exact Hs;
    repeat split; ring.
Qed.

Lemma one_over_sqrt_scaled (m s : R) :
  0 < m -> 0 < s -> 1 / sqrt (m * s) = 1 / sqrt m / sqrt s.
Proof.
  intros Hm Hs. rewrite sqrt_mult by lra.
  pose proof (sqrt_lt_R0 m Hm). pose proof (sqrt_lt_R0 s Hs).
  field. lra.
Qed.

(** Scaling a positive definite tensor by [s > 0] divides each of the
    three lengths by [sqrt s]. *)
Theorem scale_rescales_lengths
  (order : StorageOrder)
  (EigenSolver : nat -> list real_t -> list real_t * list real_t)
  (d : nat) (A : list R) (s : R) :
  (d = 2 \/ d = 3)%nat ->
  length A = (d * d)%nat ->
  positive_definite d A ->
  0 < s ->
  eigen_contract EigenSolver d ->
  let self := {| _metric := Some (map Fin A); _dimension := Z.of_nat d |} in
  exists (t : MetricTensor) (lo av hi : R),
    scale self (Fin s) = ret t
    /\ min_length order EigenSolver self = ret (Fin lo)
    /\ average_length order EigenSolver self = ret (Fin av)
    /\ max_length order EigenSolver self = ret (Fin hi)
    /\ min_length order EigenSolver t = ret (Fin (lo / sqrt s))
    /\ average_length order EigenSolver t = ret (Fin (av / sqrt s))
    /\ max_length order EigenSolver t = ret (Fin (hi / sqrt s)).
Proof.
  intros Hd HA Hpd Hs Hcontract self.
  set (B := map (fun x => x * s) A).
  assert (HB : length B = (d * d)%nat)
    by (unfold B; rewrite length_map; exact HA).
  pose proof (@scaled_positive_definite d A s Hd HA Hs Hpd) as HpdB.
  fold B in HpdB.
  destruct (Hcontract A HA (proj1 Hpd)) as (L & E & HsA).
  destruct (Hcontract B HB (proj1 HpdB)) as (L' & E' & HsB).
  destruct (@length_queries_spectrum order EigenSolver d A L E
              Hd HA Hpd HsA) as (Hmin & Hmax & Havg & Hpos).
  destruct (@length_queries_spectrum order EigenSolver d B L' E'
              Hd HB HpdB HsB) as (Hmin' & Hmax' & Havg' & _).
  pose proof HsA as (_ & Hsys). pose proof Hsys as (HL & _).
  destruct (@spectrum_invariant d B L' E' (map (fun x => x * s) L) E
              Hd HB (proj2 HsB)
              (@scaled_eigen_system d A L E s Hd HA Hsys))
    as (Emax & Emin & Esum).
  destruct (@scaled_spectrum d L s Hd HL (Rlt_le _ _ Hs))
    as (Smax & Smin & Ssum).
  destruct (@positive_spectrum d L Hd HL Hpos) as (P0 & P1 & P2 & P3).
  assert (Hn : 0 < INR d) by (destruct Hd; subst d; cbn; lra).
  assert (Pmax : 0 < list_max L) by lra.
  assert (Psum : 0 < list_sum L) by nra.
  exists {| _metric := Some (map Fin B); _dimension := Z.of_nat d |},
         (1 / sqrt (list_max L)), (sqrt (INR d / list_sum L)),
         (1 / sqrt (list_min L)).
  split; [exact (@scale_finite d A s Hd HA) |].
  split; [exact Hmin |]. split; [exact Havg |]. split; [exact Hmax |].
  rewrite Hmin', Havg', Hmax', Emax, Emin, Esum, Smax, Smin, Ssum.
  rewrite !one_over_sqrt_scaled by assumption.
  repeat split.
  do 2 f_equal.
  replace (INR d / (list_sum L * s)) with (INR d / list_sum L * / s)
    by (field; lra).
  rewrite sqrt_mult_alt by (apply Rlt_le, Rdiv_lt_0_compat; lra).
  rewrite sqrt_inv. reflexivity.
Qed.

Lemma scale_rescales_lengths_witness :
  exists (t : MetricTensor) (lo av hi : R),
    scale {| _metric := Some (map Fin [73; 36; 36; 52]);
             _dimension := Z.of_nat 2 |} (Fin 4) = ret t
    /\ min_length ColMajor example_solver
         {| _metric := Some (map Fin [73; 36; 36; 52]);
            _dimension := Z.of_nat 2 |} = ret (Fin lo)
    /\ average_length ColMajor example_solver
         {| _metric := Some (map Fin [73; 36; 36; 52]);
            _dimension := Z.of_nat 2 |} = ret (Fin av)
    /\ max_length ColMajor example_solver
         {| _metric := Some (map Fin [73; 36; 36; 52]);
            _dimension := Z.of_nat 2 |} = ret (Fin hi)
    /\ min_length ColMajor example_solver t = ret (Fin (lo / sqrt 4))
    /\ average_length ColMajor example_solver t = ret (Fin (av / sqrt 4))
    /\ max_length ColMajor example_solver t = ret (Fin (hi / sqrt 4)).
Proof.
  apply (@scale_rescales_lengths ColMajor example_solver 2
           [73; 36; 36; 52] 4).
  - left; reflexivity.
  - reflexivity.
  - exact positive_definite_73.
  - lra.
  - exact example_solver_contract_2.
Defined.

Lemma length_queries_do_not_depend_on_solver_witness :
  min_length ColMajor example_solver
    {| _metric := Some (map Fin [73; 36; 36; 52]);
       _dimension := Z.of_nat 2 |}
  = min_length RowMajor example_solver
      {| _metric := Some (map Fin [73; 36; 36; 52]);
         _dimension := Z.of_nat 2 |}
  /\ average_length ColMajor example_solver
       {| _metric := Some (map Fin [73; 36; 36; 52]);
          _dimension := Z.of_nat 2 |}
     = average_length RowMajor example_solver
         {| _metric := Some (map Fin [73; 36; 36; 52]);
            _dimension := Z.of_nat 2 |}
  /\ max_length ColMajor example_solver
       {| _metric := Some (map Fin [73; 36; 36; 52]);
          _dimension := Z.of_nat 2 |}
     = max_length RowMajor example_solver
         {| _metric := Some (map Fin [73; 36; 36; 52]);
            _dimension := Z.of_nat 2 |}.
Proof.
  apply (@length_queries_do_not_depend_on_solver ColMajor RowMajor
           example_solver example_solver 2 [73; 36; 36; 52]).
  - left; reflexivity.
  - reflexivity.
  - exact positive_definite_73.
  - exact example_solver_contract_2.
  - exact example_solver_contract_2.
Defined.

(* ================================================================== *)
(** ** The length queries on other dimensions *)
(* ================================================================== *)

Lemma fold_min_zeros (k : nat) :
  fold_left Real.std_min (repeat (Fin 0) k) (Fin 0) = Fin 0.
Proof.
  induction k as [| k IH]; [reflexivity |].
  cbn [repeat fold_left]. rewrite std_min_Fin, Rmin_diag. exact IH.
Qed.

Lemma fold_max_zeros (k : nat) :
  fold_left Real.std_max (repeat (Fin 0) k) (Fin 0) = Fin 0.
Proof.
  induction k as [| k IH]; [reflexivity |].
  cbn [repeat fold_left]. rewrite std_max_Fin, Rmax_diag. exact IH.
Qed.

Lemma fold_add_zeros (k : nat) :
  fold_left Real.add (repeat (Fin 0) k) (Fin 0) = Fin 0.
Proof.
  induction k as [| k IH]; [reflexivity |].
  cbn [repeat fold_left Real.add]. rewrite Rplus_0_r. exact IH.
Qed.

(** The length queries on a dimension other than 2 and 3:
    [eigen_decomp] prints its error and leaves the zero-initialised
    vector [D] alone, so each query returns [+inf], whatever the buffer
    holds (even none); with dimension 0 the vector is empty and reading
    [D[0]] is out of bounds. *)
Theorem length_queries_unsupported_dimension
  (order : StorageOrder)
  (EigenSolver : nat -> list real_t -> list real_t * list real_t)
  (held : option (list real_t)) (d : Z) :
  d <> 2%Z -> d <> 3%Z ->
  let self := {| _metric := held; _dimension := d |} in
  ((1 <= d)%Z ->
   min_length order EigenSolver self
   = Returns PInf [UnsupportedDimension d]
   /\ average_length order EigenSolver self
      = Returns PInf [UnsupportedDimension d]
   /\ max_length order EigenSolver self
      = Returns PInf [UnsupportedDimension d])
  /\ ((d <= 0)%Z ->
      min_length order EigenSolver self = Undefined
      /\ average_length order EigenSolver self = Undefined
      /\ max_length order EigenSolver self = Undefined).
Proof.
  intros H2 H3 self.
  assert (HD : decomp_for_length order EigenSolver self
               = Returns (repeat (Fin 0) (Z.to_nat d))
                   [UnsupportedDimension d]).
  { unfold decomp_for_length, eigen_decomp, self. cbn [_dimension].
    destruct (Z.eqb_spec d 2) as [? | _]; [contradiction |].
    destruct (Z.eqb_spec d 3) as [? | _]; [contradiction |].
    reflexivity. }
  unfold min_length, average_length, max_length. rewrite HD.
  unfold self. cbn [_dimension].
  split.
  - intros H1.
    destruct (Z.to_nat d) as [| k] eqn:Hk; [lia |].
    cbn [repeat bind read_at nth_error ret tl app].
    rewrite fold_min_zeros, fold_max_zeros, fold_add_zeros.
    rewrite one_over_zero.
    rewrite div_Fin by (apply not_0_IZR; lia).
    unfold Rdiv. rewrite Rmult_0_l, one_over_zero. repeat split.
  - intros H0.
    replace (Z.to_nat d) with 0%nat by lia.
    repeat split.
Qed.

Lemma length_queries_unsupported_dimension_witness :
  ((1 <= 4)%Z ->
   min_length ColMajor example_solver
     {| _metric := None; _dimension := 4 |}
   = Returns PInf [UnsupportedDimension 4]
   /\ average_length ColMajor example_solver
        {| _metric := None; _dimension := 4 |}
      = Returns PInf [UnsupportedDimension 4]
   /\ max_length ColMajor example_solver
        {| _metric := None; _dimension := 4 |}
      = Returns PInf [UnsupportedDimension 4])
  /\ ((4 <= 0)%Z ->
      min_length ColMajor example_solver
        {| _metric := None; _dimension := 4 |} = Undefined
      /\ average_length ColMajor example_solver
           {| _metric := None; _dimension := 4 |} = Undefined
      /\ max_length ColMajor example_solver
           {| _metric := None; _dimension := 4 |} = Undefined).
Proof.
  apply (@length_queries_unsupported_dimension ColMajor example_solver
           None 4); discriminate.
Defined.

(* ================================================================== *)
(** ** [eigen_undecomp] on arbitrary input *)
(* ================================================================== *)

Lemma map_Rabs_idempotent (l : list R) : map Rabs (map Rabs l) = map Rabs l.
Proof. apply map_Rabs_nonneg, Forall_Rabs. Qed.

(** [eigen_undecomp] stores a symmetric positive semi-definite tensor
    whatever finite [D] and [V] it is given, returns 0, and does not see
    the signs of [D]. *)
Theorem eigen_undecomp_is_semidefinite
  (d : nat) (buf : list real_t) (D V : list R) :
  (d = 2 \/ d = 3)%nat ->
  length buf = (d * d)%nat -> length D = d -> length V = (d * d)%nat ->
  let self := {| _metric := Some buf; _dimension := Z.of_nat d |} in
  exists C : list R,
    eigen_undecomp self (map Fin D) (map Fin V)
    = ret ({| _metric := Some (map Fin C); _dimension := Z.of_nat d |}, 0%Z)
    /\ positive_semidefinite d C
    /\ eigen_undecomp self (map Fin (map Rabs D)) (map Fin V)
       = eigen_undecomp self (map Fin D) (map Fin V).
Proof.
  intros Hd Hbuf HD HV self.
  exists (spectral d (transpose d V) (map Rabs D)).
  assert (HT : length (transpose d V) = (d * d)%nat)
    by apply length_transpose.
  assert (HR : length (map Rabs D) = d) by (rewrite length_map; exact HD).
  split; [exact (@eigen_undecomp_finite d buf D V Hd Hbuf HD HV) |].
  split; [split |].
  - apply spectral_symmetric; assumption.
  - intros v Hv.
    rewrite (@qform_spectral d (transpose d V) (map Rabs D) v Hd HT HR Hv).
    apply weighted_squares_nonneg; [exact Hd | exact HR | apply Forall_Rabs].
  - unfold self.
    rewrite (@eigen_undecomp_finite d buf (map Rabs D) V Hd Hbuf HR HV).
    rewrite (@eigen_undecomp_finite d buf D V Hd Hbuf HD HV).
    rewrite map_Rabs_idempotent. reflexivity.
Qed.

Lemma eigen_undecomp_is_semidefinite_witness :
  exists C : list R,
    eigen_undecomp
      {| _metric := Some (repeat NaN 4); _dimension := Z.of_nat 2 |}
      (map Fin [-3; 2]) (map Fin [1; 2; 0; 5])
    = ret ({| _metric := Some (map Fin C); _dimension := Z.of_nat 2 |}, 0%Z)
    /\ positive_semidefinite 2 C
    /\ eigen_undecomp
         {| _metric := Some (repeat NaN 4); _dimension := Z.of_nat 2 |}
         (map Fin (map Rabs [-3; 2])) (map Fin [1; 2; 0; 5])
       = eigen_undecomp
           {| _metric := Some (repeat NaN 4); _dimension := Z.of_nat 2 |}
           (map Fin [-3; 2]) (map Fin [1; 2; 0; 5]).
Proof.
  apply (@eigen_undecomp_is_semidefinite 2 (repeat NaN 4)
           [-3; 2] [1; 2; 0; 5]); try reflexivity.
  left; reflexivity.
Defined.

(* ================================================================== *)
(** ** More on [constrain] *)
(* ================================================================== *)

Lemma ltb_asymmetric (x y : real_t) :
  Real.ltb x y = true -> Real.ltb y x = false.
Proof.
  destruct x as [a | | |], y as [b | | |]; cbn; try congruence.
  intros Hab. destruct (Rlt_dec a b) as [Hlt | Hge].
  - apply Rltb_false. lra.
  - rewrite Rltb_false in Hab by lra. discriminate Hab.
Qed.

(** Which of the two tensors is the reference of [constrain]: the one
    whose aspect ratio (smallest over largest absolute eigenvalue, as
    [constrain] computes it) is strictly the larger, whether it is the
    object or the argument; so the two calls with the roles exchanged
    store the same tensor.  On a tie, and whenever neither ratio compares
    below the other, each call takes its own object as the reference. *)
Theorem constrain_commutes_unless_tied
  (order : StorageOrder)
  (EigenSolver : nat -> list real_t -> list real_t * list real_t)
  (d : nat) (A B : list R) (p : bool) :
  (d = 2 \/ d = 3)%nat ->
  length A = (d * d)%nat -> length B = (d * d)%nat ->
  symmetric d A -> symmetric d B ->
  isZero (map Fin A) = false -> isZero (map Fin B) = false ->
  let ratio X := aspect d (map Real.abs (fst (EigenSolver d (map Fin X)))) in
  let call X Y :=
    constrain order EigenSolver
      {| _metric := Some (map Fin X); _dimension := Z.of_nat d |}
      (map Fin Y) p in
  let stored Mr Mi :=
    ret {| _metric :=
             Some (to_storage order d
                     (superpose EigenSolver d p (map Fin Mr) (map Fin Mi)));
           _dimension := Z.of_nat d |} in
  (Real.ltb (ratio A) (ratio B) = true ->
   call A B = stored B A /\ call B A = stored B A)
  /\ (Real.ltb (ratio B) (ratio A) = true ->
      call A B = stored A B /\ call B A = stored A B)
  /\ (Real.ltb (ratio A) (ratio B) = false ->
      Real.ltb (ratio B) (ratio A) = false ->
      call A B = stored A B /\ call B A = stored B A).
Proof.
  intros Hd HA HB HsA HsB HzA HzB ratio call stored. unfold call.
  rewrite (@constrain_finite order EigenSolver d A B p Hd HA HB HsA HsB).
  rewrite (@constrain_finite order EigenSolver d B A p Hd HB HA HsB HsA).
  rewrite HzA, HzB. fold (ratio A) (ratio B). unfold Real.gtb.
  split; [| split].
  - intros Hlt. rewrite Hlt, (ltb_asymmetric _ _ Hlt). split; reflexivity.
  - intros Hlt. rewrite Hlt, (ltb_asymmetric _ _ Hlt). split; reflexivity.
  - intros H1 H2. rewrite H1, H2. split; reflexivity.
Qed.

Lemma aspect_diagonal_2 (a b : R) :
  0 < a -> 0 < b ->
  aspect 2 (map Real.abs
              (fst (example_solver 2 (map Fin (diagonal_matrix 2 [a; b])))))
  = Fin (Rmin a b / Rmax a b).
Proof.
  intros Ha Hb.
  rewrite (proj1 (example_solver_diagonal_2 a b)). cbn [fst].
  rewrite map_abs_Fin. cbn [map]. rewrite !Rabs_pos_eq by lra.
  unfold aspect, aspect2. cbn [Nat.eqb nth].
  rewrite std_min_Fin, std_max_Fin. apply div_Fin.
  apply Rgt_not_eq, Rlt_gt, Rlt_le_trans with a; [exact Ha | apply Rmax_l].
Qed.

Lemma constrain_commutes_unless_tied_witness :
  let A := diagonal_matrix 2 [4; 1] in
  let B := diagonal_matrix 2 [1; 2] in
  let stored :=
    ret {| _metric :=
             Some (to_storage ColMajor 2
                     (superpose example_solver 2 true
                        (map Fin B) (map Fin A)));
           _dimension := Z.of_nat 2 |} in
  constrain ColMajor example_solver
    {| _metric := Some (map Fin A); _dimension := Z.of_nat 2 |}
    (map Fin B) true = stored
  /\ constrain ColMajor example_solver
       {| _metric := Some (map Fin B); _dimension := Z.of_nat 2 |}
       (map Fin A) true = stored.
Proof.
  cbv zeta.
  apply (@constrain_commutes_unless_tied ColMajor example_solver 2
           (diagonal_matrix 2 [4; 1]) (diagonal_matrix 2 [1; 2]) true).
  - left; reflexivity.
  - reflexivity.
  - reflexivity.
  - reflexivity.
  - reflexivity.
  - cbn. rewrite Reqb0_false by lra. reflexivity.
  - cbn. rewrite Reqb0_false by lra. reflexivity.
  - rewrite !aspect_diagonal_2 by lra.
    cbn [Real.ltb]. apply Rltb_true.
    rewrite Rmin_right, Rmax_left, Rmin_left, Rmax_right by lra. lra.
Defined.

Lemma bind_Undefined {A B} (k : A -> outcome B) : bind Undefined k = Undefined.
Proof. reflexivity. Qed.

(** [constrain] has no branch for a dimension other than 2 and 3 and
    prints nothing: the object is treated as 3 x 3.  Below 3 the nine
    reads run past the object's buffer; above 3 the final copy of
    [_dimension * _dimension] values runs past the 3 x 3 result, unless
    the leading nine values of the argument are all zero. *)
Theorem constrain_unsupported_dimension
  (order : StorageOrder)
  (EigenSolver : nat -> list real_t -> list real_t * list real_t)
  (d : Z) (mine : list real_t) (B : list R) (p : bool) :
  (0 <= d < 2147483648)%Z -> d <> 2%Z -> d <> 3%Z ->
  length mine = Z.to_nat (d * d) -> length B = Z.to_nat (d * d) ->
  ((4 <= d)%Z ->
   isZero (to_storage order 3 (firstn 9 (map Fin B))) = false) ->
  constrain order EigenSolver {| _metric := Some mine; _dimension := d |}
    (map Fin B) p
  = Undefined.
Proof.
  intros Hd H2 H3 Hmine HB Hnz.
  assert (Hsq : square_count d = Z.to_nat (d * d)).
  { rewrite <- (size_t_of_int_small Hd) at 1. apply square_count_small, Hd. }
  assert (Hnn : Z.to_nat (d * d) = (Z.to_nat d * Z.to_nat d)%nat)
    by (apply Z2Nat.inj_mul; lia).
  unfold constrain. cbn [_dimension _metric buffer].
  rewrite nan_scan_Fin
    by (intros k Hk; apply upper_indices_bound in Hk; lia).
  rewrite bind_ret_l. cbv beta iota.
  unfold set. rewrite int_of_size_t_small, size_t_of_int_small by exact Hd.
  rewrite read_prefix_exact by (rewrite length_map, Hsq; exact HB).
  rewrite !bind_ret_l. cbn [_metric buffer]. rewrite !bind_ret_l.
  unfold choose_reference.
  destruct (Z.eqb_spec d 2) as [? | _]; [contradiction |].
  destruct (Z_lt_le_dec d 3) as [Hsmall | Hbig].
  - rewrite (@read_prefix_short _ 9 mine)
      by (rewrite Hmine, Hnn; assert (Z.to_nat d <= 1)%nat by lia; nia).
    reflexivity.
  - assert (H4 : (4 <= d)%Z) by lia.
    assert (H16 : (16 <= Z.to_nat (d * d))%nat)
      by (rewrite Hnn; assert (4 <= Z.to_nat d)%nat by lia; nia).
    rewrite (@read_prefix_enough _ 9 mine) by lia.
    rewrite bind_ret_l.
    rewrite (@read_prefix_enough _ 9 (map Fin B))
      by (rewrite length_map; lia).
    rewrite bind_ret_l, (Hnz H4).
    assert (Hfinal : forall Mr Mi : list real_t,
      (9 <= length Mr)%nat -> (9 <= length Mi)%nat ->
      (M1 <- read_prefix (3 * 3) Mr ;;
       M2 <- read_prefix (3 * 3) Mi ;;
       src <- read_prefix (square_count d)
                (to_storage order 3 (superpose EigenSolver 3 p M1 M2)) ;;
       m <- write_prefix src mine ;;
       ret {| _metric := Some m; _dimension := d |})
      = Undefined).
    { intros Mr Mi HMr HMi. change (3 * 3)%nat with 9%nat.
      rewrite (@read_prefix_enough _ 9 Mr HMr), bind_ret_l.
      rewrite (@read_prefix_enough _ 9 Mi HMi), bind_ret_l.
      rewrite read_prefix_short; [reflexivity |].
      rewrite length_to_storage by apply length_superpose.
      rewrite Hsq. lia. }
    destruct (Real.gtb _ _); rewrite bind_ret_l; apply Hfinal;
      rewrite ?length_map; lia.
Qed.

Lemma constrain_unsupported_dimension_witness :
  constrain ColMajor example_solver
    {| _metric := Some (repeat (Fin 1) 16); _dimension := 4 |}
    (map Fin (repeat 1 16)) true
  = Undefined.
Proof.
  apply (@constrain_unsupported_dimension ColMajor example_solver 4
           (repeat (Fin 1) 16) (repeat 1 16) true).
  - lia.
  - discriminate.
  - discriminate.
  - reflexivity.
  - reflexivity.
  - intros _. cbn. rewrite Reqb0_false by lra. reflexivity.
Defined.

(** A matrix with a left inverse sends no vector but zero to zero. *)
Lemma left_invertible_injective (n : nat) (H G v : list R) :
  (n = 2 \/ n = 3)%nat ->
  length H = (n * n)%nat -> length G = (n * n)%nat -> length v = n ->
  mmul n H G = identity n ->
  0 < dot n v v -> 0 < dot n (mat_vec n G v) (mat_vec n G v).
Proof.
  intros Hd HH HG Hv Hinv Hpos.
  assert (Hback : mat_vec n H (mat_vec n G v) = v).
  { rewrite <- (@mat_vec_mmul n H G v Hd HH HG Hv), Hinv.
    apply mat_vec_identity; assumption. }
  pose proof (length_mat_vec n G v) as Hy.
  set (y := mat_vec n G v) in *. clearbody y.
  destruct (Rlt_le_dec 0 (dot n y y)) as [Hgt | Hle]; [exact Hgt |].
  exfalso.
  assert (Hy0 : y = repeat 0 n).
  { destruct Hd; subst n; explode y; cbn in Hle |- *.
    - pose proof (sqr_nonneg r). pose proof (sqr_nonneg r0).
      entrywise; nra.
    - pose proof (sqr_nonneg r). pose proof (sqr_nonneg r0).
      pose proof (sqr_nonneg r1).
      entrywise; nra. }
  subst y.
  assert (Hv0 : v = repeat 0 n).
  { rewrite <- Hback. clear Hback Hinv Hpos Hle.
    destruct Hd; subst n; explode H; cbn; entrywise; ring. }
  rewrite Hv0 in Hpos.
  destruct Hd; subst n; cbn in Hpos; lra.
Qed.

Lemma inverse_nonsingular (n : nat) (F : list R) :
  (n = 2 \/ n = 3)%nat -> length F = (n * n)%nat ->
  determinant n F <> 0 -> determinant n (inverse n F) <> 0.
Proof.
  intros Hd HF Hdet Hzero.
  pose proof (f_equal (determinant n) (@inverse_l n F Hd HF Hdet)) as H.
  rewrite determinant_mmul, determinant_identity, Hzero in H;
    try assumption; [lra | apply length_inverse; assumption].
Qed.

(** A congruence by a nonsingular matrix keeps positive definiteness. *)
Lemma congruence_positive_definite (n : nat) (G S : list R) :
  (n = 2 \/ n = 3)%nat ->
  length G = (n * n)%nat -> length S = (n * n)%nat ->
  determinant n G <> 0 ->
  positive_definite n S ->
  positive_definite n (mmul n (mmul n (transpose n G) S) G).
Proof.
  intros Hd HG HS Hdet (Hsym & Hpd). split.
  - apply congruence_symmetric; assumption.
  - intros v Hv Hpos.
    rewrite (@qform_congruence n G S v Hd HG HS Hv).
    apply Hpd; [apply length_mat_vec |].
    apply (@left_invertible_injective n (inverse n G) G v); try assumption.
    + apply length_inverse; assumption.
    + apply inverse_l; assumption.
Qed.

Lemma Rclamp_positive (p : bool) (L : list R) :
  Forall (fun x => 0 < x) L ->
  Forall (fun x => 0 < x) (Rclamp p (map Rabs L)).
Proof.
  intros Hpos. unfold Rclamp.
  destruct p; rewrite map_map; apply Forall_map;
    (eapply Forall_impl; [| exact Hpos]); intros x Hx; cbv beta in *.
  - apply Rlt_le_trans with 1; [lra | apply Rmax_l].
  - apply Rmin_glb_lt; [lra | rewrite Rabs_pos_eq; lra].
Qed.

(** [E diag(c) E^T] with orthogonal [E] and positive [c] is positive
    definite. *)
Lemma spectral_positive_definite (n : nat) (W c : list R) :
  (n = 2 \/ n = 3)%nat -> length W = (n * n)%nat -> length c = n ->
  orthogonal n W ->
  Forall (fun x => 0 < x) c ->
  positive_definite n (spectral n W c).
Proof.
  intros Hd HW Hc Hort Hpos. split.
  - apply spectral_symmetric; assumption.
  - intros v Hv Hv0.
    assert (Hsys : eigen_system n (spectral n W c) c W).
    { split; [exact Hc |]. split; [exact HW |]. split; [| exact Hort].
      apply spectral_eigen; try assumption. exact (proj1 Hort). }
    destruct (@list_min_lower n c Hd Hc) as (Hlo & Hin).
    assert (Hmin : 0 < list_min c)
      by (rewrite Forall_forall in Hpos; apply Hpos, Hin).
    pose proof (@rayleigh_bounds n (spectral n W c) c W
                  (list_min c) (list_max c) Hd (length_spectral n W c)
                  Hsys Hlo (proj1 (@list_max_upper n c Hd Hc)) v Hv) as Hb.
    apply Rlt_le_trans with (list_min c * dot n v v); [| lra].
    apply Rmult_lt_0_compat; assumption.
Qed.

(** [superpose] on two positive definite matrices returns a positive
    definite matrix, in both modes. *)
Lemma superpose_positive_definite
  (EigenSolver : nat -> list real_t -> list real_t * list real_t)
  (n : nat) (p : bool) (Mr Mi : list R) :
  (n = 2 \/ n = 3)%nat ->
  length Mr = (n * n)%nat -> length Mi = (n * n)%nat ->
  positive_definite n Mr -> positive_definite n Mi ->
  eigen_contract EigenSolver n ->
  exists C,
    superpose EigenSolver n p (map Fin Mr) (map Fin Mi) = map Fin C
    /\ length C = (n * n)%nat
    /\ positive_definite n C.
Proof.
  intros Hd HMr HMi HpdR HpdI Hcontract.
  destruct (Hcontract Mr HMr (proj1 HpdR)) as (L & E & Hsolve).
  pose proof Hsolve as (Hrun & Hsys).
  pose proof Hsys as (HL & HE & _ & Hort).
  pose proof (eigenvalues_positive Hd HMr HpdR Hsys) as Hpos.
  set (s := map sqrt (map Rabs L)).
  assert (Hs : length s = n) by (unfold s; rewrite !length_map; exact HL).
  set (F := diag_mul_l n s E).
  assert (HF : length F = (n * n)%nat) by apply length_tabulate.
  assert (Hdet : determinant n F <> 0).
  { unfold F. rewrite determinant_diag_mul_l by assumption.
    apply Rmult_integral_contrapositive_currified.
    - apply Rgt_not_eq, Rlt_gt, product_positive, Forall_sqrt_positive, Hpos.
    - apply orthogonal_determinant; assumption. }
  assert (HFi : length (inverse n F) = (n * n)%nat)
    by (apply length_inverse; assumption).
  set (M := mmul n (mmul n (transpose n (inverse n F)) Mi) (inverse n F)).
  assert (HM : length M = (n * n)%nat) by apply length_tabulate.
  assert (HpdM : positive_definite n M).
  { apply congruence_positive_definite; try assumption.
    apply inverse_nonsingular; assumption. }
  destruct (Hcontract M HM (proj1 HpdM)) as (L' & W & Hrun' & Hsys').
  pose proof Hsys' as (HL' & HW & _ & Hort').
  pose proof (eigenvalues_positive Hd HM HpdM Hsys') as Hpos'.
  exists (superposed n p F L' W).
  split; [| split; [apply length_tabulate |]].
  - apply (@superpose_finite EigenSolver n p Mr Mi L E F M L' W);
      try assumption; reflexivity.
  - rewrite (@superposed_congruence n p F L' W Hd HF HL' HW).
    apply congruence_positive_definite; try assumption.
    + apply length_spectral.
    + apply spectral_positive_definite; try assumption.
      * rewrite length_Rclamp, length_map. exact HL'.
      * apply Rclamp_positive, Hpos'.
Qed.

(** [constrain] keeps the class: on two positive definite tensors it
    stores a positive definite tensor of the same dimension, whichever
    lengths are preserved. *)
Theorem constrain_keeps_positive_definite
  (order : StorageOrder)
  (EigenSolver : nat -> list real_t -> list real_t * list real_t)
  (d : nat) (A B : list R) (p : bool) :
  (d = 2 \/ d = 3)%nat ->
  length A = (d * d)%nat -> length B = (d * d)%nat ->
  positive_definite d A -> positive_definite d B ->
  eigen_contract EigenSolver d ->
  exists C,
    constrain order EigenSolver
      {| _metric := Some (map Fin A); _dimension := Z.of_nat d |}
      (map Fin B) p
    = ret {| _metric := Some (map Fin C); _dimension := Z.of_nat d |}
    /\ length C = (d * d)%nat
    /\ positive_definite d C.
Proof.
  intros Hd HA HB HpdA HpdB Hcontract.
  rewrite (@constrain_finite order EigenSolver d A B p Hd HA HB
             (proj1 HpdA) (proj1 HpdB)).
  rewrite (@positive_definite_not_zero d B Hd HB HpdB).
  destruct (Real.gtb _ _).
  - destruct (@superpose_positive_definite EigenSolver d p B A Hd HB HA
                HpdB HpdA Hcontract) as (C & Hrun & HC & HpdC).
    exists C. cbv beta iota.
    rewrite Hrun, to_storage_Fin, (to_storage_symmetric order (proj1 HpdC)).
    repeat split; try assumption; apply HpdC.
  - destruct (@superpose_positive_definite EigenSolver d p A B Hd HA HB
                HpdA HpdB Hcontract) as (C & Hrun & HC & HpdC).
    exists C. cbv beta iota.
    rewrite Hrun, to_storage_Fin, (to_storage_symmetric order (proj1 HpdC)).
    repeat split; try assumption; apply HpdC.
Qed.

Lemma constrain_keeps_positive_definite_witness :
  exists C,
    constrain ColMajor example_solver
      {| _metric := Some (map Fin [73; 36; 36; 52]);
         _dimension := Z.of_nat 2 |}
      (map Fin [1; 0; 0; 4]) false
    = ret {| _metric := Some (map Fin C); _dimension := Z.of_nat 2 |}
    /\ length C = (2 * 2)%nat
    /\ positive_definite 2 C.
Proof.
  apply (@constrain_keeps_positive_definite ColMajor example_solver 2
           [73; 36; 36; 52] [1; 0; 0; 4] false).
  - left; reflexivity.
  - reflexivity.
  - reflexivity.
  - exact positive_definite_73.
  - apply positive_definite_example; lra.
  - exact example_solver_contract_2.
Defined.

(* ================================================================== *)
(** ** The stream operator and [get_metric] *)
(* ================================================================== *)

Lemma firstn_plus {T} (a b : nat) (l : list T) :
  firstn (a + b) l = firstn a l ++ firstn b (skipn a l).
Proof.
  revert l. induction a as [| a IH]; intros l; [reflexivity |].
  destruct l as [| x l]; [cbn; rewrite firstn_nil; reflexivity |].
  cbn. rewrite IH. reflexivity.
Qed.

Lemma print_row_enough (j : nat) (g : list real_t) :
  (j <= length g)%nat ->
  exists row,
    print_row j g = ret (row, skipn j g)
    /\ values_of row = firstn j g
    /\ lines_of row = 0%nat
    /\ length row = (2 * j)%nat.
Proof.
  revert g. induction j as [| j IH]; intros g Hj.
  - exists []. repeat split.
  - destruct g as [| x g]; [cbn in Hj; lia |].
    destruct (IH g ltac:(cbn in Hj; lia)) as (row & Hrun & Hval & Hlines & Hlen).
    exists (Value x :: Space :: row).
    cbn [print_row]. rewrite Hrun, bind_ret_l.
    repeat split.
    + cbn. unfold values_of in Hval. rewrite Hval. reflexivity.
    + exact Hlines.
    + cbn [length]. lia.
Qed.

Lemma values_of_app (a b : list token) :
  values_of (a ++ b) = values_of a ++ values_of b.
Proof. apply flat_map_app. Qed.

Lemma lines_of_app (a b : list token) :
  lines_of (a ++ b) = (lines_of a + lines_of b)%nat.
Proof. unfold lines_of. rewrite filter_app, length_app. reflexivity. Qed.

Lemma print_rows_enough (i d : nat) (g : list real_t) :
  (i * d <= length g)%nat ->
  exists items,
    print_rows i d g = ret items
    /\ values_of items = firstn (i * d) g
    /\ lines_of items = i
    /\ length items = (i * (2 * d + 1))%nat.
Proof.
  revert g. induction i as [| i IH]; intros g Hi.
  - exists []. repeat split.
  - destruct (@print_row_enough d g ltac:(cbn in Hi; lia))
      as (row & Hrow & Hval & Hlines & Hlen).
    destruct (IH (skipn d g) ltac:(rewrite length_skipn; cbn in Hi; lia))
      as (rest & Hrest & Hval' & Hlines' & Hlen').
    exists (row ++ Newline :: rest).
    cbn [print_rows]. rewrite Hrow, bind_ret_l. cbv beta iota.
    rewrite Hrest, bind_ret_l.
    repeat split.
    + rewrite values_of_app. change (values_of (Newline :: rest))
        with (values_of rest).
      rewrite Hval, Hval'. cbn [Nat.mul]. symmetry. apply firstn_plus.
    + rewrite lines_of_app, Hlines.
      change (lines_of (Newline :: rest)) with (S (lines_of rest)).
      rewrite Hlines'. reflexivity.
    + rewrite length_app. cbn [length]. rewrite Hlen, Hlen'. lia.
Qed.

Lemma print_row_layout (j k : nat) (buf : list real_t) :
  (k + j <= length buf)%nat ->
  print_row j (skipn k buf)
  = ret (flat_map (fun c => [Value (nth c buf (Fin 0)); Space]) (seq k j),
         skipn (k + j) buf).
Proof.
  revert k. induction j as [| j IH]; intros k Hk.
  - cbn. rewrite Nat.add_0_r. reflexivity.
  - assert (Hlt : (k < length buf)%nat) by lia.
    destruct (skipn k buf) as [| x g] eqn:Hskip.
    + apply (f_equal (@length _)) in Hskip.
      rewrite length_skipn in Hskip. cbn in Hskip. lia.
    + assert (Hx : x = nth k buf (Fin 0)).
      { rewrite <- (firstn_skipn k buf) at 1.
        rewrite app_nth2 by (rewrite length_firstn; lia).
        rewrite length_firstn, Nat.min_l, Nat.sub_diag, Hskip by lia.
        reflexivity. }
      assert (Hg : g = skipn (S k) buf).
      { change (S k) with (1 + k)%nat. rewrite <- skipn_skipn, Hskip.
        reflexivity. }
      cbn [print_row]. rewrite Hg, (IH (S k)) by lia.
      rewrite bind_ret_l. cbn [seq flat_map app].
      rewrite Hx. replace (S k + j)%nat with (k + S j)%nat by lia.
      reflexivity.
Qed.

Lemma flat_map_seq_shift {T} (d : nat) :
  forall (f : nat -> list T) (k : nat),
    flat_map f (seq k d) = flat_map (fun j => f (k + j)%nat) (seq 0 d).
Proof.
  induction d as [| d IH]; intros f k; [reflexivity |].
  cbn [seq flat_map]. rewrite Nat.add_0_r. f_equal.
  rewrite (IH f (S k)), (IH (fun j => f (k + j)%nat) 1%nat).
  apply flat_map_ext. intros j. f_equal. lia.
Qed.

Lemma flat_map_shift (d k : nat) (buf : list real_t) :
  flat_map (fun c => [Value (nth c buf (Fin 0)); Space]) (seq k d)
  = flat_map (fun j => [Value (nth (k + j) buf (Fin 0)); Space]) (seq 0 d).
Proof.
  apply (@flat_map_seq_shift _ d
           (fun c => [Value (nth c buf (Fin 0)); Space]) k).
Qed.

Lemma print_rows_layout (i d r : nat) (buf : list real_t) :
  ((r + i) * d <= length buf)%nat ->
  print_rows i d (skipn (r * d) buf)
  = ret (flat_map (printed_row d buf) (seq r i)).
Proof.
  revert r. induction i as [| i IH]; intros r Hr; [reflexivity |].
  cbn [print_rows].
  rewrite print_row_layout by nia. rewrite bind_ret_l. cbv beta iota.
  replace (r * d + d)%nat with (S r * d)%nat by lia.
  rewrite (IH (S r)) by (replace (S r + i)%nat with (r + S i)%nat by lia; exact Hr).
  rewrite bind_ret_l. cbn [seq flat_map].
  unfold printed_row at 2. rewrite flat_map_shift, <- app_assoc.
  reflexivity.
Qed.

(** The stream operator prints the buffer row by row: [_dimension] lines,
    each of [_dimension] values that are each followed by a space, and
    each line closed by an end of line; the values are, in order, those
    that [get_metric] copies. *)
Theorem stream_prints_what_get_metric_copies
  (buf out : list real_t) (d : Z) :
  (0 <= d < 2147483648)%Z ->
  length buf = Z.to_nat (d * d) -> length out = Z.to_nat (d * d) ->
  let self := {| _metric := Some buf; _dimension := d |} in
  let items := printed_layout (Z.to_nat d) buf in
  stream_out self = ret items
  /\ get_metric self out = ret (values_of items)
  /\ lines_of items = Z.to_nat d
  /\ length items = (Z.to_nat d * (2 * Z.to_nat d + 1))%nat.
Proof.
  intros Hd Hbuf Hout self items.
  assert (Hsq : square_count d = Z.to_nat (d * d)).
  { rewrite <- (size_t_of_int_small Hd) at 1. apply square_count_small, Hd. }
  assert (Hnn : Z.to_nat (d * d) = (Z.to_nat d * Z.to_nat d)%nat)
    by (apply Z2Nat.inj_mul; lia).
  assert (Hrun : stream_out self = ret items).
  { unfold stream_out, self, items, printed_layout. cbn [_dimension _metric].
    apply (@print_rows_layout (Z.to_nat d) (Z.to_nat d) 0 buf).
    rewrite Hbuf, Hnn. lia. }
  destruct (@print_rows_enough (Z.to_nat d) (Z.to_nat d) buf
              ltac:(rewrite Hbuf, Hnn; lia))
    as (items' & Hrun' & Hval & Hlines & Hlen).
  assert (Heq : items' = items).
  { unfold stream_out, self in Hrun. cbn [_dimension _metric] in Hrun.
    rewrite Hrun' in Hrun. injection Hrun as Hrun. exact Hrun. }
  subst items'.
  split; [exact Hrun |]. split; [| split; assumption].
  unfold self. rewrite get_metric_copies by (rewrite Hsq; lia).
  rewrite Hval, Hsq, <- Hnn, <- Hbuf, firstn_all.
  rewrite Hbuf, <- Hout, skipn_all, app_nil_r. reflexivity.
Qed.

Lemma stream_prints_what_get_metric_copies_witness :
  stream_out {| _metric := Some [Fin 1; Fin 2; Fin 3; Fin 4];
                _dimension := 2 |}
  = ret [Value (Fin 1); Space; Value (Fin 2); Space; Newline;
         Value (Fin 3); Space; Value (Fin 4); Space; Newline]
  /\ get_metric {| _metric := Some [Fin 1; Fin 2; Fin 3; Fin 4];
                   _dimension := 2 |} [NaN; NaN; NaN; NaN]
     = ret [Fin 1; Fin 2; Fin 3; Fin 4]
  /\ lines_of (printed_layout 2 [Fin 1; Fin 2; Fin 3; Fin 4]) = 2%nat
  /\ length (printed_layout 2 [Fin 1; Fin 2; Fin 3; Fin 4]) = 10%nat.
Proof.
  apply (@stream_prints_what_get_metric_copies
           [Fin 1; Fin 2; Fin 3; Fin 4] [NaN; NaN; NaN; NaN] 2).
  - lia.
  - reflexivity.
  - reflexivity.
Defined.

(* ================================================================== *)
(** ** Compositions: the round trip, the trace and [set_metric] *)
(* ================================================================== *)

(** [eigen_decomp] followed by [eigen_undecomp] stores what
    [positive_definiteness] stores, when the linear index is row-major or
    the eigenvector matrix is symmetric: both recompose [E |L| E^T]. *)
Theorem decomp_undecomp_is_positive_definiteness
  (order : StorageOrder)
  (EigenSolver : nat -> list real_t -> list real_t * list real_t)
  (d : nat) (A L E : list R) :
  (d = 2 \/ d = 3)%nat ->
  length A = (d * d)%nat -> length L = d -> length E = (d * d)%nat ->
  isZero (map Fin A) = false ->
  EigenSolver d (map Fin A) = (map Fin L, map Fin E) ->
  order = RowMajor \/ transpose d E = E ->
  let self := {| _metric := Some (map Fin A); _dimension := Z.of_nat d |} in
  exists P : list R,
    positive_definiteness order EigenSolver (Z.of_nat d) (map Fin A)
    = ret (map Fin P)
    /\ ('(D, V) <- eigen_decomp order EigenSolver self
                     (repeat (Fin 0) d) (repeat (Fin 0) (d * d)) ;;
        eigen_undecomp self D V)
       = ret ({| _metric := Some (map Fin P); _dimension := Z.of_nat d |},
              0%Z).
Proof.
  intros Hd HA HL HE Hnz Hrun Horder self.
  assert (HR : length (map Rabs L) = d) by (rewrite length_map; exact HL).
  pose proof (@spectral_symmetric d E (map Rabs L) Hd HE HR) as Hsym.
  exists (spectral d E (map Rabs L)). split.
  - rewrite (@positive_definiteness_finite order EigenSolver d A L E
               Hd HA Hrun), Hnz.
    rewrite (to_storage_symmetric order Hsym). reflexivity.
  - unfold self.
    rewrite (@eigen_decomp_finite order EigenSolver d A L E);
      try assumption; try apply repeat_length.
    rewrite bind_ret_l. cbv beta iota.
    rewrite eigen_undecomp_finite; try assumption.
    + rewrite (map_Rabs_nonneg (Forall_Rabs L)).
      replace (transpose d (to_storage order d (transpose d E))) with E;
        [reflexivity |].
      destruct Horder as [-> | HsE]; cbn [to_storage].
      * symmetry. apply transpose_involutive; assumption.
      * destruct order; cbn [to_storage].
        -- symmetry. apply transpose_involutive; assumption.
        -- rewrite !HsE. reflexivity.
    + rewrite length_map. exact HA.
    + apply length_to_storage. apply length_transpose.
Qed.

Lemma schur2_indefinite :
  schur2 (map Fin [-20; 60; 60; -55])
  = (map Fin [25; -100], map Fin [4/5; -(3/5); 3/5; 4/5]).
Proof.
  cbn. decide_R. cbn. decide_R.
  match goal with
  | |- context [sqrt (Rabs ?x)] => replace (Rabs x) with (125/2 * (125/2))
  end.
  2:{ rewrite Rabs_right; lra. }
  rewrite sqrt_square by lra. cbn. decide_R. cbn.
  match goal with
  | |- context [sqrt ?x] => rewrite (@sqrt_eq x 100) by lra
  end.
  decide_R. cbn. decide_R.
  apply f_equal2; entrywise; field.
Qed.

Lemma decomp_undecomp_is_positive_definiteness_witness :
  exists P : list R,
    positive_definiteness RowMajor example_solver (Z.of_nat 2)
      (map Fin [-20; 60; 60; -55])
    = ret (map Fin P)
    /\ ('(D, V) <- eigen_decomp RowMajor example_solver
                     {| _metric := Some (map Fin [-20; 60; 60; -55]);
                        _dimension := Z.of_nat 2 |}
                     (repeat (Fin 0) 2) (repeat (Fin 0) (2 * 2)) ;;
        eigen_undecomp
          {| _metric := Some (map Fin [-20; 60; 60; -55]);
             _dimension := Z.of_nat 2 |} D V)
       = ret ({| _metric := Some (map Fin P); _dimension := Z.of_nat 2 |},
              0%Z).
Proof.
  apply (@decomp_undecomp_is_positive_definiteness RowMajor example_solver 2
           [-20; 60; 60; -55] [25; -100] [4/5; -(3/5); 3/5; 4/5]).
  - left; reflexivity.
  - reflexivity.
  - reflexivity.
  - reflexivity.
  - cbn. rewrite Reqb0_false by lra. reflexivity.
  - exact schur2_indefinite.
  - left; reflexivity.
Defined.

(** [average_length] in closed form: [sqrt(d / trace)], the eigenvalues
    of a symmetric matrix adding up to its trace. *)
Theorem average_length_is_trace
  (order : StorageOrder)
  (EigenSolver : nat -> list real_t -> list real_t * list real_t)
  (d : nat) (A L E : list R) :
  (d = 2 \/ d = 3)%nat ->
  length A = (d * d)%nat ->
  positive_definite d A ->
  solves EigenSolver d A L E ->
  average_length order EigenSolver
    {| _metric := Some (map Fin A); _dimension := Z.of_nat d |}
  = ret (Fin (sqrt (INR d / trace d A))).
Proof.
  intros Hd HA Hpd Hsolve.
  destruct (@length_queries_spectrum order EigenSolver d A L E
              Hd HA Hpd Hsolve) as (_ & _ & Havg & _).
  rewrite Havg, (@trace_is_sum d A L E Hd HA (proj2 Hsolve)). reflexivity.
Qed.

Lemma average_length_is_trace_witness :
  average_length ColMajor example_solver
    {| _metric := Some (map Fin [73; 36; 36; 52]);
       _dimension := Z.of_nat 2 |}
  = ret (Fin (sqrt (INR 2 / trace 2 [73; 36; 36; 52]))).
Proof.
  apply (@average_length_is_trace ColMajor example_solver 2
           [73; 36; 36; 52] [100; 25] [4/5; -(3/5); 3/5; 4/5]).
  - left; reflexivity.
  - reflexivity.
  - exact positive_definite_73.
  - exact example_solves.
Defined.

(** What [positive_definiteness] stores for a finite symmetric input. *)
Lemma positive_definiteness_result
  (order : StorageOrder)
  (EigenSolver : nat -> list real_t -> list real_t * list real_t)
  (d : nat) (A : list R) :
  (d = 2 \/ d = 3)%nat ->
  length A = (d * d)%nat ->
  symmetric d A ->
  eigen_contract EigenSolver d ->
  exists P,
    positive_definiteness order EigenSolver (Z.of_nat d) (map Fin A)
    = ret (map Fin P)
    /\ length P = (d * d)%nat /\ positive_semidefinite d P.
Proof.
  intros Hd HA Hsym Hcontract.
  destruct (Hcontract A HA Hsym) as (L & E & Hrun & Hsys).
  pose proof Hsys as (HL & HE & _).
  assert (HR : length (map Rabs L) = d) by (rewrite length_map; exact HL).
  rewrite (@positive_definiteness_finite order EigenSolver d A L E
             Hd HA Hrun).
  destruct (isZero (map Fin A)) eqn:Hz.
  - exists A. split; [reflexivity |]. split; [exact HA |].
    split; [exact Hsym |]. intros v Hv.
    apply isZero_Fin_true in Hz. rewrite HA in Hz. rewrite Hz.
    destruct Hd; subst d; explode_all; cbn; lra.
  - exists (spectral d E (map Rabs L)).
    pose proof (@spectral_symmetric d E (map Rabs L) Hd HE HR) as Hs.
    rewrite (to_storage_symmetric order Hs).
    split; [reflexivity |]. split; [apply length_spectral |].
    split; [exact Hs |]. intros v Hv.
    rewrite (@qform_spectral d E (map Rabs L) v Hd HE HR Hv).
    apply weighted_squares_nonneg;
      [exact Hd | exact HR | apply Forall_Rabs].
Qed.

(** The invariant [set_metric] establishes: given a finite symmetric
    tensor, the object holds a symmetric positive semi-definite tensor of
    that dimension afterwards, on a default-constructed object and on one
    of the same dimension. *)
Theorem set_metric_establishes_semidefinite
  (order : StorageOrder)
  (EigenSolver : nat -> list real_t -> list real_t * list real_t)
  (d : nat) (A : list R) (self : MetricTensor) :
  (d = 2 \/ d = 3)%nat ->
  length A = (d * d)%nat ->
  symmetric d A ->
  eigen_contract EigenSolver d ->
  _metric self = None
  \/ (exists buf, _metric self = Some buf /\ length buf = (d * d)%nat
                  /\ _dimension self = Z.of_nat d) ->
  exists P,
    set_metric order EigenSolver self (Z.of_nat d) (map Fin A)
    = ret {| _metric := Some (map Fin P); _dimension := Z.of_nat d |}
    /\ length P = (d * d)%nat
    /\ positive_semidefinite d P.
Proof.
  intros Hd HA Hsym Hcontract Hself.
  destruct (@positive_definiteness_result order EigenSolver d A
              Hd HA Hsym Hcontract) as (P & Hrun & HP & Hpsd).
  exists P. split; [| split; assumption].
  assert (Hdz : (0 <= Z.of_nat d < 2147483648)%Z) by (destruct Hd; subst d; lia).
  assert (Hsq : square_count (Z.of_nat d) = (d * d)%nat).
  { destruct Hd; subst d; [apply square_count_2 | apply square_count_3]. }
  assert (HlA : length (map Fin A) = (d * d)%nat)
    by (rewrite length_map; exact HA).
  unfold set_metric. rewrite size_t_of_int_small by exact Hdz.
  destruct Hself as [Hnone | (buf & Hsome & Hbuf & Hdim)].
  - rewrite Hnone, bind_ret_l. cbv beta iota. rewrite Hsq.
    rewrite read_prefix_exact by exact HlA. rewrite bind_ret_l.
    rewrite write_prefix_exact by (rewrite repeat_length; exact HlA).
    rewrite bind_ret_l, int_of_size_t_small by exact Hdz.
    rewrite Hrun, bind_ret_l. reflexivity.
  - rewrite Hsome, Hdim, Z.eqb_refl. cbn [negb].
    rewrite bind_ret_l. cbv beta iota. rewrite Hsq.
    rewrite read_prefix_exact by exact HlA. rewrite bind_ret_l.
    rewrite write_prefix_exact by (rewrite Hbuf; exact HlA).
    rewrite bind_ret_l, int_of_size_t_small by exact Hdz.
    rewrite Hrun, bind_ret_l. reflexivity.
Qed.

Lemma set_metric_establishes_semidefinite_witness :
  exists P,
    set_metric ColMajor example_solver default_MetricTensor (Z.of_nat 2)
      (map Fin [1; 2; 2; -2])
    = ret {| _metric := Some (map Fin P); _dimension := Z.of_nat 2 |}
    /\ length P = (2 * 2)%nat
    /\ positive_semidefinite 2 P.
Proof.
  apply (@set_metric_establishes_semidefinite ColMajor example_solver 2
           [1; 2; 2; -2] default_MetricTensor).
  - left; reflexivity.
  - reflexivity.
  - reflexivity.
  - exact example_solver_contract_2.
  - left; reflexivity.
Defined.

(* ================================================================== *)
(** ** The reference of [constrain] *)
(* ================================================================== *)

Lemma map_Fin_injective (l l' : list R) : map Fin l = map Fin l' -> l = l'.
Proof.
  revert l'. induction l as [| x l IH]; intros [| y l'] H;
    try discriminate H; [reflexivity |].
  cbn in H. injection H as Hx Hl. f_equal; [exact Hx | exact (IH _ Hl)].
Qed.

(** The ratio [constrain] computes from positive eigenvalues. *)
Lemma aspect_finite (d : nat) (L : list R) :
  (d = 2 \/ d = 3)%nat -> length L = d ->
  Forall (fun x => 0 < x) L ->
  aspect d (map Real.abs (map Fin L)) = Fin (aspect_ratio L).
Proof.
  intros Hd HL Hpos.
  destruct (@positive_spectrum d L Hd HL Hpos) as (P0 & P1 & _).
  rewrite map_abs_Fin.
  rewrite map_Rabs_nonneg
    by (eapply Forall_impl; [| exact Hpos]; intros x Hx; cbv beta in Hx; lra).
  unfold aspect, aspect_ratio. unfold list_min, list_max in *.
  destruct Hd; subst d; explode L; cbn [Nat.eqb map nth tl hd fold_left] in *.
  - unfold aspect2. cbn [nth]. rewrite std_min_Fin, std_max_Fin.
    apply div_Fin. lra.
  - unfold aspect3. cbn [nth]. rewrite !std_min_Fin, !std_max_Fin.
    apply div_Fin. lra.
Qed.

(** Which tensor [constrain] takes as the reference, on positive
    definite tensors: the argument when its ratio is strictly the larger,
    else the object. *)
Lemma reference_choice
  (EigenSolver : nat -> list real_t -> list real_t * list real_t)
  (d : nat) (A B LA EA LB EB : list R) :
  (d = 2 \/ d = 3)%nat ->
  length A = (d * d)%nat -> length B = (d * d)%nat ->
  positive_definite d A -> positive_definite d B ->
  solves EigenSolver d A LA EA -> solves EigenSolver d B LB EB ->
  Real.gtb (aspect d (map Real.abs (fst (EigenSolver d (map Fin B)))))
           (aspect d (map Real.abs (fst (EigenSolver d (map Fin A)))))
  = Rltb (aspect_ratio LA) (aspect_ratio LB).
Proof.
  intros Hd HA HB HpdA HpdB (HrunA & HsysA) (HrunB & HsysB).
  rewrite HrunA, HrunB. cbn [fst].
  rewrite (@aspect_finite d LA Hd (proj1 HsysA)
             (eigenvalues_positive Hd HA HpdA HsysA)).
  rewrite (@aspect_finite d LB Hd (proj1 HsysB)
             (eigenvalues_positive Hd HB HpdB HsysB)).
  reflexivity.
Qed.

(** [constrain] on two positive definite tensors, for any storage order
    and any solver that meets the contract of a symmetric eigensolver.
    The call returns a finite tensor [C].  The reference is the argument
    [B] when its aspect ratio is strictly larger than that of the object
    [A], and [A] otherwise.  With [(L, E)] the eigensystem the solver
    gives for the reference, [C] bounds the other tensor and
    [E^T diag(L) E] from above when small edges are preserved, and from
    below otherwise.  The reference itself is [E diag(L) E^T]. *)
Theorem constrain_bounds_mapped_tensor (order : StorageOrder)
  (EigenSolver : nat -> list real_t -> list real_t * list real_t)
  (d : nat) (A B : list R) (p : bool) :
  (d = 2 \/ d = 3)%nat ->
  length A = (d * d)%nat -> length B = (d * d)%nat ->
  positive_definite d A -> positive_definite d B ->
  eigen_contract EigenSolver d ->
  exists C LA EA LB EB,
    solves EigenSolver d A LA EA
    /\ solves EigenSolver d B LB EB
    /\ constrain order EigenSolver
         {| _metric := Some (map Fin A); _dimension := Z.of_nat d |}
         (map Fin B) p
       = ret {| _metric := Some (map Fin C); _dimension := Z.of_nat d |}
    /\ (aspect_ratio LA < aspect_ratio LB ->
        B = spectral d EB LB
        /\ forall v, length v = d ->
             if p
             then qform d A v <= qform d C v
                  /\ qform d (spectral d (transpose d EB) LB) v
                     <= qform d C v
             else qform d C v <= qform d A v
                  /\ qform d C v
                     <= qform d (spectral d (transpose d EB) LB) v)
    /\ (aspect_ratio LB <= aspect_ratio LA ->
        A = spectral d EA LA
        /\ forall v, length v = d ->
             if p
             then qform d B v <= qform d C v
                  /\ qform d (spectral d (transpose d EA) LA) v
                     <= qform d C v
             else qform d C v <= qform d B v
                  /\ qform d C v
                     <= qform d (spectral d (transpose d EA) LA) v).
Proof.
  intros Hd HA HB HpdA HpdB Hcontract.
  destruct (Hcontract A HA (proj1 HpdA)) as (LA & EA & HsA).
  destruct (Hcontract B HB (proj1 HpdB)) as (LB & EB & HsB).
  rewrite (@constrain_finite order EigenSolver d A B p Hd HA HB
             (proj1 HpdA) (proj1 HpdB)).
  rewrite (@positive_definite_not_zero d B Hd HB HpdB).
  rewrite (@reference_choice EigenSolver d A B LA EA LB EB
             Hd HA HB HpdA HpdB HsA HsB).
  destruct (Rlt_dec (aspect_ratio LA) (aspect_ratio LB)) as [Hlt | Hge].
  - rewrite Rltb_true by exact Hlt.
    destruct (@superpose_bounds EigenSolver d p B A Hd HB HA HpdB HpdA
                Hcontract) as (C & L & E & Hrun & HC & Hsolve & Hb).
    assert (HL : L = LB /\ E = EB).
    { destruct Hsolve as (Hr & _). destruct HsB as (Hr' & _).
      rewrite Hr in Hr'. injection Hr' as H1 H2.
      split; apply map_Fin_injective; assumption. }
    destruct HL as (-> & ->).
    exists (to_storage order d C), LA, EA, LB, EB.
    cbv beta iota. rewrite Hrun, to_storage_Fin.
    split; [exact HsA |]. split; [exact HsB |]. split; [reflexivity |].
    split; [| intros Hle; exfalso; lra].
    intros _. split.
    + apply eigen_system_spectral; [exact Hd | exact HB | apply HsB].
    + intros v Hv. rewrite (@qform_to_storage order d C v Hd HC Hv).
      apply Hb, Hv.
  - rewrite Rltb_false by lra.
    destruct (@superpose_bounds EigenSolver d p A B Hd HA HB HpdA HpdB
                Hcontract) as (C & L & E & Hrun & HC & Hsolve & Hb).
    assert (HL : L = LA /\ E = EA).
    { destruct Hsolve as (Hr & _). destruct HsA as (Hr' & _).
      rewrite Hr in Hr'. injection Hr' as H1 H2.
      split; apply map_Fin_injective; assumption. }
    destruct HL as (-> & ->).
    exists (to_storage order d C), LA, EA, LB, EB.
    cbv beta iota. rewrite Hrun, to_storage_Fin.
    split; [exact HsA |]. split; [exact HsB |]. split; [reflexivity |].
    split; [intros Hlt; exfalso; lra |].
    intros _. split.
    + apply eigen_system_spectral; [exact Hd | exact HA | apply HsA].
    + intros v Hv. rewrite (@qform_to_storage order d C v Hd HC Hv).
      apply Hb, Hv.
Qed.

Lemma constrain_bounds_mapped_tensor_witness :
  exists C LA EA LB EB,
    solves example_solver 2 [73; 36; 36; 52] LA EA
    /\ solves example_solver 2 [1; 0; 0; 2] LB EB
    /\ constrain ColMajor example_solver
         {| _metric := Some (map Fin [73; 36; 36; 52]);
            _dimension := Z.of_nat 2 |}
         (map Fin [1; 0; 0; 2]) true
       = ret {| _metric := Some (map Fin C); _dimension := Z.of_nat 2 |}
    /\ (aspect_ratio LA < aspect_ratio LB ->
        [1; 0; 0; 2] = spectral 2 EB LB
        /\ forall v, length v = 2%nat ->
             qform 2 [73; 36; 36; 52] v <= qform 2 C v
             /\ qform 2 (spectral 2 (transpose 2 EB) LB) v <= qform 2 C v)
    /\ (aspect_ratio LB <= aspect_ratio LA ->
        [73; 36; 36; 52] = spectral 2 EA LA
        /\ forall v, length v = 2%nat ->
             qform 2 [1; 0; 0; 2] v <= qform 2 C v
             /\ qform 2 (spectral 2 (transpose 2 EA) LA) v <= qform 2 C v).
Proof.
  apply (@constrain_bounds_mapped_tensor ColMajor example_solver 2
           [73; 36; 36; 52] [1; 0; 0; 2] true).
  - left; reflexivity.
  - reflexivity.
  - reflexivity.
  - exact positive_definite_73.
  - apply positive_definite_example; lra.
  - exact example_solver_contract_2.
Defined.

(* ================================================================== *)
(** ** Dimensions outside 2 and 3 *)
(* ================================================================== *)

Lemma nine_or_fewer {T} (l : list T) :
  (9 <= length l)%nat ->
  exists m0 m1 m2 m3 m4 m5 m6 m7 m8 rest,
    l = m0 :: m1 :: m2 :: m3 :: m4 :: m5 :: m6 :: m7 :: m8 :: rest.
Proof.
  intros H.
  do 9 (destruct l as [| ? l]; [cbn in H; lia |]).
  repeat eexists.
Qed.

Lemma positive_definiteness_short
  (order : StorageOrder)
  (EigenSolver : nat -> list real_t -> list real_t * list real_t)
  (dimension : Z) (metric : list real_t) :
  dimension <> 2%Z -> (length metric < 9)%nat ->
  positive_definiteness order EigenSolver dimension metric = Undefined
  /\ positive_definiteness_iso order EigenSolver dimension metric
     = Undefined.
Proof.
  intros Hd Hlen.
  unfold positive_definiteness, positive_definiteness_iso.
  destruct (Z.eqb_spec dimension 2) as [? | _]; [contradiction |].
  do 9 (destruct metric as [| ? metric]; [split; reflexivity |]).
  cbn in Hlen. lia.
Qed.

Lemma positive_definiteness_long
  (order : StorageOrder)
  (EigenSolver : nat -> list real_t -> list real_t * list real_t)
  (dimension : Z) (metric : list real_t) :
  dimension <> 2%Z -> (9 <= length metric)%nat ->
  let M := firstn 9 metric in
  let processed :=
    if isZero M then metric
    else to_storage order 3
           (recompose 3 (snd (EigenSolver 3%nat M))
              (map Real.abs (fst (EigenSolver 3%nat M))))
         ++ skipn 9 metric in
  positive_definiteness order EigenSolver dimension metric = ret processed
  /\ positive_definiteness_iso order EigenSolver dimension metric
     = ret processed.
Proof.
  intros Hd Hlen.
  destruct (nine_or_fewer metric Hlen)
    as (m0 & m1 & m2 & m3 & m4 & m5 & m6 & m7 & m8 & rest & ->).
  unfold positive_definiteness, positive_definiteness_iso.
  destruct (Z.eqb_spec dimension 2) as [? | _]; [contradiction |].
  cbn [firstn skipn].
  destruct (isZero [m0; m1; m2; m3; m4; m5; m6; m7; m8]);
    split; reflexivity.
Qed.

(** C10.  [positive_definiteness] and [positive_definiteness_iso] test
    only [dimension == 2].  For every other dimension, 3 or not, they
    read nine values: a shorter buffer is overrun; on a longer one the
    leading nine values, unless all zero, are replaced by the 3 x 3
    recomposition of the solver's answer on them, the rest is left, and
    nothing is written to [std::cerr].  [eigen_decomp] on a dimension
    outside 2 and 3 writes its diagnostic and leaves its two output
    vectors as they were.  Hence [set_metric] on a fresh object with such
    a dimension (of the [int] range) copies [dimension^2] values and
    treats them the same way: undefined below 3, the leading 3 x 3 block
    processed above. *)
Theorem unsupported_dimension_runs_3x3
  (order : StorageOrder)
  (EigenSolver : nat -> list real_t -> list real_t * list real_t)
  (dimension : Z) (metric : list real_t) :
  dimension <> 2%Z ->
  let M := firstn 9 metric in
  let processed :=
    if isZero M then metric
    else to_storage order 3
           (recompose 3 (snd (EigenSolver 3%nat M))
              (map Real.abs (fst (EigenSolver 3%nat M))))
         ++ skipn 9 metric in
  ((length metric < 9)%nat ->
   positive_definiteness order EigenSolver dimension metric = Undefined
   /\ positive_definiteness_iso order EigenSolver dimension metric
      = Undefined)
  /\ ((9 <= length metric)%nat ->
      positive_definiteness order EigenSolver dimension metric
      = ret processed
      /\ positive_definiteness_iso order EigenSolver dimension metric
         = ret processed)
  /\ (dimension <> 3%Z ->
      forall (buf D V : list real_t),
        eigen_decomp order EigenSolver
          {| _metric := Some buf; _dimension := dimension |} D V
        = Returns (D, V) [UnsupportedDimension dimension])
  /\ ((0 <= dimension < 2147483648)%Z ->
      length metric = Z.to_nat (dimension * dimension) ->
      ((length metric < 9)%nat ->
       set_metric order EigenSolver default_MetricTensor dimension metric
       = Undefined)
      /\ ((9 <= length metric)%nat ->
          set_metric order EigenSolver default_MetricTensor dimension metric
          = ret {| _metric := Some processed; _dimension := dimension |})).
Proof.
  intros Hd M processed.
  assert (Hb : (dimension =? 2)%Z = false) by (apply Z.eqb_neq; exact Hd).
  split; [exact (positive_definiteness_short order EigenSolver metric Hd) |].
  split; [exact (positive_definiteness_long order EigenSolver metric Hd) |].
  split.
  - intros Hd3 buf D V. unfold eigen_decomp. cbn [_dimension].
    rewrite Hb.
    assert (Hb3 : (dimension =? 3)%Z = false) by (apply Z.eqb_neq; exact Hd3).
    rewrite Hb3. reflexivity.
  - intros Hrange Hlen.
    assert (Hsq : square_count dimension = length metric).
    { rewrite Hlen. unfold square_count, size_t_modulus.
      rewrite Z.mod_small by nia. reflexivity. }
    assert (Hset :
      set_metric order EigenSolver default_MetricTensor dimension metric
      = (m <- positive_definiteness order EigenSolver dimension metric ;;
         ret {| _metric := Some m; _dimension := dimension |})).
    { unfold set_metric. cbn [_metric default_MetricTensor].
      rewrite size_t_of_int_small by exact Hrange.
      rewrite bind_ret_l. cbn beta iota.
      rewrite read_prefix_exact by (symmetry; exact Hsq).
      rewrite bind_ret_l.
      rewrite write_prefix_exact by (rewrite repeat_length; symmetry; exact Hsq).
      rewrite bind_ret_l, int_of_size_t_small by exact Hrange.
      reflexivity. }
    rewrite Hset. split; intros Hn.
    + rewrite (proj1 (positive_definiteness_short order EigenSolver
                        metric Hd Hn)).
      reflexivity.
    + rewrite (proj1 (positive_definiteness_long order EigenSolver
                        metric Hd Hn)).
      rewrite bind_ret_l. reflexivity.
Qed.

Lemma example_solver_3_diagonal :
  let M := [Fin 1; Fin 0; Fin 0; Fin 0; Fin (-2); Fin 0; Fin 0; Fin 0; Fin 3] in
  isZero M = false
  /\ to_storage ColMajor 3
       (recompose 3 (snd (example_solver 3 M))
          (map Real.abs (fst (example_solver 3 M))))
     = [Fin 1; Fin 0; Fin 0; Fin 0; Fin 2; Fin 0; Fin 0; Fin 0; Fin 3].
Proof.
  cbv zeta. split.
  - cbn. rewrite Reqb0_false by lra. reflexivity.
  - unfold example_solver. cbn [Nat.eqb fst snd].
    change (map (fun i => coeff 3 [Fin 1; Fin 0; Fin 0; Fin 0; Fin (-2);
                                   Fin 0; Fin 0; Fin 0; Fin 3] i i)
              (seq 0 3))
      with (map Fin [1; -2; 3]).
    change (identity 3) with (map Fin (@identity R _ 3)).
    rewrite map_abs_Fin, recompose_Fin, to_storage_Fin.
    change [Fin 1; Fin 0; Fin 0; Fin 0; Fin 2; Fin 0; Fin 0; Fin 0; Fin 3]
      with (map Fin [1; 0; 0; 0; 2; 0; 0; 0; 3]).
    f_equal. cbn -[Rabs].
    replace (Rabs (-2)) with 2
      by (unfold Rabs; destruct (Rcase_abs (-2)); lra).
    rewrite !Rabs_pos_eq by lra.
    entrywise; ring.
Qed.

Lemma unsupported_dimension_runs_3x3_witness :
  set_metric ColMajor example_solver default_MetricTensor 4
    ([Fin 1; Fin 0; Fin 0; Fin 0; Fin (-2); Fin 0; Fin 0; Fin 0; Fin 3]
     ++ repeat (Fin 7) 7)
  = ret {| _metric :=
             Some ([Fin 1; Fin 0; Fin 0; Fin 0; Fin 2; Fin 0; Fin 0; Fin 0;
                    Fin 3] ++ repeat (Fin 7) 7);
           _dimension := 4 |}
  /\ set_metric ColMajor example_solver default_MetricTensor 1 [Fin 5]
     = Undefined
  /\ positive_definiteness ColMajor example_solver 1 [Fin 5] = Undefined
  /\ eigen_decomp ColMajor example_solver
       {| _metric := Some (repeat (Fin 7) 16); _dimension := 4 |}
       (repeat (Fin 0) 4) (repeat (Fin 0) 16)
     = Returns (repeat (Fin 0) 4, repeat (Fin 0) 16) [UnsupportedDimension 4].
Proof.
  pose proof (@unsupported_dimension_runs_3x3 ColMajor example_solver 4
                ([Fin 1; Fin 0; Fin 0; Fin 0; Fin (-2); Fin 0; Fin 0; Fin 0;
                  Fin 3] ++ repeat (Fin 7) 7)
                ltac:(discriminate)) as H4.
  pose proof (@unsupported_dimension_runs_3x3 ColMajor example_solver 1
                [Fin 5] ltac:(discriminate)) as H1.
  cbv zeta in H4, H1.
  destruct H4 as (_ & _ & Hdec & Hset4).
  destruct H1 as (Hpd1 & _ & _ & Hset1).
  split; [| split; [| split]].
  - rewrite (proj2 (Hset4 ltac:(lia) eq_refl) ltac:(cbn; lia)).
    change (firstn 9 ([Fin 1; Fin 0; Fin 0; Fin 0; Fin (-2); Fin 0; Fin 0;
                       Fin 0; Fin 3] ++ repeat (Fin 7) 7))
      with [Fin 1; Fin 0; Fin 0; Fin 0; Fin (-2); Fin 0; Fin 0; Fin 0; Fin 3].
    change (skipn 9 ([Fin 1; Fin 0; Fin 0; Fin 0; Fin (-2); Fin 0; Fin 0;
                      Fin 0; Fin 3] ++ repeat (Fin 7) 7))
      with (repeat (Fin 7) 7).
    rewrite (proj1 example_solver_3_diagonal).
    rewrite (proj2 example_solver_3_diagonal). reflexivity.
  - exact (proj1 (Hset1 ltac:(lia) eq_refl) ltac:(cbn; lia)).
  - exact (proj1 (Hpd1 ltac:(cbn; lia))).
  - exact (Hdec ltac:(discriminate) _ _ _).
Defined.
